(** * Analytics server and analyzer: a shallow embedding

    The development follows [server/analytics-server.js] (the HTTP
    handlers, [init] and [updateStats]) and the command-line analyzer
    ([analyzeData]).  The JavaScript run-time notions the two files
    rely on (truthiness, [==], [+], [parseInt], [Array.prototype.slice],
    [Math.min] ...) are written out first, in module [Js]; the files on
    disk and the handlers come after. *)

From Stdlib Require Import ZArith QArith Qround Qcanon Ascii String List Bool
  Sorted Permutation Lia.
From stdpp Require Import base list strings gmap pretty.
Import ListNotations.

Local Open Scope string_scope.
Local Open Scope list_scope.
Local Open Scope Z_scope.

(* ===================================================================== *)
(** * JavaScript values and coercions                                     *)
(* ===================================================================== *)

Module Js.

(** A scalar as it comes out of [JSON.parse], or [undefined] for a field
    that is absent.  Numbers are the integer-valued doubles: [VNum z]
    stands for a double, so [z] is an integer that a double holds (every
    integer below 2^53 in absolute value is one), and [+] on them is
    exact as long as the sum stays below 2^53; where a statement depends
    on it, it says so.  Strings are byte strings: a JavaScript string is
    the sequence of the bytes of its UTF-8 encoding. *)
Inductive value : Type :=
  | VUndef
  | VNull
  | VBool (b : bool)
  | VNum (z : Z)
  | VStr (s : string).

#[global] Instance value_eq_dec : EqDecision value.
Proof. solve_decision. Defined.

(** The result of an arithmetic operation: IEEE specials and, for the
    finite case, a rational.  Texts are read into the nearest double
    ([round_double]); the quotients and products of [div] and [mul] are
    kept exact, the double being their rounding. *)
Inductive number : Type :=
  | NaN
  | Inf (negative : bool)
  | Fin (q : Q).

(** ToBoolean. *)
Definition truthy (v : value) : bool :=
  match v with
  | VUndef | VNull => false
  | VBool b => b
  | VNum z => negb (z =? 0)
  | VStr s => negb (String.eqb s "")
  end.

(** [a || b] on values. *)
Definition or_else (a b : value) : value := if truthy a then a else b.

(** ToString on scalars.  A number is written with all its decimal
    digits, as JavaScript writes the integers below 2^53 in absolute
    value (beyond, it writes the shortest digits that read back as the
    number, and an exponent from 10^21 on: the statements that depend
    on the text of a number keep to the first range). *)
Definition ToString (v : value) : string :=
  match v with
  | VUndef => "undefined"
  | VNull => "null"
  | VBool true => "true"
  | VBool false => "false"
  | VNum z => pretty z
  | VStr s => s
  end.

(** ** White space *)

Definition byte (c : ascii) : Z := Z.of_nat (nat_of_ascii c).

(** The white space of one byte: TAB, LF, VT, FF, CR and the space. *)
Definition is_ws (c : ascii) : bool :=
  let n := nat_of_ascii c in
  ((9 <=? n)%nat && (n <=? 13)%nat) || (n =? 32)%nat.

(** The white space of two bytes: U+00A0. *)
Definition is_ws2 (c0 c1 : ascii) : bool :=
  (byte c0 =? 194) && (byte c1 =? 160).

(** The white space of three bytes: U+1680, U+2000 to U+200A, U+2028,
    U+2029, U+202F, U+205F, U+3000 and U+FEFF. *)
Definition is_ws3 (c0 c1 c2 : ascii) : bool :=
  let a := byte c0 in
  let b := byte c1 in
  let c := byte c2 in
  ((a =? 225) && (b =? 154) && (c =? 128))
  || ((a =? 226) && (b =? 128)
      && (((128 <=? c) && (c <=? 138)) || (c =? 168) || (c =? 169) || (c =? 175)))
  || ((a =? 226) && (b =? 129) && (c =? 159))
  || ((a =? 227) && (b =? 128) && (c =? 128))
  || ((a =? 239) && (b =? 187) && (c =? 191)).

(** What follows the first character of [cs], when that character is
    white space (WhiteSpace or LineTerminator). *)
Definition after_space (cs : list ascii) : option (list ascii) :=
  match cs with
  | c0 :: r0 =>
      if is_ws c0 then Some r0
      else match r0 with
           | c1 :: r1 =>
               if is_ws2 c0 c1 then Some r1
               else match r1 with
                    | c2 :: r2 => if is_ws3 c0 c1 c2 then Some r2 else None
                    | [] => None
                    end
           | [] => None
           end
  | [] => None
  end.

(** The same from the end: [cs] is a text backwards, and the result
    what precedes its last character, backwards too. *)
Definition before_space (cs : list ascii) : option (list ascii) :=
  match cs with
  | c0 :: r0 =>
      if is_ws c0 then Some r0
      else match r0 with
           | c1 :: r1 =>
               if is_ws2 c1 c0 then Some r1
               else match r1 with
                    | c2 :: r2 => if is_ws3 c2 c1 c0 then Some r2 else None
                    | [] => None
                    end
           | [] => None
           end
  | [] => None
  end.

(** [step] applied as long as it applies, at most [fuel] times. *)
Fixpoint skip (step : list ascii -> option (list ascii)) (fuel : nat)
    (cs : list ascii) : list ascii :=
  match fuel with
  | O => cs
  | S fuel' =>
      match step cs with
      | Some rest => skip step fuel' rest
      | None => cs
      end
  end.

(** ** Reading numbers out of strings *)

Definition digit_of (radix : Z) (c : ascii) : option Z :=
  let n := Z.of_nat (nat_of_ascii c) in
  let d := if (48 <=? n) && (n <=? 57) then Some (n - 48)
           else if (97 <=? n) && (n <=? 122) then Some (n - 87)
           else if (65 <=? n) && (n <=? 90) then Some (n - 55)
           else None in
  match d with
  | Some k => if k <? radix then Some k else None
  | None => None
  end.

(** The longest prefix of radix-[radix] digits of [cs], most significant
    first, and what follows it. *)
Fixpoint span_digits (radix : Z) (cs : list ascii) : list Z * list ascii :=
  match cs with
  | [] => ([], [])
  | c :: rest =>
      match digit_of radix c with
      | Some d => let '(ds, tl) := span_digits radix rest in (d :: ds, tl)
      | None => ([], cs)
      end
  end.

Definition digits_value (radix : Z) (ds : list Z) : Z :=
  fold_left (fun acc d => acc * radix + d) ds 0.

Fixpoint drop_while {A} (p : A -> bool) (l : list A) : list A :=
  match l with
  | [] => []
  | x :: rest => if p x then drop_while p rest else l
  end.

(** [trimStart] and [trim]: every step takes at least one byte, so the
    length of the text is fuel enough. *)
Definition trim_start (cs : list ascii) : list ascii :=
  skip after_space (length cs) cs.
Definition trim (cs : list ascii) : list ascii :=
  let t := rev (trim_start cs) in
  rev (skip before_space (length t) t).

Definition chars (s : string) : list ascii := list_ascii_of_string s.

(** [x / y] for a positive [y], to the nearest integer, a half to the
    even one. *)
Definition nearest_even (x y : Z) : Z :=
  let q := x / y in
  let r := x mod y in
  if 2 * r <? y then q
  else if y <? 2 * r then q + 1
  else if Z.even q then q else q + 1.

(** The exponent [e] with [2^e <= a / d < 2^(e+1)], for positive [a]
    and [d]. *)
Definition binade (a d : Z) : Z :=
  let e := Z.log2 a - Z.log2 d in
  if (if 0 <=? e then d * 2 ^ e <=? a else d <=? a * 2 ^ (- e))
  then e else e - 1.

(** The Number value for a rational: the double nearest to it (53 bits
    of significand, ties to the even one, exponents from -1022, the
    subnormals below), as a rational again; an infinity from 2^1024 on.
    The sign of a zero is not kept. *)
Definition round_double (q : Q) : number :=
  let n := Qnum q in
  let d := Z.pos (Qden q) in
  if n =? 0 then Fin 0
  else
    let e := Z.max (binade (Z.abs n) d) (-1022) in
    let up := Z.max (e - 52) 0 in
    let down := Z.max (52 - e) 0 in
    let m := nearest_even (Z.abs n * 2 ^ down) (d * 2 ^ up) in
    if 2 ^ 1024 * 2 ^ down <=? m * 2 ^ up then Inf (n <? 0)
    else Fin (Qred (Qmake (Z.sgn n * m * 2 ^ up) (Z.to_pos (2 ^ down)))).

(** [m * 10^e] as a number. *)
Definition scale10 (m e : Z) : number :=
  if 0 <=? e then round_double (inject_Z (m * 10 ^ e))
  else round_double (Qmake m (Z.to_pos (10 ^ (- e)))).

(** A radix literal [0x..], [0o..], [0b..] (the two-character prefix
    already removed): all of [cs] must be digits, and at least one. *)
Definition radix_literal (radix : Z) (cs : list ascii) : number :=
  match span_digits radix cs with
  | (d :: ds, []) => round_double (inject_Z (digits_value radix (d :: ds)))
  | _ => NaN
  end.

(** The exponent part of a decimal literal; [None] when [cs] is not a
    well-formed (possibly empty) exponent that ends the string. *)
Definition exponent_part (cs : list ascii) : option Z :=
  match cs with
  | [] => Some 0
  | c :: rest =>
      if (Ascii.eqb c "e" || Ascii.eqb c "E")%bool then
        let '(neg, rest') :=
          match rest with
          | s :: r => if Ascii.eqb s "-" then (true, r)
                      else if Ascii.eqb s "+" then (false, r)
                      else (false, rest)
          | [] => (false, rest)
          end in
        match span_digits 10 rest' with
        | (d :: ds, []) =>
            let e := digits_value 10 (d :: ds) in
            Some (if neg : bool then - e else e)
        | _ => None
        end
      else None
  end.

(** StrUnsignedDecimalLiteral. *)
Definition unsigned_decimal (cs : list ascii) : number :=
  if decide (cs = chars "Infinity") then Inf false
  else
    let '(ip, after_int) := span_digits 10 cs in
    let '(fp, after_frac) :=
      match after_int with
      | c :: r => if Ascii.eqb c "." then span_digits 10 r else ([], after_int)
      | [] => ([], after_int)
      end in
    match ip, fp with
    | [], [] => NaN
    | _, _ =>
        match exponent_part after_frac with
        | Some e =>
            scale10 (digits_value 10 (ip ++ fp)) (e - Z.of_nat (length fp))
        | None => NaN
        end
    end.

Definition negate (x : number) : number :=
  match x with
  | NaN => NaN
  | Inf s => Inf (negb s)
  | Fin q => Fin (Qred (- q))
  end.

(** StringToNumber: blanks trimmed, the empty string is 0. *)
Definition StringToNumber (s : string) : number :=
  match trim (chars s) with
  | [] => Fin 0
  | (c0 :: c1 :: rest) as t =>
      if (Ascii.eqb c0 "0" && (Ascii.eqb c1 "x" || Ascii.eqb c1 "X"))%bool
      then radix_literal 16 rest
      else if (Ascii.eqb c0 "0" && (Ascii.eqb c1 "o" || Ascii.eqb c1 "O"))%bool
      then radix_literal 8 rest
      else if (Ascii.eqb c0 "0" && (Ascii.eqb c1 "b" || Ascii.eqb c1 "B"))%bool
      then radix_literal 2 rest
      else if Ascii.eqb c0 "-" then negate (unsigned_decimal (c1 :: rest))
      else if Ascii.eqb c0 "+" then unsigned_decimal (c1 :: rest)
      else unsigned_decimal t
  | t => unsigned_decimal t
  end.

(** ToNumber. *)
Definition ToNumber (v : value) : number :=
  match v with
  | VUndef => NaN
  | VNull => Fin 0
  | VBool b => Fin (if b then 1 else 0)
  | VNum z => Fin (inject_Z z)
  | VStr s => StringToNumber s
  end.

(** [parseInt(s)] without a radix argument; [None] is NaN.  The result
    is the integer that the digits denote; the code holds the double
    nearest to it, which [slice] cannot tell from it on an array of
    fewer than 2^53 elements. *)
Definition parseInt (s : string) : option Z :=
  let t := trim_start (chars s) in
  let '(neg, t) :=
    match t with
    | c :: r => if Ascii.eqb c "-" then (true, r)
                else if Ascii.eqb c "+" then (false, r)
                else (false, t)
    | [] => (false, t)
    end in
  let '(radix, t) :=
    match t with
    | c0 :: c1 :: r =>
        if (Ascii.eqb c0 "0" && (Ascii.eqb c1 "x" || Ascii.eqb c1 "X"))%bool
        then (16, r) else (10, t)
    | _ => (10, t)
    end in
  match span_digits radix t with
  | ([], _) => None
  | (ds, _) => let n := digits_value radix ds in
               Some (if neg : bool then - n else n)
  end.

(** ** Equality *)

(** [===] and SameValueZero agree on these scalars (no NaN among them)
    and are structural equality. *)
Definition strict_eq (a b : value) : bool := bool_decide (a = b).

Definition number_eqb (x y : number) : bool :=
  match x, y with
  | Fin p, Fin q => Qeq_bool p q
  | Inf s, Inf t => Bool.eqb s t
  | _, _ => false
  end.

(** A boolean operand of [==] is first turned into a number. *)
Definition bool_to_num (v : value) : value :=
  match v with
  | VBool b => VNum (if b then 1 else 0)
  | _ => v
  end.

(** [a == b] (IsLooselyEqual) on scalars. *)
Definition loose_eq (a b : value) : bool :=
  match a, b with
  | VUndef, VUndef | VUndef, VNull | VNull, VUndef | VNull, VNull => true
  | VBool x, VBool y => Bool.eqb x y
  | _, _ =>
      match bool_to_num a, bool_to_num b with
      | VNum x, VNum y => x =? y
      | VStr s, VStr t => String.eqb s t
      | VNum x, VStr t => number_eqb (Fin (inject_Z x)) (StringToNumber t)
      | VStr s, VNum y => number_eqb (StringToNumber s) (Fin (inject_Z y))
      | _, _ => false
      end
  end.

(** [arr.includes(x)]. *)
Definition includes (arr : list value) (x : value) : bool :=
  existsb (strict_eq x) arr.

(** ** Arithmetic *)

Definition q_neg (q : Q) : bool := Qle_bool q 0 && negb (Qeq_bool q 0).
Definition q_zero (q : Q) : bool := Qeq_bool q 0.

(** [x / y]. *)
Definition div (x y : number) : number :=
  match x, y with
  | NaN, _ | _, NaN => NaN
  | Inf _, Inf _ => NaN
  | Inf s, Fin q => Inf (xorb s (q_neg q))
  | Fin _, Inf _ => Fin 0
  | Fin p, Fin q =>
      if q_zero q then (if q_zero p then NaN else Inf (q_neg p))
      else Fin (Qred (p / q))
  end.

(** [x * y]. *)
Definition mul (x y : number) : number :=
  match x, y with
  | NaN, _ | _, NaN => NaN
  | Inf s, Inf t => Inf (xorb s t)
  | Inf s, Fin q | Fin q, Inf s => if q_zero q then NaN else Inf (xorb s (q_neg q))
  | Fin p, Fin q => Fin (Qred (p * q))
  end.

Definition of_nat (n : nat) : number := Fin (inject_Z (Z.of_nat n)).

(** [x <= y] on numbers other than NaN. *)
Definition leb (x y : number) : bool :=
  match x, y with
  | Inf true, _ | _, Inf false => true
  | Fin p, Fin q => Qle_bool p q
  | _, _ => false
  end.

Definition is_nan (x : number) : bool :=
  match x with NaN => true | _ => false end.

(** [Math.min(...xs)] and [Math.max(...xs)] on already converted
    arguments: NaN as soon as one argument is, the infinite neutral
    element on no argument. *)
Definition Math_min (xs : list number) : number :=
  if existsb is_nan xs then NaN
  else fold_left (fun m x => if leb x m then x else m) xs (Inf false).

Definition Math_max (xs : list number) : number :=
  if existsb is_nan xs then NaN
  else fold_left (fun m x => if leb m x then x else m) xs (Inf true).

(** [Math.round(x)]: the integer nearest to [x], halves upwards. *)
Definition Math_round (x : number) : number :=
  match x with
  | Fin q => Fin (inject_Z (Qfloor (q + (1 # 2))))
  | _ => x
  end.

(** The accumulator of [reduce((a, b) => a + b, 0)] over scalars: a
    sum of integers is the double nearest to it, again an integer or an
    infinity, and a string operand turns the sum into a
    concatenation. *)
Inductive acc : Type :=
  | ANum (z : Z)
  | AInf (negative : bool)
  | ANaN
  | AStr (s : string).

Definition acc_string (a : acc) : string :=
  match a with
  | ANum z => pretty z
  | AInf false => "Infinity"
  | AInf true => "-Infinity"
  | ANaN => "NaN"
  | AStr s => s
  end.

(** [z + y] on two integer-valued doubles. *)
Definition plus (z y : Z) : acc :=
  match round_double (inject_Z (z + y)) with
  | Fin q => ANum (Qfloor q)
  | Inf negative => AInf negative
  | NaN => ANaN
  end.

(** [a + v]. *)
Definition add (a : acc) (v : value) : acc :=
  match a, v with
  | AStr s, _ => AStr (s +:+ ToString v)
  | _, VStr t => AStr (acc_string a +:+ t)
  | ANaN, _ => ANaN
  | _, VUndef => ANaN
  | ANum z, VNull => ANum z
  | ANum z, VBool b => plus z (if b then 1 else 0)
  | ANum z, VNum y => plus z y
  | AInf negative, _ => AInf negative
  end.

Definition acc_number (a : acc) : number :=
  match a with
  | ANum z => Fin (inject_Z z)
  | AInf negative => Inf negative
  | ANaN => NaN
  | AStr s => StringToNumber s
  end.

(** ** Arrays *)

(** [arr.slice(start)]: a negative [start] counts from the end. *)
Definition slice {A} (arr : list A) (start : Z) : list A :=
  let len := Z.of_nat (length arr) in
  let k := if start <? 0 then Z.max (len + start) 0 else Z.min start len in
  drop (Z.to_nat k) arr.

(** The number of distinct members: [new Set(arr).size]. *)
Definition set_size (arr : list value) : nat := length (remove_dups arr).

End Js.

Import Js.

(* ===================================================================== *)
(** * Data model                                                          *)
(* ===================================================================== *)

(** One event of a batch, with the fields that the server and the
    analyzer read (the other keys of the object are carried along by the
    code and never looked at).  An array element that is not an object
    has every field [undefined]; [properties] is [None] when the field
    is absent or [null], the two cases in which reading a property of it
    throws. *)
Record event : Type := Event {
  event_name : value;
  properties : option (gmap string value);
  timestamp : value;
  processed_at : value
}.

(** [e.properties.key]; [None] is the TypeError of reading a property
    of [undefined]. *)
Definition property (key : string) (e : event) : option value :=
  match properties e with
  | Some props => Some (default VUndef (props !! key))
  | None => None
  end.

(** One line of [events.jsonl] once decoded. *)
Record session : Type := Session {
  session_id : value;
  user_id : value;
  user_info : option (gmap string value);
  received_at : value;
  events : list event
}.

(** The [events] field of a request body. *)
Inductive field : Type :=
  | FValue (v : value)          (* absent ([VUndef]) or a scalar *)
  | FObject                     (* an object that is not an array *)
  | FArray (items : list event).

Definition field_truthy (f : field) : bool :=
  match f with
  | FValue v => truthy v
  | FObject | FArray _ => true
  end.

Definition Array_isArray (f : field) : bool :=
  match f with FArray _ => true | _ => false end.

(** [req.body] of [POST /api/analytics]. *)
Record body : Type := Body {
  body_session_id : value;
  body_user_id : value;
  body_user_info : option (gmap string value);
  body_events : field
}.

(** [stats.unique_users] in its possible shapes: absent (or [null]), a
    plain object, an array, or (in memory only) a [Set]. *)
Inductive users : Type :=
  | UAbsent
  | UObject
  | UArray (members : list value)
  | USet (members : list value).

Record stats : Type := Stats {
  total_sessions : Z;
  total_events : Z;
  total_calculations : Z;
  total_shares : Z;
  unique_users : users
}.

(** What [JSON.stringify] followed by [JSON.parse] makes of a stats
    object: a [Set] has no enumerable property and is written as the
    empty object literal. *)
Definition json_users (u : users) : users :=
  match u with
  | USet _ => UObject
  | _ => u
  end.

Definition json_stats (st : stats) : stats :=
  Stats (total_sessions st) (total_events st) (total_calculations st)
        (total_shares st) (json_users (unique_users st)).

(* ===================================================================== *)
(** * The files and the effects on them                                   *)
(* ===================================================================== *)

(** A line of [events.jsonl] (a text without line feed): the text of a
    session as the server writes it (an object with an [events] array),
    or text that [JSON.parse] rejects, also with the white space at its
    two ends taken off. *)
Inductive line : Type :=
  | Row (s : session)
  | Junk (text : string).

(** The content of [stats.json]. *)
Inductive stats_text : Type :=
  | Garbled
  | Json (st : stats).

Inductive fs_op : Type :=
  | Appended (s : session)
  | StatsWritten (st : stats)
  | EventsCreated.

(** The data directory, the reading of the server clock and the writes
    made so far (oldest first).  A file that does not exist is [None]. *)
Record world : Type := World {
  events_file : option (list line);
  stats_file : option stats_text;
  ticks : nat;
  journal : list fs_op
}.

(** Which file operations the disk refuses. *)
Record faults : Type := Faults {
  append_fails : bool;
  stats_read_fails : bool;
  stats_write_fails : bool
}.

Definition healthy : faults := Faults false false false.

Inductive exn : Type :=
  | TypeError (msg : string)
  | SyntaxError
  | IOError (code : string).

Inductive outcome (A : Type) : Type :=
  | Return (a : A)
  | Throw (e : exn).
Arguments Return {A} a.
Arguments Throw {A} e.

(** Computations over a state [St] that may throw; the state reached
    before a throw is kept, as a write already made is. *)
Definition M (St A : Type) : Type := St -> outcome A * St.

Definition ret {St A} (a : A) : M St A := fun s => (Return a, s).

Definition bind {St A B} (c : M St A) (k : A -> M St B) : M St B :=
  fun s => match c s with
           | (Return a, s') => k a s'
           | (Throw e, s') => (Throw e, s')
           end.

Definition throw {St A} (e : exn) : M St A := fun s => (Throw e, s).

Definition try_catch {St A} (c : M St A) (h : exn -> M St A) : M St A :=
  fun s => match c s with
           | (Return a, s') => (Return a, s')
           | (Throw e, s') => h e s'
           end.

Definition modify {St} (f : St -> St) : M St unit := fun s => (Return tt, f s).

Declare Scope js_scope.
Delimit Scope js_scope with js.
Notation "x <- c ;; k" := (bind c (fun x => k))
  (at level 100, c at next level, right associativity) : js_scope.
Notation "c ;; k" := (bind c (fun _ => k))
  (at level 100, right associativity) : js_scope.
Local Open Scope js_scope.

Fixpoint mapM {St A B} (f : A -> M St B) (l : list A) : M St (list B) :=
  match l with
  | [] => ret []
  | x :: rest => y <- f x ;; ys <- mapM f rest ;; ret (y :: ys)
  end.

Fixpoint foldM {St A B} (f : B -> A -> M St B) (l : list A) (b : B) : M St B :=
  match l with
  | [] => ret b
  | x :: rest => b' <- f b x ;; foldM f rest b'
  end.

(** An optional result whose absence is a TypeError. *)
Definition or_type_error {St A} (msg : string) (o : option A) : M St A :=
  match o with
  | Some a => ret a
  | None => throw (TypeError msg)
  end.

Section Server.

(** [clock n] is what the [n]-th [new Date().toISOString()] returns. *)
Variable clock : nat -> string.

Definition new_Date : M world string :=
  fun w => (Return (clock (ticks w)),
            World (events_file w) (stats_file w) (S (ticks w)) (journal w)).

(** [fs.appendFile(EVENTS_FILE, JSON.stringify(data) + '\n')]; the file
    is created when it does not exist. *)
Definition appendFile (disk : faults) (data : session) : M world unit :=
  if append_fails disk then throw (IOError "EACCES")
  else modify (fun w =>
    World (Some (default [] (events_file w) ++ [Row data])) (stats_file w)
          (ticks w) (journal w ++ [Appended data])).

(** [fs.readFile(EVENTS_FILE, 'utf-8')]. *)
Definition read_events : M world (list line) :=
  fun w => match events_file w with
           | Some ls => (Return ls, w)
           | None => (Throw (IOError "ENOENT"), w)
           end.

(** [fs.readFile(STATS_FILE, 'utf-8')]. *)
Definition read_stats (disk : faults) : M world stats_text :=
  fun w => if stats_read_fails disk then (Throw (IOError "EACCES"), w)
           else match stats_file w with
                | Some t => (Return t, w)
                | None => (Throw (IOError "ENOENT"), w)
                end.

(** [fs.writeFile(STATS_FILE, JSON.stringify(st, null, 2))]. *)
Definition write_stats (disk : faults) (st : stats) : M world unit :=
  if stats_write_fails disk then throw (IOError "EACCES")
  else modify (fun w =>
    World (events_file w) (Some (Json (json_stats st))) (ticks w)
          (journal w ++ [StatsWritten (json_stats st)])).

Definition parse_stats {St} (t : stats_text) : M St stats :=
  match t with
  | Json st => ret st
  | Garbled => throw SyntaxError
  end.

(** [JSON.parse(line)]. *)
Definition JSON_parse {St} (l : line) : M St session :=
  match l with
  | Row s => ret s
  | Junk _ => throw SyntaxError
  end.

(** [data.trim().split('\n').filter(line => line)]: [trim] takes the
    white space off both ends of the file, and with it the lines there
    that hold nothing else; the filter drops the empty lines. *)
Definition blank (l : line) : bool :=
  match l with
  | Junk text => match trim_start (chars text) with [] => true | _ => false end
  | Row _ => false
  end.

Definition trim_lines (data : list line) : list line :=
  rev (drop_while blank (rev (drop_while blank data))).

Definition nonempty (l : line) : bool :=
  match l with
  | Junk "" => false
  | _ => true
  end.

Definition split_lines (data : list line) : list line :=
  List.filter nonempty (trim_lines data).

(** ** [init] *)

Definition fresh_stats : stats := Stats 0 0 0 0 (USet []).

Definition init : M world unit :=
  modify (fun w =>
    let w1 := match events_file w with
              | Some _ => w
              | None => World (Some []) (stats_file w) (ticks w)
                              (journal w ++ [EventsCreated])
              end in
    match stats_file w1 with
    | Some _ => w1
    | None => World (events_file w1) (Some (Json (json_stats fresh_stats)))
                    (ticks w1) (journal w1 ++ [StatsWritten (json_stats fresh_stats)])
    end).

(** ** [updateStats] *)

Definition count_event (st : stats) (e : event) : stats :=
  let st1 :=
    if strict_eq (event_name e) (VStr "calculation_performed")
    then Stats (total_sessions st) (total_events st) (total_calculations st + 1)
               (total_shares st) (unique_users st)
    else st in
  if strict_eq (event_name e) (VStr "share_clicked")
  then Stats (total_sessions st1) (total_events st1) (total_calculations st1)
             (total_shares st1 + 1) (unique_users st1)
  else st1.

(** The block guarded by [if (data.user_id)]. *)
Definition add_user (uid : value) (u : users) : option users :=
  let u := match u with UAbsent => UArray [] | _ => u end in
  match u with
  | UArray members =>
      if includes members uid then Some (UArray members)
      else Some (UArray (members ++ [uid]))
  | _ => None      (* [includes] is not a function *)
  end.

Definition updateStats (disk : faults) (data : session) : M world unit :=
  try_catch
    (statsData <- read_stats disk ;;
     st <- parse_stats statsData ;;
     let st := Stats (total_sessions st + 1)
                     (total_events st + Z.of_nat (length (events data)))
                     (total_calculations st) (total_shares st) (unique_users st) in
     let st := fold_left count_event (events data) st in
     st <- (if truthy (user_id data)
            then u <- or_type_error "stats.unique_users.includes is not a function"
                        (add_user (user_id data) (unique_users st)) ;;
                 ret (Stats (total_sessions st) (total_events st)
                            (total_calculations st) (total_shares st) u)
            else ret st) ;;
     write_stats disk st)
    (fun _ => ret tt).

(** ** Responses *)

(** [x.toFixed(digits)], kept as the number it is applied to: the
    digits depend on the double, the text of NaN and of the infinities
    does not. *)
Inductive rendered : Type :=
  | toFixed (digits : nat) (x : number).

Record dashboard : Type := Dashboard {
  dash_total_sessions : nat;
  dash_total_events : nat;
  dash_unique_users : nat;
  events_by_type : gmap string nat;
  calculations_total : nat;
  avg_price : number;
  avg_rate : rendered;
  last_updated : string
}.

Inductive payload : Type :=
  | PError (error : string)
  | PReceived (success : bool) (events_received : nat)
  | PStats (st : stats)
  | PRecent (count : nat) (recent : list session)
  | PUser (uid : string) (sessions_count : nat) (user_events : nat)
          (sessions : list session)
  | PDashboard (d : dashboard).

Record response : Type := Response {
  status : nat;
  json : payload
}.

(** [m[key] = (m[key] || 0) + 1]. *)
Definition bump (key : string) (m : gmap string nat) : gmap string nat :=
  <[key := (default 0 (m !! key) + 1)%nat]> m.

Definition count_by {A} (key : A -> string) (l : list A) : gmap string nat :=
  fold_left (fun m x => bump (key x) m) l ∅.

Definition is_event (name : string) (e : event) : bool :=
  strict_eq (event_name e) (VStr name).

(** ** [POST /api/analytics] *)

Definition stamp (e : event) : M world event :=
  now <- new_Date ;;
  ret (Event (event_name e) (properties e) (timestamp e) (VStr now)).

Definition post_analytics (disk : faults) (req : body) : M world response :=
  try_catch
    (let events := body_events req in
     if negb (field_truthy events) || negb (Array_isArray events)
     then ret (Response 400 (PError "Invalid events data"))
     else
       match events with
       | FArray items =>
           now <- new_Date ;;
           stamped <- mapM stamp items ;;
           let enrichedData :=
             Session (body_session_id req) (body_user_id req)
                     (body_user_info req) (VStr now) stamped in
           appendFile disk enrichedData ;;
           updateStats disk enrichedData ;;
           ret (Response 200 (PReceived true (length items)))
       | _ => throw (TypeError "events.map is not a function")
       end)
    (fun _ => ret (Response 500 (PError "Internal server error"))).

(** ** [GET /api/stats] *)

Definition get_stats (disk : faults) : M world response :=
  try_catch
    (statsData <- read_stats disk ;;
     st <- parse_stats statsData ;;
     (* a parsed [unique_users] is never an instance of [Set] *)
     ret (Response 200 (PStats st)))
    (fun _ => ret (Response 500 (PError "Failed to read stats"))).

(** ** [GET /api/events/recent] *)

(** [parseInt(req.query.limit) || 100]. *)
Definition recent_limit (query_limit : option string) : Z :=
  let q := match query_limit with Some s => VStr s | None => VUndef end in
  match parseInt (ToString q) with
  | Some n => if n =? 0 then 100 else n
  | None => 100
  end.

Definition get_recent (query_limit : option string) : M world response :=
  try_catch
    (let limit := recent_limit query_limit in
     data <- read_events ;;
     let lines := split_lines data in
     recentEvents <- mapM JSON_parse (slice lines (- limit)) ;;
     ret (Response 200 (PRecent (length recentEvents) recentEvents)))
    (fun _ => ret (Response 500 (PError "Failed to read events"))).

(** ** [GET /api/user/:userId] *)

Definition get_user (userId : string) : M world response :=
  try_catch
    (data <- read_events ;;
     let lines := split_lines data in
     parsed <- mapM JSON_parse lines ;;
     let userSessions :=
       List.filter (fun s => loose_eq (user_id s) (VStr userId)) parsed in
     let allEvents := flat_map events userSessions in
     ret (Response 200 (PUser userId (length userSessions) (length allEvents)
                              userSessions)))
    (fun _ => ret (Response 500 (PError "Failed to read user data"))).

(** ** [GET /api/dashboard] *)

(** [calculations.reduce((sum, e) => sum + (e.properties[key] || 0), 0)
      / calculations.length], or 0 without calculations. *)
Definition dashboard_average {St} (key : string) (calculations : list event)
  : M St number :=
  if (0 <? length calculations)%nat then
    total <- foldM (fun sum e =>
                      p <- or_type_error "Cannot read properties of undefined"
                             (property key e) ;;
                      ret (add sum (or_else p (VNum 0))))
                   calculations (ANum 0) ;;
    ret (div (acc_number total) (of_nat (length calculations)))
  else ret (Fin 0).

Definition get_dashboard : M world response :=
  try_catch
    (data <- read_events ;;
     let lines := split_lines data in
     allSessions <- mapM JSON_parse lines ;;
     let allEvents := flat_map events allSessions in
     let eventsByType := count_by (fun e => ToString (event_name e)) allEvents in
     let calculations := List.filter (is_event "calculation_performed") allEvents in
     avgPrice <- dashboard_average "price" calculations ;;
     avgRate <- dashboard_average "rate" calculations ;;
     let uniqueUsers := List.filter truthy (map user_id allSessions) in
     now <- new_Date ;;
     ret (Response 200 (PDashboard
            (Dashboard (length allSessions) (length allEvents)
                       (set_size uniqueUsers) eventsByType
                       (length calculations) (Math_round avgPrice)
                       (toFixed 2 avgRate) now))))
    (fun _ => ret (Response 500 (PError "Failed to generate dashboard"))).

End Server.

(* ===================================================================== *)
(** * The command-line analyzer                                           *)
(* ===================================================================== *)

(** What [analyzeData] prints, one constructor per kind of line.  The
    banners and section titles are left out, and so are the sections
    printed after the conversion block (time range, most active users,
    recommendations), which only add lines. *)
Inductive report_line : Type :=
  | NoData
  | TotalSessions (n : nat)
  | UniqueUsers (n : nat)
  | TotalEvents (n : nat)
  | EventsPerSession (x : rendered)
  | EventTypes (counts : gmap string nat)
  | TotalCalculations (n : nat)
  | PriceStats (mean least greatest : number)
  | DownPaymentStats (mean : number)
  | RateStats (mean : rendered) (least greatest : number)
  | TermStats (mean : rendered)
  | SliderChanges (counts : gmap string nat)
  | ConversionRate (pct : rendered)
  | ShareRate (pct : rendered)
  | CalculationsPerSession (x : rendered)
  | FileNotFound
  | AnalysisError.

Definition console_log (l : report_line) : M (list report_line) unit :=
  modify (fun out => out ++ [l]).

(** [calculations.map(c => c.properties[key]).filter(Boolean)]. *)
Definition truthy_properties {St} (key : string) (calculations : list event)
  : M St (list value) :=
  vs <- mapM (fun c => or_type_error "Cannot read properties of undefined"
                         (property key c)) calculations ;;
  ret (List.filter truthy vs).

(** [xs.reduce((a, b) => a + b, 0) / xs.length]. *)
Definition mean (xs : list value) : number :=
  div (acc_number (fold_left add xs (ANum 0))) (of_nat (length xs)).

Definition least (xs : list value) : number := Math_min (map ToNumber xs).
Definition greatest (xs : list value) : number := Math_max (map ToNumber xs).

Definition when {St} (b : bool) (c : M St unit) : M St unit :=
  if b then c else ret tt.

Definition analyze_calculations (calculations : list event)
  : M (list report_line) unit :=
  prices <- truthy_properties "price" calculations ;;
  downPayments <- truthy_properties "down_payment" calculations ;;
  rates <- truthy_properties "rate" calculations ;;
  terms <- truthy_properties "term_years" calculations ;;
  console_log (TotalCalculations (length calculations)) ;;
  when (0 <? length prices)%nat
    (console_log (PriceStats (Math_round (mean prices)) (least prices)
                             (greatest prices))) ;;
  when (0 <? length downPayments)%nat
    (console_log (DownPaymentStats (Math_round (mean downPayments)))) ;;
  when (0 <? length rates)%nat
    (console_log (RateStats (toFixed 2 (mean rates)) (least rates)
                            (greatest rates))) ;;
  when (0 <? length terms)%nat
    (console_log (TermStats (toFixed 1 (mean terms)))).

Definition analyze_sliders (sliderChanges : list event)
  : M (list report_line) unit :=
  sliders <- mapM (fun e => or_type_error "Cannot read properties of undefined"
                              (property "slider" e)) sliderChanges ;;
  console_log (SliderChanges (count_by ToString sliders)).

Definition analyze_conversions (eventsByType : gmap string nat)
    (sessions_size : nat) : M (list report_line) unit :=
  let appOpened := default 0%nat (eventsByType !! "app_opened") in
  let calculationsPerformed :=
    default 0%nat (eventsByType !! "calculation_performed") in
  let shareClicks := default 0%nat (eventsByType !! "share_clicked") in
  when (0 <? appOpened)%nat
    (console_log (ConversionRate (toFixed 1
       (mul (div (of_nat calculationsPerformed) (of_nat appOpened))
            (of_nat 100)))) ;;
     when (0 <? shareClicks)%nat
       (console_log (ShareRate (toFixed 1
          (mul (div (of_nat shareClicks) (of_nat calculationsPerformed))
               (of_nat 100)))))) ;;
  console_log (CalculationsPerSession (toFixed 2
    (div (of_nat calculationsPerformed) (of_nat sessions_size)))).

Definition analyze (file : option (list line)) : M (list report_line) unit :=
  try_catch
    (data <- (match file with
              | Some ls => ret ls
              | None => throw (IOError "ENOENT")
              end) ;;
     let lines := split_lines data in
     if (length lines =? 0)%nat then console_log NoData
     else
       sessions <- mapM JSON_parse lines ;;
       let allEvents := flat_map events sessions in
       let uniqueUsers := List.filter truthy (map user_id sessions) in
       let uniqueSessions := set_size (map session_id sessions) in
       console_log (TotalSessions uniqueSessions) ;;
       console_log (UniqueUsers (set_size uniqueUsers)) ;;
       console_log (TotalEvents (length allEvents)) ;;
       console_log (EventsPerSession (toFixed 2
         (div (of_nat (length allEvents)) (of_nat uniqueSessions)))) ;;
       let eventsByType :=
         count_by (fun e => ToString (event_name e)) allEvents in
       console_log (EventTypes eventsByType) ;;
       let calculations :=
         List.filter (is_event "calculation_performed") allEvents in
       when (0 <? length calculations)%nat (analyze_calculations calculations) ;;
       let sliderChanges := List.filter (is_event "slider_changed") allEvents in
       when (0 <? length sliderChanges)%nat (analyze_sliders sliderChanges) ;;
       analyze_conversions eventsByType uniqueSessions)
    (fun error =>
       match error with
       | IOError "ENOENT" => console_log FileNotFound
       | _ => console_log AnalysisError
       end).

(** The lines printed by one run of the analyzer. *)
Definition analyzeData (file : option (list line)) : list report_line :=
  snd (analyze file []).


(* ===================================================================== *)
(** * Notions used in the statements                                      *)
(* ===================================================================== *)

Section Enrichment.

Variable clock : nat -> string.

(** The events of a batch as [stamp] leaves them, the first one stamped
    at tick [n]. *)
Fixpoint stamped (n : nat) (items : list event) : list event :=
  match items with
  | [] => []
  | e :: rest =>
      Event (event_name e) (properties e) (timestamp e) (VStr (clock n))
      :: stamped (S n) rest
  end.

(** The record that [post_analytics] builds for a body with events
    [items] when the clock stands at [n]. *)
Definition enriched (n : nat) (req : body) (items : list event) : session :=
  Session (body_session_id req) (body_user_id req) (body_user_info req)
          (VStr (clock n)) (stamped (S n) items).

(** A series of requests served one after another, each to its end
    before the next begins, each with the state of the disk it meets.
    (Requests that overlap are not of this form: [updateStats] reads
    and writes the stats file without a lock.) *)
Fixpoint post_all (reqs : list (faults * body)) (w : world) : world :=
  match reqs with
  | [] => w
  | (disk, req) :: rest => post_all rest (snd (post_analytics clock disk req w))
  end.

End Enrichment.

Definition advance (k : nat) (w : world) : world :=
  World (events_file w) (stats_file w) (ticks w + k) (journal w).

Definition with_row (data : session) (w : world) : world :=
  World (Some (default [] (events_file w) ++ [Row data])) (stats_file w)
        (ticks w) (journal w ++ [Appended data]).

(** The sessions among the lines of the log. *)
Definition rows (data : list line) : list session :=
  omap (fun l => match l with Row s => Some s | Junk _ => None end) data.

(** The sum of [events.length] over the persisted records. *)
Definition logged_events (w : world) : Z :=
  Z.of_nat (length (flat_map events (rows (default [] (events_file w))))).

(** The persisted stats, when the file holds a stats object. *)
Definition persisted_stats (w : world) : option stats :=
  match stats_file w with
  | Some (Json st) => Some st
  | _ => None
  end.

(** [unique_users] holds no user twice. *)
Definition users_distinct (u : users) : Prop :=
  match u with
  | UArray members | USet members => NoDup members
  | UAbsent | UObject => True
  end.

Definition persisted_users_distinct (w : world) : Prop :=
  match persisted_stats w with
  | Some st => users_distinct (unique_users st)
  | None => True
  end.

(** The stats object that [updateStats] computes from the parsed one,
    or [None] when the user block throws. *)
Definition updated_stats (data : session) (st : stats) : option stats :=
  let st := Stats (total_sessions st + 1)
                  (total_events st + Z.of_nat (length (events data)))
                  (total_calculations st) (total_shares st) (unique_users st) in
  let st := fold_left count_event (events data) st in
  if truthy (user_id data)
  then match add_user (user_id data) (unique_users st) with
       | Some u => Some (Stats (total_sessions st) (total_events st)
                               (total_calculations st) (total_shares st) u)
       | None => None
       end
  else Some st.

Definition with_stats (st : stats) (w : world) : world :=
  World (events_file w) (Some (Json (json_stats st))) (ticks w)
        (journal w ++ [StatsWritten (json_stats st)]).

(** A series of [updateStats] calls, each with the state of the disk it
    meets. *)
Fixpoint update_all (calls : list (faults * session)) (w : world) : world :=
  match calls with
  | [] => w
  | (disk, data) :: rest => update_all rest (snd (updateStats disk data w))
  end.

(** The last [k] elements of a list. *)
Definition last_n {A} (k : nat) (l : list A) : list A := drop (length l - k) l.

(** The writes of [w'] that [w] had not made yet. *)
Definition new_writes (w w' : world) : list fs_op :=
  drop (length (journal w)) (journal w').

(** The stats agree with the log on the number of events. *)
Definition totals_agree (w : world) : Prop :=
  option_map total_events (persisted_stats w) = Some (logged_events w).

(** [unique_users] is an array, or absent. *)
Definition listed (u : users) : Prop :=
  u = UAbsent \/ exists l, u = UArray l.

Definition users_listed (w : world) : Prop :=
  exists st, persisted_stats w = Some st /\ listed (unique_users st).

(** A byte of the ASCII range that is not white space: no white space
    begins or ends with it. *)
Definition solid (c : ascii) : bool := (byte c <? 128) && negb (is_ws c).

(** The integers on which doubles are exact: every integer of this
    range is a double, and so is the sum of two of them that stays in
    it. *)
Definition safe (z : Z) : Prop := - 2 ^ 53 < z < 2 ^ 53.

(** The integer [z] is a double, so that [VNum z] is a value that
    [JSON.parse] can return. *)
Definition is_double (z : Z) : Prop :=
  round_double (inject_Z z) = Fin (inject_Z z).

Definition id_is_double (v : value) : Prop :=
  match v with
  | VNum z => is_double z
  | _ => True
  end.

(** The numbers among the [user_id]s of the sessions are doubles. *)
Definition ids_are_doubles (ss : list session) : Prop :=
  Forall (fun s => id_is_double (user_id s)) ss.

(** The sessions that the rollup for [userId] keeps. *)
Definition matching (userId : string) (ss : list session) : list session :=
  List.filter (fun s => loose_eq (user_id s) (VStr userId)) ss.

(** A log with a line that is not blank and does not decode. *)
Definition has_junk (data : list line) : Prop :=
  exists text, In (Junk text) data /\ blank (Junk text) = false.

(** A log with a line that a scan reads and cannot decode: a line that
    does not decode and is not white space only, wherever it is, or a
    line of white space (not empty) with a line before it and a line
    after it that are not blank. *)
Definition has_undecodable (data : list line) : Prop :=
  exists pre text post,
    data = pre ++ Junk text :: post
    /\ (blank (Junk text) = false
        \/ (text <> ""
            /\ Exists (fun l => blank l = false) pre
            /\ Exists (fun l => blank l = false) post)).

(** A log of records and empty lines, between white-space lines at its
    two ends. *)
Definition scan_clean (data : list line) : Prop :=
  exists lead core trail,
    data = lead ++ core ++ trail
    /\ Forall (fun l => blank l = true) lead
    /\ Forall (fun l => blank l = true) trail
    /\ Forall (fun l => l = Junk "" \/ exists s, l = Row s) core.

(** The text [t] denotes the number [z]: read as a number, as [==]
    reads a text, it is [z]. *)
Definition denotes (t : string) (z : Z) : Prop :=
  exists q, StringToNumber t = Fin q /\ (q == inject_Z z)%Q.

(** A stored identifier and a queried text that are equal under the
    loosely typed comparison: a text and the same text; a number and a
    text that denotes it; a boolean and a text that denotes 1 for
    [true], 0 for [false].  An absent identifier ([undefined] or
    [null]) is equal to no text. *)
Inductive id_matches : value -> string -> Prop :=
  | text_matches t : id_matches (VStr t) t
  | number_matches z t : denotes t z -> id_matches (VNum z) t
  | boolean_matches (b : bool) t :
      denotes t (if b then 1 else 0) -> id_matches (VBool b) t.

(** The [limit] parameter is absent, is not a number, or reads as 0. *)
Definition no_usable_limit (query_limit : option string) : Prop :=
  match query_limit with
  | None => True
  | Some s => parseInt s = None \/ parseInt s = Some 0
  end.

(** Every line printed so far is still there after [c]. *)
Definition keeps {A} (c : M (list report_line) A) : Prop :=
  forall out l, In l out -> In l (snd (c out)).













(** ** Sample data *)

Definition sample_clock (n : nat) : string := "2024-01-01T00:00:0" +:+ pretty n.

(** The data directory before the first start, and after [init]. *)
Definition empty_disk : world := World None None 0 [].
Definition fresh_store : world := snd (init empty_disk).

Definition plain_event (name : string) : event :=
  Event (VStr name) None VUndef VUndef.

Definition calculation (props : list (string * value)) : event :=
  Event (VStr "calculation_performed") (Some (list_to_map props)) VUndef VUndef.

Definition identified_batch : body :=
  Body (VStr "s1") (VStr "u1") None (FArray [plain_event "app_opened"]).

Definition batch_without_events : body :=
  Body (VStr "x") VUndef None (FValue VUndef).

Definition empty_batch : body :=
  Body (VStr "s2") (VStr "u1") None (FArray []).

(** A store whose stats file lists its users in an array. *)
Definition listed_store : world :=
  World (Some [Row (Session (VStr "s0") (VStr "u1") None
                            (VStr "2023-12-31T23:59:59")
                            [Event (VStr "app_opened") None VUndef
                                   (VStr "2023-12-31T23:59:59")])])
        (Some (Json (Stats 1 1 0 0 (UArray [VStr "u1"])))) 0 [].

Definition stored (uid : value) (evs : list event) : session :=
  Session (VStr "s") uid None (VStr "2024-01-01T00:00:00") evs.

Definition store_of (data : list line) : world := World (Some data) None 0 [].

(** Two good records around a line that does not decode. *)
Definition damaged_log : list line :=
  [Row (stored (VStr "u1") [plain_event "app_opened"]);
   Junk "{oops";
   Row (stored (VStr "u1") [plain_event "share_clicked"])].

(** Three calculations, one without price and one without rate. *)
Definition priced_sessions : list session :=
  [stored (VStr "u1")
     [calculation [("price", VNum 5000000); ("rate", VNum 8)];
      plain_event "app_opened";
      calculation [("rate", VNum 13)]];
   stored (VNum 42) [calculation [("price", VNum 3000001)]]].

(** Two calculations, only one of which carries a price. *)
Definition half_priced_log : list line :=
  [Row (stored (VStr "u1") [calculation [("price", VNum 100)]; calculation []])].

(** An opened application and a share, and no calculation. *)
Definition shared_without_calculation : list line :=
  [Row (stored VUndef [plain_event "app_opened"; plain_event "share_clicked"])].

(** The no-break space U+00A0 and the byte order mark U+FEFF, in UTF-8. *)
Definition nbsp : string := String (ascii_of_nat 194) (String (ascii_of_nat 160) "").
Definition bom : string :=
  String (ascii_of_nat 239) (String (ascii_of_nat 187) (String (ascii_of_nat 191) "")).

(** A line of white space between two records. *)
Definition spaced_log : list line :=
  [Row (stored (VStr "u1") [plain_event "app_opened"]);
   Junk " ";
   Row (stored (VStr "u1") [plain_event "share_clicked"])].

(** Records and empty lines between white-space lines. *)
Definition padded_log : list line :=
  [Junk " "; Junk "";
   Row (stored (VStr "u1") [plain_event "app_opened"]);
   Junk "";
   Row (stored (VNum 42) [plain_event "share_clicked"]);
   Junk nbsp; Junk ""].

Definition mixed_ids : list session :=
  [stored (VNum 42) [plain_event "app_opened"];
   stored (VStr "42") [plain_event "app_opened"; plain_event "share_clicked"];
   stored (VStr "43") []].

(* ===================================================================== *)
(** * Further notions: the stats as a mirror of the log                   *)
(* ===================================================================== *)

(** The sessions of the persisted log. *)
Definition log_sessions (w : world) : list session :=
  rows (default [] (events_file w)).

(** The number of events called [name]. *)
Definition count_named (name : string) (evs : list event) : Z :=
  Z.of_nat (length (List.filter (is_event name) evs)).

(** The members of [unique_users] when it is an array. *)
Definition members_of (u : users) : list value :=
  match u with
  | UArray l => l
  | _ => []
  end.

(** The four counters of the stats file are what a scan of the log
    counts. *)
Definition counters_mirror_log (w : world) : Prop :=
  exists st,
    persisted_stats w = Some st
    /\ total_sessions st = Z.of_nat (length (log_sessions w))
    /\ total_events st = Z.of_nat (length (flat_map events (log_sessions w)))
    /\ total_calculations st
       = count_named "calculation_performed" (flat_map events (log_sessions w))
    /\ total_shares st
       = count_named "share_clicked" (flat_map events (log_sessions w)).

(** [unique_users] lists, each once, the truthy [user_id]s of the log. *)
Definition users_mirror_log (w : world) : Prop :=
  exists st,
    persisted_stats w = Some st
    /\ listed (unique_users st)
    /\ NoDup (members_of (unique_users st))
    /\ (forall u, u ∈ members_of (unique_users st)
                  <-> truthy u = true /\ u ∈ map user_id (log_sessions w)).

(** All the bodies carry an array of events. *)
Definition all_arrays (batches : list body) : Prop :=
  Forall (fun req => Array_isArray (body_events req) = true) batches.

(** A store whose log is empty and whose stats start from an empty
    array of users. *)
Definition empty_listed_store : world :=
  World (Some []) (Some (Json (Stats 0 0 0 0 (UArray [])))) 0 [].

Definition sample_batches : list body :=
  [Body (VStr "s1") (VStr "u1") None
        (FArray [plain_event "app_opened"; calculation [("price", VNum 100)]]);
   Body (VStr "s2") (VNum 42) None (FArray [plain_event "share_clicked"]);
   Body (VStr "s3") (VStr "u1") None (FArray [])].

(** A computation that leaves its state as it found it, whether it
    returns or throws. *)
Definition stateless {St A} (c : M St A) : Prop :=
  forall s, snd (c s) = s.

(** The two files and the journal of writes are those of [w]. *)
Definition files_kept (w w' : world) : Prop :=
  events_file w' = events_file w
  /\ stats_file w' = stats_file w
  /\ journal w' = journal w.

(** The dashboard of a log without a line. *)
Definition empty_dashboard (now : string) : dashboard :=
  Dashboard 0 0 0 ∅ 0 (Fin 0) (toFixed 2 (Fin 0)) now.

(** A log with a damaged line before three good records. *)
Definition damaged_head_log : list line :=
  Junk "{oops" :: map Row mixed_ids.

(** The character of a decimal digit, as [ToString] writes it. *)
Definition digit_char (d : Z) : ascii := pretty_N_char (Z.to_N d).

Definition is_digit (d : Z) : Prop := 0 <= d < 10.

(** The event is counted under [name] in [eventsByType]. *)
Definition counted_as (name : string) (e : event) : bool :=
  String.eqb (ToString (event_name e)) name.

(** Every calculation event of the sessions carries a [properties]
    object. *)
Definition calculations_carry_properties (ss : list session) : Prop :=
  forall s e, In s ss -> In e (events s) ->
              is_event "calculation_performed" e = true -> properties e <> None.

(** Some calculation event of the sessions has no [properties]. *)
Definition has_bare_calculation (ss : list session) : Prop :=
  exists s e, In s ss /\ In e (events s)
              /\ is_event "calculation_performed" e = true
              /\ properties e = None.

Definition bare_calculation : event :=
  Event (VStr "calculation_performed") None VUndef VUndef.

(** A number that is neither NaN nor infinite. *)
Definition finite (x : number) : Prop := exists q, x = Fin q.

(** The ratios whose denominator the analyzer guards, or cannot be
    zero, are finite when printed. *)
Definition ratio_finite (l : report_line) : Prop :=
  match l with
  | ConversionRate (toFixed _ x)
  | CalculationsPerSession (toFixed _ x)
  | EventsPerSession (toFixed _ x) => finite x
  | _ => True
  end.

(** Every line that [c] prints satisfies [P]. *)
Definition emits {A} (P : report_line -> Prop) (c : M (list report_line) A)
  : Prop :=
  forall out, Forall P out -> Forall P (snd (c out)).

(* ===================================================================== *)
(** * The analyzer's [formatNumber]                                       *)
(* ===================================================================== *)

(** [\d] and [\w] of a regular expression without the unicode flag. *)
Definition is_decimal (c : ascii) : bool :=
  let n := nat_of_ascii c in ((48 <=? n) && (n <=? 57))%nat.

Definition is_word (c : ascii) : bool :=
  let n := nat_of_ascii c in
  (((48 <=? n) && (n <=? 57)) || ((65 <=? n) && (n <=? 90))
   || ((97 <=? n) && (n <=? 122)) || (n =? 95))%nat.

(** The number of decimal digits that [cs] starts with. *)
Fixpoint digit_run (cs : list ascii) : nat :=
  match cs with
  | c :: rest => if is_decimal c then S (digit_run rest) else 0
  | [] => 0
  end.

(** [\B(?=(\d{3})+(?!\d))] at the gap between [prev] and [cs]: the gap
    is not a word boundary, and [cs] starts with a run of digits whose
    length is a positive multiple of three. *)
Definition gap_matches (prev : option ascii) (cs : list ascii) : bool :=
  let word_before := match prev with Some p => is_word p | None => false end in
  let word_after := match cs with c :: _ => is_word c | [] => false end in
  Bool.eqb word_before word_after
  && (0 <? digit_run cs)%nat && (digit_run cs mod 3 =? 0)%nat.

(** [text.replace(/\B(?=(\d{3})+(?!\d))/g, ' ')] on the characters. *)
Fixpoint separate (prev : option ascii) (cs : list ascii) : list ascii :=
  match cs with
  | [] => []
  | c :: rest =>
      (if gap_matches prev cs then [" "%char] else [])
      ++ c :: separate (Some c) rest
  end.

(** [formatNumber(num)] for an integer [num] below 2^53 in absolute
    value, where [num.toString()] writes all the digits of [num]. *)
Definition formatNumber (num : Z) : string :=
  string_of_list_ascii (separate None (chars (pretty num))).

Definition not_space (c : ascii) : bool := negb (Ascii.eqb c " ").

(** The characters of a list of decimal digits. *)
Definition digit_chars (ds : list Z) : list ascii := map digit_char ds.

(** The property names that every object inherits from
    [Object.prototype]: for such a key [m[key] || 0] reads the inherited
    member and not a count, so the counting objects are read as counts
    only for logs that do not use these names. *)
Definition prototype_keys : list string :=
  ["constructor"; "__defineGetter__"; "__defineSetter__"; "hasOwnProperty";
   "__lookupGetter__"; "__lookupSetter__"; "isPrototypeOf";
   "propertyIsEnumerable"; "toString"; "valueOf"; "__proto__";
   "toLocaleString"].

Definition plain_key (k : string) : Prop := ~ In k prototype_keys.

(** No event of the sessions is named like a member of
    [Object.prototype]. *)
Definition plain_names (ss : list session) : Prop :=
  forall s e, In s ss -> In e (events s) ->
              plain_key (ToString (event_name e)).

(* ===================================================================== *)
(** * The analyzer's most active users                                    *)
(* ===================================================================== *)

(** A counting object as the list of its own entries, in the order in
    which the keys were created: [obj[key] = (obj[key] || 0) + 1]. *)
Fixpoint bump_entry (key : string) (entries : list (string * nat))
  : list (string * nat) :=
  match entries with
  | [] => [(key, 1%nat)]
  | (k, n) :: rest =>
      if String.eqb k key then (k, (n + 1)%nat) :: rest
      else (k, n) :: bump_entry key rest
  end.

(** The array index that a key is, when it is the canonical decimal text
    of an integer from 0 to 2^32 - 2. *)
Definition array_index (key : string) : option Z :=
  match parseInt key with
  | Some n =>
      if (String.eqb (pretty n) key && (0 <=? n) && (n <? 4294967295))%bool
      then Some n else None
  | None => None
  end.

Definition is_index (entry : string * nat) : bool :=
  match array_index (fst entry) with Some _ => true | None => false end.

Definition index_of (entry : string * nat) : Z :=
  default 0 (array_index (fst entry)).

Fixpoint insert_by_index (e : string * nat) (sorted : list (string * nat))
  : list (string * nat) :=
  match sorted with
  | [] => [e]
  | y :: rest =>
      if index_of e <=? index_of y then e :: y :: rest
      else y :: insert_by_index e rest
  end.

(** [Object.entries(obj)]: the keys that are array indices first, in
    ascending order, then the other keys in the order of creation. *)
Definition Object_entries (entries : list (string * nat)) : list (string * nat) :=
  fold_right insert_by_index [] (List.filter is_index entries)
  ++ List.filter (fun e => negb (is_index e)) entries.

(** [entries.sort((a, b) => b[1] - a[1])]: by count, largest first; the
    sort is stable, so entries with equal counts keep their order. *)
Fixpoint insert_by_count (e : string * nat) (sorted : list (string * nat))
  : list (string * nat) :=
  match sorted with
  | [] => [e]
  | y :: rest =>
      if (snd e <? snd y)%nat then y :: insert_by_count e rest
      else e :: y :: rest
  end.

Definition sort_by_count (entries : list (string * nat)) : list (string * nat) :=
  fold_right insert_by_count [] entries.

(** The [user_id] that each event of the sessions is given. *)
Definition event_users (sessions : list session) : list value :=
  flat_map (fun s => map (fun _ => user_id s) (events s)) sessions.

(** [userActivity] after the pass over all the events. *)
Definition userActivity (sessions : list session) : list (string * nat) :=
  fold_left (fun acc uid => if truthy uid then bump_entry (ToString uid) acc
                            else acc)
            (event_users sessions) [].

(** The users that the last section lists, best first, with their
    numbers of events: [Object.entries(userActivity).sort(...).slice(0, 5)]. *)
Definition top_users (sessions : list session) : list (string * nat) :=
  take 5 (sort_by_count (Object_entries (userActivity sessions))).

(** The number of events given to a truthy [user_id] that is written
    [key]. *)
Definition events_of_user (key : string) (sessions : list session) : nat :=
  length (List.filter (fun uid => truthy uid && String.eqb (ToString uid) key)
                      (event_users sessions)).

(** No [user_id] of the sessions is written like a member of
    [Object.prototype]. *)
Definition plain_users (sessions : list session) : Prop :=
  forall s, In s sessions -> plain_key (ToString (user_id s)).

(** The numbers among the [user_id]s are below 2^53 in absolute value,
    where [String] writes all the digits of a number. *)
Definition users_written_in_full (sessions : list session) : Prop :=
  forall s z, In s sessions -> user_id s = VNum z -> safe z.

Definition descending (entries : list (string * nat)) : Prop :=
  StronglySorted (fun a b => (snd b <= snd a)%nat) entries.

Definition busy_sessions : list session :=
  [stored (VStr "u1") [plain_event "a"];
   stored (VNum 42) [plain_event "a"; plain_event "b"; plain_event "c"];
   stored (VStr "u2") [plain_event "a"; plain_event "b"];
   stored VUndef [plain_event "a"; plain_event "b"; plain_event "c"; plain_event "d"];
   stored (VStr "42") [plain_event "a"];
   stored (VStr "u1") [plain_event "b"]].

(** The count kept under [key] in a counting object. *)
Fixpoint count_for (key : string) (entries : list (string * nat)) : nat :=
  match entries with
  | [] => 0
  | (k, n) :: rest => if String.eqb k key then n else count_for key rest
  end.

(* ===================================================================== *)
(** * Requests that overlap                                               *)
(* ===================================================================== *)

(** A handler gives the control back at each [await], and another
    request can be served in between.  [POST /api/analytics] awaits the
    append and then, in [updateStats], the reading of the stats file and
    the writing of it.  The three definitions below are the handler cut
    at these points. *)

Section Overlap.

Variable clock : nat -> string.

(** The handler up to the end of [fs.appendFile]: the record appended,
    or [None] when the request is answered before that. *)
Definition post_until_append (disk : faults) (req : body)
  : M world (option session) :=
  try_catch
    (let events := body_events req in
     if negb (field_truthy events) || negb (Array_isArray events)
     then ret None
     else
       match events with
       | FArray items =>
           now <- new_Date clock ;;
           stamped <- mapM (stamp clock) items ;;
           let enrichedData :=
             Session (body_session_id req) (body_user_id req)
                     (body_user_info req) (VStr now) stamped in
           appendFile disk enrichedData ;;
           ret (Some enrichedData)
       | _ => throw (TypeError "events.map is not a function")
       end)
    (fun _ => ret None).

(** [updateStats] up to the end of [fs.readFile]: the text read, or
    [None] when the reading throws. *)
Definition stats_until_read (disk : faults) : M world (option stats_text) :=
  try_catch (statsData <- read_stats disk ;; ret (Some statsData))
            (fun _ => ret None).

(** The rest of [updateStats], from the text that was read. *)
Definition stats_from_read (disk : faults) (data : session)
    (statsData : stats_text) : M world unit :=
  try_catch
    (st <- parse_stats statsData ;;
     let st := Stats (total_sessions st + 1)
                     (total_events st + Z.of_nat (length (events data)))
                     (total_calculations st) (total_shares st) (unique_users st) in
     let st := fold_left count_event (events data) st in
     st <- (if truthy (user_id data)
            then u <- or_type_error "stats.unique_users.includes is not a function"
                        (add_user (user_id data) (unique_users st)) ;;
                 ret (Stats (total_sessions st) (total_events st)
                            (total_calculations st) (total_shares st) u)
            else ret st) ;;
     write_stats disk st)
    (fun _ => ret tt).


(** Two requests that overlap: both records are appended before either
    request reads the stats file, and both read it before either writes
    it. *)
Definition post_overlapping (disk : faults) (req1 req2 : body) : M world unit :=
  appended1 <- post_until_append disk req1 ;;
  appended2 <- post_until_append disk req2 ;;
  read1 <- (match appended1 with
            | Some _ => stats_until_read disk
            | None => ret None
            end) ;;
  read2 <- (match appended2 with
            | Some _ => stats_until_read disk
            | None => ret None
            end) ;;
  (match appended1, read1 with
   | Some data, Some statsData => stats_from_read disk data statsData
   | _, _ => ret tt
   end) ;;
  match appended2, read2 with
  | Some data, Some statsData => stats_from_read disk data statsData
  | _, _ => ret tt
  end.

End Overlap.

(** Two accepted batches, the first with a calculation. *)
Definition first_batch : body :=
  Body (VStr "s1") (VStr "u1") None
       (FArray [plain_event "app_opened"; calculation [("price", VNum 100)]]).
Definition second_batch : body :=
  Body (VStr "s2") (VStr "u2") None (FArray [plain_event "share_clicked"]).

(* ===================================================================== *)
(** * The run-time notions on small inputs                                *)
(* ===================================================================== *)

Example StringToNumber_forms :
  StringToNumber "42" = Fin 42%Q
  /\ StringToNumber " 4.2e1 " = Fin 42%Q
  /\ StringToNumber "0x2A" = Fin 42%Q
  /\ StringToNumber "" = Fin 0%Q
  /\ StringToNumber "42px" = NaN
  /\ StringToNumber "-Infinity" = Inf true
  /\ StringToNumber ".5" = Fin (1 # 2).
Proof. repeat split; reflexivity. Qed.

(** Texts are read into the nearest double. *)
Example StringToNumber_rounds :
  StringToNumber "9007199254740993" = Fin 9007199254740992%Q
  /\ StringToNumber "42.00000000000000000001" = Fin 42%Q
  /\ StringToNumber "1e400" = Inf false
  /\ StringToNumber "1e-400" = Fin 0%Q
  /\ StringToNumber "0.1" = Fin (3602879701896397 # 36028797018963968)
  /\ loose_eq (VNum 9007199254740992) (VStr "9007199254740993") = true.
Proof. repeat split; vm_compute; reflexivity. Qed.

(** The white space that [parseInt], [Number] and [trim] take off is
    that of Unicode. *)
Example white_space_forms :
  parseInt (nbsp +:+ "2") = Some 2
  /\ parseInt (bom +:+ " 7px") = Some 7
  /\ StringToNumber (nbsp +:+ "42" +:+ bom) = Fin 42%Q
  /\ blank (Junk (nbsp +:+ " ")) = true
  /\ blank (Junk "{oops") = false.
Proof. repeat split; vm_compute; reflexivity. Qed.

Example parseInt_forms :
  parseInt "25" = Some 25 /\ parseInt " 12px" = Some 12
  /\ parseInt "0x1f" = Some 31 /\ parseInt "-0" = Some 0
  /\ parseInt "abc" = None /\ parseInt "" = None
  /\ parseInt (ToString VUndef) = None.
Proof. repeat split; reflexivity. Qed.

Example loose_eq_forms :
  loose_eq (VNum 42) (VStr "42") = true
  /\ loose_eq (VStr "42") (VNum 42) = true
  /\ loose_eq (VNum 42) (VStr "42.0") = true
  /\ loose_eq (VStr "42") (VStr "42.0") = false
  /\ loose_eq (VBool true) (VStr "1") = true
  /\ loose_eq VNull VUndef = true
  /\ loose_eq VNull (VStr "null") = false
  /\ loose_eq VUndef (VStr "undefined") = false.
Proof. repeat split; reflexivity. Qed.

Example includes_is_strict :
  includes [VNum 42] (VStr "42") = false /\ includes [VNum 42] (VNum 42) = true.
Proof. split; reflexivity. Qed.

Example slice_forms :
  slice [1; 2; 3; 4; 5] (-2) = [4; 5]
  /\ slice [1; 2; 3; 4; 5] (-100) = [1; 2; 3; 4; 5]
  /\ slice [1; 2; 3; 4; 5] 2 = [3; 4; 5].
Proof. repeat split; reflexivity. Qed.

Example division_forms :
  div (of_nat 1) (of_nat 0) = Inf false
  /\ div (of_nat 0) (of_nat 0) = NaN
  /\ mul (div (of_nat 1) (of_nat 4)) (of_nat 100) = Fin 25%Q
  /\ Math_round (div (of_nat 5) (of_nat 2)) = Fin 3%Q
  /\ Math_min [of_nat 3; of_nat 2; of_nat 5] = Fin 2%Q
  /\ Math_max [of_nat 3; NaN] = NaN.
Proof. repeat split; reflexivity. Qed.

(** A string among the summands turns the sum into a concatenation. *)
Example add_forms :
  fold_left add [VNum 5; VBool true; VNum 2] (ANum 0) = ANum 8
  /\ fold_left add [VNum 100; VStr "7"] (ANum 0) = AStr "1007"
  /\ mean [VNum 100; VStr "7"] = Fin (1007 # 2).
Proof. repeat split; reflexivity. Qed.

(** Beyond 2^53 a sum is the double nearest to it, and an infinity from
    2^1024 on. *)
Example add_rounds :
  fold_left add [VNum 9007199254740992; VNum 1] (ANum 0)
    = ANum 9007199254740992
  /\ fold_left add [VNum (2 ^ 1023); VNum (2 ^ 1023)] (ANum 0) = AInf false.
Proof. split; vm_compute; reflexivity. Qed.

(** [init] on an empty data directory: an empty log, and stats whose
    [unique_users] has been written as an object. *)
Example init_on_empty_disk :
  events_file fresh_store = Some []
  /\ persisted_stats fresh_store = Some (Stats 0 0 0 0 UObject).
Proof. split; reflexivity. Qed.

(** An anonymous batch on the fresh store: the record is appended, then
    the stats are written. *)
Example anonymous_batch_on_fresh_store :
  let req := Body (VStr "s1") VUndef None (FArray [plain_event "app_opened"]) in
  let run := post_analytics sample_clock healthy req fresh_store in
  fst run = Return (Response 200 (PReceived true 1))
  /\ new_writes fresh_store (snd run)
     = [Appended (enriched sample_clock 0 req [plain_event "app_opened"]);
        StatsWritten (Stats 1 1 0 0 UObject)].
Proof. split; reflexivity. Qed.

(** The same batch on a disk that refuses the append. *)
Example batch_on_read_only_disk :
  let req := Body (VStr "s1") VUndef None (FArray [plain_event "app_opened"]) in
  let run := post_analytics sample_clock (Faults true false false) req fresh_store in
  fst run = Return (Response 500 (PError "Internal server error"))
  /\ new_writes fresh_store (snd run) = []
  /\ stats_file (snd run) = stats_file fresh_store.
Proof. repeat split; reflexivity. Qed.

(** Two calls on a store that lists its users: the known user is not
    added again, the new one is appended. *)
Example update_all_on_listed_store :
  option_map unique_users
    (persisted_stats
       (update_all [(healthy, stored (VStr "u1") []); (healthy, stored (VNum 42) [])]
                   listed_store))
  = Some (UArray [VStr "u1"; VNum 42]).
Proof. reflexivity. Qed.

(* ===================================================================== *)
(** * Properties of the ingestion path                                    *)
(* ===================================================================== *)

Section Ingestion.

Variable clock : nat -> string.

Lemma stamped_length n items : length (stamped clock n items) = length items.
Proof. revert n; induction items as [|e rest IH]; intros n; simpl; auto. Qed.

Lemma mapM_stamp items w :
  mapM (stamp clock) items w
  = (Return (stamped clock (ticks w) items), advance (length items) w).
Proof.
  revert w; induction items as [|e rest IH]; intros w.
  - destruct w; unfold advance; simpl. unfold ret. do 3 f_equal. lia.
  - cbn [mapM stamped]. unfold bind at 1. unfold stamp at 1.
    unfold bind at 1. unfold new_Date at 1. cbn.
    unfold bind at 1. rewrite IH. cbn. unfold advance; cbn.
    do 3 f_equal. lia.
Qed.

(** [updateStats] swallows every exception; it writes the stats file
    when the file could be read and decoded, the user block did not
    throw and the disk takes the write. *)
Lemma updateStats_eq disk data w :
  updateStats disk data w
  = (Return tt,
     if stats_read_fails disk then w
     else match stats_file w with
          | Some (Json st) =>
              match updated_stats data st with
              | Some st' => if stats_write_fails disk then w else with_stats st' w
              | None => w
              end
          | _ => w
          end).
Proof.
  unfold updateStats, try_catch, bind, read_stats.
  destruct (stats_read_fails disk); [reflexivity|].
  destruct (stats_file w) as [[|st]|]; try reflexivity.
  unfold parse_stats, ret, updated_stats.
  destruct (truthy (user_id data)).
  - unfold bind. destruct (add_user _ _); [|reflexivity].
    cbn. unfold write_stats. destruct (stats_write_fails disk); reflexivity.
  - unfold write_stats. destruct (stats_write_fails disk); reflexivity.
Qed.

Lemma updateStats_returns disk data w :
  fst (updateStats disk data w) = Return tt.
Proof. rewrite updateStats_eq. reflexivity. Qed.

(** What [post_analytics] does with a body whose [events] is an array. *)
Lemma post_analytics_array disk req items w :
  body_events req = FArray items ->
  post_analytics clock disk req w
  = if append_fails disk
    then (Return (Response 500 (PError "Internal server error")),
          advance (S (length items)) w)
    else (Return (Response 200 (PReceived true (length items))),
          snd (updateStats disk (enriched clock (ticks w) req items)
                 (with_row (enriched clock (ticks w) req items)
                    (advance (S (length items)) w)))).
Proof.
  intros Hev. unfold post_analytics, try_catch. rewrite Hev. cbn [field_truthy Array_isArray negb orb].
  unfold bind at 1. unfold new_Date at 1. cbn [ticks events_file stats_file journal].
  unfold bind at 1. rewrite mapM_stamp. cbn [ticks events_file stats_file journal].
  unfold bind at 1. unfold appendFile.
  assert (Hadv : advance (length items)
                   (World (events_file w) (stats_file w) (S (ticks w)) (journal w))
                 = advance (S (length items)) w).
  { unfold advance; cbn. f_equal. lia. }
  rewrite Hadv.
  destruct (append_fails disk); [reflexivity|].
  unfold modify. unfold bind at 1. unfold enriched, with_row.
  match goal with
  | |- context [updateStats ?d ?x ?y] =>
      pose proof (updateStats_returns d x y) as Hr;
      destruct (updateStats d x y) as [r w']
  end.
  cbn in Hr. subst r. reflexivity.
Qed.

End Ingestion.

Section IngestionClaims.

Variable clock : nat -> string.

Lemma updateStats_cases disk data w :
  let w' := snd (updateStats disk data w) in
  events_file w' = events_file w /\ ticks w' = ticks w
  /\ ((stats_file w' = stats_file w /\ journal w' = journal w)
      \/ exists st, stats_file w' = Some (Json st)
                    /\ journal w' = journal w ++ [StatsWritten st]).
Proof.
  cbv zeta. rewrite updateStats_eq. cbn [snd].
  destruct (stats_read_fails disk); [auto|].
  destruct (stats_file w) as [[|st]|] eqn:Hfile; [auto| |auto].
  destruct (updated_stats data st) as [st'|]; [|auto].
  destruct (stats_write_fails disk); [auto|].
  unfold with_stats; cbn. eauto 6.
Qed.

Lemma post_analytics_not_array disk req w :
  Array_isArray (body_events req) = false ->
  post_analytics clock disk req w
  = (Return (Response 400 (PError "Invalid events data")), w).
Proof.
  intros H. unfold post_analytics, try_catch.
  rewrite H. cbn [negb]. rewrite orb_true_r. reflexivity.
Qed.

(** C4: a body whose [events] field is absent or is not an array is
    answered with status 400 and the error "Invalid events data", and the
    state of the disk (event log and stats file) is the one before the
    request. *)
Theorem invalid_events_rejected disk req w :
  Array_isArray (body_events req) = false ->
  post_analytics clock disk req w
  = (Return (Response 400 (PError "Invalid events data")), w).
Proof. apply post_analytics_not_array. Qed.

(** C10: a body whose [events] field is the empty array is accepted on a
    disk that takes the append: the answer is success with
    [events_received = 0], and the log has grown by exactly one record,
    which embeds no event. *)
Theorem empty_batch_accepted disk req w :
  body_events req = FArray [] ->
  append_fails disk = false ->
  let w' := snd (post_analytics clock disk req w) in
  fst (post_analytics clock disk req w)
    = Return (Response 200 (PReceived true 0))
  /\ events (enriched clock (ticks w) req []) = []
  /\ events_file w'
     = Some (default [] (events_file w) ++ [Row (enriched clock (ticks w) req [])]).
Proof.
  intros Hev Hdisk w'. subst w'.
  rewrite (post_analytics_array clock disk req [] w Hev), Hdisk.
  cbn [fst snd length].
  repeat split.
  destruct (updateStats_cases disk (enriched clock (ticks w) req [])
              (with_row (enriched clock (ticks w) req []) (advance 1 w)))
    as (Hfile & _ & _).
  rewrite Hfile. reflexivity.
Qed.

(** C8: the stats file is written for a batch only after the record of
    that batch has been appended to the log; when the append fails, the
    request writes nothing and the stats file is the one before. *)
Theorem stats_written_only_after_append disk req w :
  let w' := snd (post_analytics clock disk req w) in
  (append_fails disk = true ->
     stats_file w' = stats_file w /\ new_writes w w' = [])
  /\ (forall st, In (StatsWritten st) (new_writes w w') ->
        exists data,
          append_fails disk = false
          /\ journal w' = journal w ++ [Appended data; StatsWritten st]
          /\ events_file w' = Some (default [] (events_file w) ++ [Row data])).
Proof.
  intros w'. subst w'. unfold new_writes.
  destruct (body_events req) as [v| |items] eqn:Hev.
  1,2: rewrite post_analytics_not_array by (rewrite Hev; reflexivity);
       cbn [snd]; rewrite drop_all; split; [auto | intros st []].
  rewrite (post_analytics_array clock disk req items w Hev).
  destruct (append_fails disk) eqn:Hdisk; cbn [snd].
  - unfold advance; cbn. rewrite drop_all. split; [auto | intros st []].
  - split; [discriminate|].
    set (data := enriched clock (ticks w) req items).
    destruct (updateStats_cases disk data (with_row data (advance (S (length items)) w)))
      as (Hfile & _ & [[Hstats Hj] | (st' & Hstats & Hj)]);
      rewrite Hj; cbn [with_row advance journal];
      intros st Hin.
    + rewrite drop_app_length in Hin. destruct Hin as [Hin|[]]; discriminate.
    + rewrite <- app_assoc, drop_app_length in Hin. cbn in Hin.
      destruct Hin as [Hin|[Hin|[]]]; [discriminate|]. injection Hin as ->.
      exists data. rewrite <- app_assoc. repeat split.
      rewrite Hfile. reflexivity.
Qed.

End IngestionClaims.

Lemma invalid_events_rejected_witness :
  post_analytics sample_clock healthy batch_without_events fresh_store
  = (Return (Response 400 (PError "Invalid events data")), fresh_store).
Proof. apply invalid_events_rejected. reflexivity. Defined.

Lemma empty_batch_accepted_witness :
  fst (post_analytics sample_clock healthy empty_batch fresh_store)
    = Return (Response 200 (PReceived true 0))
  /\ events (enriched sample_clock 0 empty_batch []) = []
  /\ events_file (snd (post_analytics sample_clock healthy empty_batch fresh_store))
     = Some ([] ++ [Row (enriched sample_clock 0 empty_batch [])]).
Proof.
  apply (empty_batch_accepted sample_clock healthy empty_batch fresh_store);
    reflexivity.
Defined.

(* ===================================================================== *)
(** * The stats against the log                                           *)
(* ===================================================================== *)

Section StatsClaims.

Variable clock : nat -> string.

Lemma count_event_keeps st e :
  total_sessions (count_event st e) = total_sessions st
  /\ total_events (count_event st e) = total_events st
  /\ unique_users (count_event st e) = unique_users st.
Proof.
  unfold count_event.
  destruct (strict_eq (event_name e) (VStr "calculation_performed"));
    destruct (strict_eq (event_name e) (VStr "share_clicked")); auto.
Qed.

Lemma fold_count_event_keeps evs st :
  total_sessions (fold_left count_event evs st) = total_sessions st
  /\ total_events (fold_left count_event evs st) = total_events st
  /\ unique_users (fold_left count_event evs st) = unique_users st.
Proof.
  revert st; induction evs as [|e evs IH]; intros st; cbn; auto.
  destruct (IH (count_event st e)) as (H1 & H2 & H3).
  destruct (count_event_keeps st e) as (K1 & K2 & K3).
  rewrite H1, H2, H3, K1, K2, K3. auto.
Qed.

Lemma includes_elem_of members uid : includes members uid = true <-> uid ∈ members.
Proof.
  unfold includes, strict_eq. rewrite existsb_exists, list_elem_of_In. split.
  - intros (x & Hin & Hx). apply bool_decide_eq_true in Hx. now subst.
  - intros Hin. exists uid. split; [assumption|]. now apply bool_decide_eq_true.
Qed.

Lemma add_user_distinct uid u u' :
  users_distinct u -> add_user uid u = Some u' -> users_distinct u'.
Proof.
  unfold add_user. intros Hd H.
  destruct u as [| |members|members]; cbn in H; try discriminate.
  - injection H as <-. cbn. apply NoDup_singleton.
  - destruct (includes members uid) eqn:Hinc; injection H as <-; cbn in *; auto.
    apply NoDup_app. repeat split; auto using NoDup_singleton.
    intros x Hx Hx'. apply list_elem_of_singleton in Hx'. subst x.
    apply includes_elem_of in Hx. congruence.
Qed.

Lemma add_user_present uid members :
  uid ∈ members -> add_user uid (UArray members) = Some (UArray members).
Proof.
  intros Hin. unfold add_user. apply includes_elem_of in Hin. now rewrite Hin.
Qed.

Lemma json_users_distinct u : users_distinct u -> users_distinct (json_users u).
Proof. destruct u; cbn; auto. Qed.

Lemma updated_stats_distinct data st st' :
  users_distinct (unique_users st) -> updated_stats data st = Some st' ->
  users_distinct (unique_users st').
Proof.
  unfold updated_stats. intros Hd H.
  set (st1 := fold_left count_event _ _) in H.
  assert (Hu : unique_users st1 = unique_users st).
  { subst st1. destruct (fold_count_event_keeps (events data)
      (Stats (total_sessions st + 1)
             (total_events st + Z.of_nat (length (events data)))
             (total_calculations st) (total_shares st) (unique_users st)))
      as (_ & _ & ->). reflexivity. }
  destruct (truthy (user_id data)).
  - destruct (add_user _ _) as [u|] eqn:Hadd; [|discriminate].
    injection H as <-. cbn. rewrite Hu in Hadd. eauto using add_user_distinct.
  - injection H as <-. now rewrite Hu.
Qed.

Lemma updateStats_distinct disk data w :
  persisted_users_distinct w ->
  persisted_users_distinct (snd (updateStats disk data w)).
Proof.
  intros Hd. rewrite updateStats_eq. cbn [snd].
  destruct (stats_read_fails disk); [assumption|].
  destruct (stats_file w) as [[|st]|] eqn:Hfile; try assumption.
  destruct (updated_stats data st) as [st'|] eqn:Hup; [|assumption].
  destruct (stats_write_fails disk); [assumption|].
  unfold persisted_users_distinct, persisted_stats in *. rewrite Hfile in Hd.
  cbn. apply json_users_distinct. eauto using updated_stats_distinct.
Qed.

(** C6: no number of [updateStats] calls, each reading the stats file
    back from the disk, puts a user twice into [unique_users]; and a
    call for a user that the persisted array already holds leaves the
    array as it is. *)
Theorem unique_users_never_duplicated calls w :
  persisted_users_distinct w ->
  persisted_users_distinct (update_all calls w)
  /\ (forall disk data st members,
        persisted_stats w = Some st ->
        unique_users st = UArray members ->
        user_id data ∈ members ->
        exists st', persisted_stats (snd (updateStats disk data w)) = Some st'
                    /\ unique_users st' = UArray members).
Proof.
  intros Hd. split.
  - revert w Hd. induction calls as [|[disk data] rest IH]; intros w Hd; cbn.
    + assumption.
    + apply IH. now apply updateStats_distinct.
  - intros disk data st members Hst Hu Hin.
    rewrite updateStats_eq. cbn [snd].
    assert (Hfile : stats_file w = Some (Json st)).
    { unfold persisted_stats in Hst.
      destruct (stats_file w) as [[|st0]|]; congruence. }
    destruct (stats_read_fails disk); [eauto|].
    rewrite Hfile.
    destruct (updated_stats data st) as [st'|] eqn:Hup; [|eauto].
    destruct (stats_write_fails disk); [eauto|].
    exists (json_stats st'). split; [reflexivity|].
    unfold updated_stats in Hup.
    set (st1 := fold_left count_event _ _) in Hup.
    assert (Hu1 : unique_users st1 = UArray members).
    { subst st1. destruct (fold_count_event_keeps (events data)
        (Stats (total_sessions st + 1)
               (total_events st + Z.of_nat (length (events data)))
               (total_calculations st) (total_shares st) (unique_users st)))
        as (_ & _ & ->). exact Hu. }
    destruct (truthy (user_id data)).
    + rewrite Hu1, (add_user_present _ _ Hin) in Hup. injection Hup as <-.
      reflexivity.
    + injection Hup as <-. cbn. now rewrite Hu1.
Qed.

(** On a healthy disk, an accepted batch keeps [total_events] equal to
    the number of logged events as soon as the user block of
    [updateStats] cannot throw: the batch is anonymous, or the persisted
    [unique_users] is an array (or absent). *)
Lemma logged_events_with_row data w :
  logged_events (with_row data w)
  = logged_events w + Z.of_nat (length (events data)).
Proof.
  unfold logged_events, with_row, rows; cbn.
  rewrite omap_app, flat_map_app, length_app. cbn. rewrite app_nil_r. lia.
Qed.

Lemma add_user_listed uid u :
  listed u -> exists l, add_user uid u = Some (UArray l).
Proof.
  unfold add_user. intros [-> | [l ->]]; cbn.
  - eauto.
  - destruct (includes l uid); eauto.
Qed.

Lemma accepted_batch_step req items w st :
  body_events req = FArray items ->
  persisted_stats w = Some st ->
  listed (unique_users st) \/ truthy (body_user_id req) = false ->
  exists st',
    persisted_stats (snd (post_analytics clock healthy req w)) = Some st'
    /\ total_events st' = total_events st + Z.of_nat (length items)
    /\ logged_events (snd (post_analytics clock healthy req w))
       = logged_events w + Z.of_nat (length items)
    /\ (listed (unique_users st) -> listed (unique_users st')).
Proof.
  intros Hev Hst Hok.
  rewrite (post_analytics_array clock healthy req items w Hev).
  cbn [healthy append_fails snd].
  rewrite updateStats_eq. cbn [healthy stats_read_fails stats_write_fails snd].
  set (data := enriched clock (ticks w) req items).
  assert (Hfile : stats_file w = Some (Json st)).
  { unfold persisted_stats in Hst. destruct (stats_file w) as [[|st0]|]; congruence. }
  cbn [with_row advance stats_file]. rewrite Hfile.
  assert (Hlen : length (events data) = length items).
  { subst data. cbn. apply stamped_length. }
  assert (Huid : user_id data = body_user_id req) by reflexivity.
  clearbody data.
  assert (Hup : exists st', updated_stats data st = Some st'
            /\ total_events st' = total_events st + Z.of_nat (length items)
            /\ (listed (unique_users st) -> listed (unique_users st'))).
  { unfold updated_stats.
    destruct (fold_count_event_keeps (events data)
        (Stats (total_sessions st + 1)
               (total_events st + Z.of_nat (length (events data)))
               (total_calculations st) (total_shares st) (unique_users st)))
        as (_ & Hte & Hu). cbn [total_events unique_users] in Hte, Hu.
    destruct (truthy (user_id data)) eqn:Htruthy.
    - destruct Hok as [Hl | Hanon]; [|rewrite Huid in Htruthy; congruence].
      rewrite Hu. destruct (add_user_listed (user_id data) _ Hl) as [l ->].
      eexists; repeat split.
      + cbn. rewrite Hte, Hlen. reflexivity.
      + intros _. right. eauto.
    - eexists; repeat split.
      + rewrite Hte, Hlen. reflexivity.
      + now rewrite Hu. }
  destruct Hup as (st' & -> & Hte & Hl).
  exists (json_stats st'). repeat split.
  - cbn. exact Hte.
  - change (logged_events (with_stats st' ?x)) with (logged_events x).
    change (World _ _ _ _)
      with (with_row data (advance (S (length items)) w)).
    rewrite logged_events_with_row, Hlen. reflexivity.
  - intros H. specialize (Hl H). cbn.
    destruct Hl as [-> | [l ->]]; [left | right; eauto]; reflexivity.
Qed.

Lemma total_events_kept req items w :
  body_events req = FArray items ->
  totals_agree w ->
  users_listed w \/ truthy (body_user_id req) = false ->
  totals_agree (snd (post_analytics clock healthy req w)).
Proof.
  intros Hev Hagree Hok. unfold totals_agree in *.
  destruct (persisted_stats w) as [st|] eqn:Hst; [|discriminate].
  injection Hagree as Hagree.
  destruct (accepted_batch_step req items w st Hev Hst) as (st' & -> & Hte & Hlog & _).
  { destruct Hok as [(st0 & Hst0 & Hl) | Hanon]; [left | now right].
    congruence. }
  cbn. f_equal. lia.
Qed.

(** Stats replay: from a store whose [unique_users] is an array (or
    absent) and whose totals agree, any series of accepted batches on a
    healthy disk keeps [total_events] equal to the number of logged
    events. *)
Lemma total_events_follows_log (batches : list body) w :
  Forall (fun req => Array_isArray (body_events req) = true) batches ->
  users_listed w -> totals_agree w ->
  totals_agree (post_all clock (map (pair healthy) batches) w).
Proof.
  intros Hall. revert w.
  induction Hall as [|req batches Hreq Hall IH]; intros w Hl Hagree; [assumption|].
  cbn [map post_all].
  destruct (body_events req) as [| |items] eqn:Hev; try discriminate.
  apply IH.
  - destruct Hl as (st & Hst & Hl).
    destruct (accepted_batch_step req items w st Hev Hst (or_introl Hl))
      as (st' & Hst' & _ & _ & Hl').
    exists st'. auto.
  - apply (total_events_kept req items); auto.
Qed.

End StatsClaims.

Lemma unique_users_never_duplicated_witness :
  persisted_users_distinct
    (update_all [(healthy, stored (VStr "u1") []); (healthy, stored (VNum 42) [])]
                listed_store)
  /\ (forall disk data st members,
        persisted_stats listed_store = Some st ->
        unique_users st = UArray members ->
        user_id data ∈ members ->
        exists st', persisted_stats (snd (updateStats disk data listed_store)) = Some st'
                    /\ unique_users st' = UArray members).
Proof.
  apply (unique_users_never_duplicated
           [(healthy, stored (VStr "u1") []); (healthy, stored (VNum 42) [])]
           listed_store).
  vm_compute. apply NoDup_singleton.
Defined.

(** C1 (the code departs from the claim): on a freshly initialized
    store, a batch that names its user is accepted and logged, but
    [updateStats] throws on the [unique_users] written by [init] before
    it writes; the log then holds one event while the persisted
    [total_events] is still 0. *)
Theorem fresh_store_total_events_lags :
  let run := post_analytics sample_clock healthy identified_batch fresh_store in
  fst run = Return (Response 200 (PReceived true 1))
  /\ logged_events (snd run) = 1
  /\ option_map total_events (persisted_stats (snd run)) = Some 0
  /\ option_map unique_users (persisted_stats fresh_store) = Some UObject.
Proof. vm_compute. repeat split. Qed.

(* ===================================================================== *)
(** * Scanning the log                                                    *)
(* ===================================================================== *)

Section Scans.

Context {St : Type}.

Lemma drop_while_head {A} (p : A -> bool) l :
  match l with x :: _ => p x = false | [] => True end -> drop_while p l = l.
Proof. destruct l as [|x l]; cbn; [reflexivity|]. now intros ->. Qed.

Lemma drop_while_keeps {A} (p : A -> bool) x l :
  In x l -> p x = false -> In x (drop_while p l).
Proof.
  intros Hin Hp. induction l as [|y l IH]; [destruct Hin|].
  cbn. destruct (p y) eqn:Hy; [|assumption].
  destruct Hin as [->|Hin]; [congruence | auto].
Qed.

Lemma trim_lines_rows ss : trim_lines (map Row ss) = map Row ss.
Proof.
  unfold trim_lines.
  rewrite (drop_while_head blank (map Row ss)) by (destruct ss; cbn; auto).
  rewrite <- map_rev.
  rewrite (drop_while_head blank (map Row (rev ss)))
    by (destruct (rev ss); cbn; auto).
  now rewrite map_rev, rev_involutive.
Qed.

Lemma split_lines_rows ss : split_lines (map Row ss) = map Row ss.
Proof.
  unfold split_lines. rewrite trim_lines_rows.
  induction ss as [|s ss IH]; cbn; [reflexivity|]. now rewrite IH.
Qed.

Lemma split_lines_junk data :
  has_junk data -> exists text, In (Junk text) (split_lines data).
Proof.
  intros (text & Hin & Hblank). exists text.
  unfold split_lines, trim_lines. apply filter_In. split.
  - apply in_rev. rewrite rev_involutive.
    apply drop_while_keeps; [|assumption].
    apply in_rev. rewrite rev_involutive.
    now apply drop_while_keeps.
  - destruct text; [discriminate | reflexivity].
Qed.

Lemma mapM_parse_rows ss (s : St) :
  mapM JSON_parse (map Row ss) s = (Return ss, s).
Proof.
  induction ss as [|x ss IH]; [reflexivity|].
  cbn [map mapM]. unfold bind at 1. cbn [JSON_parse]. unfold ret at 1.
  unfold bind at 1. now rewrite IH.
Qed.

(** One line that does not decode makes the whole pass throw. *)
Lemma mapM_parse_junk lines (s : St) :
  (exists text, In (Junk text) lines) ->
  mapM JSON_parse lines s = (Throw SyntaxError, s).
Proof.
  induction lines as [|l lines IH]; intros (text & Hin); [destruct Hin|].
  cbn [mapM]. unfold bind at 1. destruct l as [x|t]; cbn [JSON_parse].
  - unfold ret at 1. unfold bind at 1. rewrite IH; [reflexivity|].
    destruct Hin as [Hin|Hin]; [discriminate|eauto].
  - reflexivity.
Qed.

End Scans.

(** ** Which lines a scan skips *)

Lemma drop_while_all {A} (p : A -> bool) l1 l2 :
  Forall (fun x => p x = true) l1 -> drop_while p (l1 ++ l2) = drop_while p l2.
Proof.
  induction 1 as [|x l1 Hx _ IH]; [reflexivity|].
  cbn. now rewrite Hx.
Qed.

Lemma drop_while_In {A} (p : A -> bool) x l : In x (drop_while p l) -> In x l.
Proof.
  induction l as [|y l IH]; [auto|].
  cbn. destruct (p y); [right; auto | auto].
Qed.

Lemma drop_while_some {A} (p : A -> bool) pre rest :
  Exists (fun x => p x = false) pre ->
  exists pre', drop_while p (pre ++ rest) = pre' ++ rest.
Proof.
  induction pre as [|y pre IH]; intros Hex.
  - inversion Hex.
  - cbn. destruct (p y) eqn:Hy.
    + apply IH. inversion Hex as [? ? Hf|]; subst; [congruence|assumption].
    + now exists (y :: pre).
Qed.

(** A list cut where its first element outside [p] stands. *)
Lemma span_while {A} (p : A -> bool) l :
  exists lead rest,
    l = lead ++ rest
    /\ Forall (fun x => p x = true) lead
    /\ match rest with x :: _ => p x = false | [] => True end.
Proof.
  induction l as [|x l (lead & rest & -> & Hlead & Hrest)].
  - exists [], []. repeat split; constructor.
  - destruct (p x) eqn:Hx.
    + exists (x :: lead), rest. repeat split; [now constructor | assumption].
    + exists [], (x :: lead ++ rest). repeat split; [constructor | assumption].
Qed.

Lemma blank_is_junk l : blank l = true -> exists text, l = Junk text.
Proof. destruct l as [s|text]; [discriminate | eauto]. Qed.

Lemma rows_app l1 l2 : rows (l1 ++ l2) = rows l1 ++ rows l2.
Proof. unfold rows. apply omap_app. Qed.

Lemma rows_blank l : Forall (fun x => blank x = true) l -> rows l = [].
Proof.
  induction 1 as [|x l Hx _ IH]; [reflexivity|].
  destruct (blank_is_junk x Hx) as [text ->]. exact IH.
Qed.

Lemma rows_drop_while l : rows (drop_while blank l) = rows l.
Proof.
  induction l as [|x l IH]; [reflexivity|].
  cbn [drop_while]. destruct (blank x) eqn:Hx; [|reflexivity].
  destruct (blank_is_junk x Hx) as [text ->]. exact IH.
Qed.

Lemma rows_rev l : rows (rev l) = rev (rows l).
Proof.
  induction l as [|x l IH]; [reflexivity|].
  cbn [rev]. rewrite rows_app, IH.
  destruct x; [reflexivity | apply app_nil_r].
Qed.

(** A scan drops no record. *)
Lemma rows_split_lines data : rows (split_lines data) = rows data.
Proof.
  unfold split_lines, trim_lines.
  transitivity (rows (rev (drop_while blank (rev (drop_while blank data))))).
  - generalize (rev (drop_while blank (rev (drop_while blank data)))).
    intros l. induction l as [|x l IH]; [reflexivity|].
    cbn [List.filter]. destruct x as [r|text].
    + cbn [nonempty]. change (rows (Row r :: ?t)) with (r :: rows t).
      now rewrite IH.
    + destruct text; cbn [nonempty]; exact IH.
  - rewrite rows_rev, rows_drop_while, rows_rev, rev_involutive.
    apply rows_drop_while.
Qed.

Lemma all_rows l :
  Forall (fun x => exists r, x = Row r) l -> l = map Row (rows l).
Proof.
  induction 1 as [|x l [r ->] _ IH]; [reflexivity|].
  change (rows (Row r :: l)) with (r :: rows l). cbn [map]. now rewrite <- IH.
Qed.

Lemma trim_lines_In x data lead core trail :
  data = lead ++ core ++ trail ->
  Forall (fun l => blank l = true) lead ->
  Forall (fun l => blank l = true) trail ->
  In x (trim_lines data) -> In x core.
Proof.
  intros -> Hlead Htrail Hin. unfold trim_lines in Hin.
  apply in_rev in Hin. rewrite ?rev_involutive in Hin.
  rewrite (drop_while_all blank lead _ Hlead) in Hin.
  destruct (span_while blank core) as (c1 & c2 & -> & Hc1 & Hc2).
  rewrite <- app_assoc, (drop_while_all blank c1 _ Hc1) in Hin.
  destruct c2 as [|y c2].
  - cbn [app] in Hin.
    rewrite <- (app_nil_r trail), (drop_while_all blank trail [] Htrail) in Hin.
    destruct Hin.
  - rewrite (drop_while_head blank ((y :: c2) ++ trail)) in Hin by exact Hc2.
    rewrite rev_app_distr in Hin.
    rewrite (drop_while_all blank (rev trail)) in Hin.
    + apply drop_while_In, in_rev in Hin. rewrite ?rev_involutive in Hin.
      apply in_or_app. now right.
    + apply Forall_forall. intros z Hz.
      apply list_elem_of_In, in_rev, list_elem_of_In in Hz.
      rewrite Forall_forall in Htrail. now apply Htrail.
Qed.

(** On a clean log the scan reads the records, all of them. *)
Lemma split_lines_clean data :
  scan_clean data -> split_lines data = map Row (rows data).
Proof.
  intros (lead & core & trail & Hdata & Hlead & Htrail & Hcore).
  rewrite <- rows_split_lines. apply all_rows.
  apply Forall_forall. intros x Hx. apply list_elem_of_In in Hx.
  unfold split_lines in Hx. apply filter_In in Hx. destruct Hx as [Hx Hne].
  apply (trim_lines_In x data lead core trail Hdata Hlead Htrail) in Hx.
  rewrite Forall_forall in Hcore. apply list_elem_of_In, Hcore in Hx.
  destruct Hx as [-> | ?]; [discriminate | assumption].
Qed.

Lemma readable_or_not core :
  Forall (fun l => l = Junk "" \/ exists s, l = Row s) core
  \/ exists c1 text c2, core = c1 ++ Junk text :: c2 /\ text <> "".
Proof.
  induction core as [|l core [IH | (c1 & text & c2 & -> & Hne)]].
  - left. constructor.
  - destruct l as [r|text].
    + left. constructor; [right; eauto | assumption].
    + destruct (decide (text = "")) as [->|Hne].
      * left. constructor; [now left | assumption].
      * right. exists [], text, core. split; [reflexivity | assumption].
  - right. exists (l :: c1), text, c2. split; [reflexivity | assumption].
Qed.

(** Every log is of one kind or the other. *)
Lemma scan_cases data : has_undecodable data \/ scan_clean data.
Proof.
  destruct (span_while blank data) as (lead & rest & -> & Hlead & Hrest).
  destruct (span_while blank (rev rest)) as (tr & mid & Hrev & Htr & Hmid).
  assert (Hrest_eq : rest = rev mid ++ rev tr).
  { now rewrite <- rev_app_distr, <- Hrev, rev_involutive. }
  assert (Htrail : Forall (fun l => blank l = true) (rev tr)).
  { apply Forall_forall. intros z Hz.
    apply list_elem_of_In, in_rev, list_elem_of_In in Hz.
    rewrite Forall_forall in Htr. now apply Htr. }
  destruct (readable_or_not (rev mid)) as [Hgood | (c1 & text & c2 & Hcore & Hne)].
  - right. exists lead, (rev mid), (rev tr). now rewrite <- Hrest_eq.
  - left. exists (lead ++ c1), text, (c2 ++ rev tr).
    split; [now rewrite Hrest_eq, Hcore, <- !app_assoc|].
    destruct (blank (Junk text)) eqn:Hblank; [right | now left].
    split; [assumption|]. split.
    + apply Exists_app. right.
      destruct c1 as [|y c1].
      * rewrite Hrest_eq, Hcore in Hrest. cbn [app] in Hrest. congruence.
      * rewrite Hrest_eq, Hcore in Hrest. cbn [app] in Hrest.
        now apply Exists_cons_hd.
    + apply Exists_app. left.
      assert (Hmid_eq : mid = rev c2 ++ Junk text :: rev c1).
      { rewrite <- (rev_involutive mid), Hcore, rev_app_distr. cbn [rev].
        now rewrite <- app_assoc. }
      destruct (rev c2) as [|z c2'] eqn:Hc2.
      * rewrite Hmid_eq in Hmid. cbn [app] in Hmid. congruence.
      * rewrite Hmid_eq in Hmid. cbn [app] in Hmid.
        apply Exists_exists. exists z. split; [|assumption].
        apply list_elem_of_In, in_rev. rewrite Hc2. now left.
Qed.

(** A line that is read and does not decode is among the lines kept. *)
Lemma split_lines_undecodable data :
  has_undecodable data -> exists text, In (Junk text) (split_lines data).
Proof.
  intros (pre & text & post & -> & [Hblank | (Hne & Hpre & Hpost)]).
  - apply split_lines_junk. exists text. split; [|assumption].
    apply in_or_app. right. now left.
  - exists text. unfold split_lines. apply filter_In. split.
    + unfold trim_lines.
      destruct (drop_while_some blank pre (Junk text :: post) Hpre) as [pre' ->].
      rewrite rev_app_distr. cbn [rev]. rewrite <- app_assoc. cbn [app].
      assert (Hrev : Exists (fun l => blank l = false) (rev post)).
      { apply Exists_exists in Hpost. destruct Hpost as (z & Hz & Hb).
        apply Exists_exists. exists z. split; [|assumption].
        apply list_elem_of_In, in_rev. rewrite rev_involutive.
        now apply list_elem_of_In. }
      destruct (drop_while_some blank (rev post) (Junk text :: rev pre') Hrev)
        as [post' ->].
      apply in_rev. rewrite rev_involutive. apply in_or_app. right. now left.
    + destruct text; [congruence | reflexivity].
Qed.

Lemma get_user_clean userId data w :
  events_file w = Some data ->
  scan_clean data ->
  get_user userId w
  = (Return (Response 200
       (PUser userId (length (matching userId (rows data)))
              (length (flat_map events (matching userId (rows data))))
              (matching userId (rows data)))), w).
Proof.
  intros Hfile Hclean. unfold get_user, try_catch. unfold bind at 1.
  unfold read_events. rewrite Hfile, (split_lines_clean data Hclean).
  unfold bind. now rewrite mapM_parse_rows.
Qed.

Lemma number_eqb_denotes z t :
  number_eqb (Fin (inject_Z z)) (StringToNumber t) = true <-> denotes t z.
Proof.
  unfold denotes. destruct (StringToNumber t) as [|neg|q]; cbn [number_eqb].
  - split; [discriminate | intros (q & Hq & _); discriminate].
  - split; [discriminate | intros (q & Hq & _); discriminate].
  - rewrite Qeq_bool_iff. split.
    + intros Heq. exists q. split; [reflexivity | now symmetry].
    + intros (q' & Hq & Heq). injection Hq as <-. now symmetry.
Qed.

(** [==] between a stored identifier and a queried text, case by case. *)
Lemma loose_eq_id_matches v t :
  loose_eq v (VStr t) = true <-> id_matches v t.
Proof.
  destruct v as [| |b|z|u].
  - split; [discriminate | inversion 1].
  - split; [discriminate | inversion 1].
  - change (loose_eq (VBool b) (VStr t))
      with (number_eqb (Fin (inject_Z (if b then 1 else 0))) (StringToNumber t)).
    rewrite number_eqb_denotes. split; [now constructor | now inversion 1].
  - change (loose_eq (VNum z) (VStr t))
      with (number_eqb (Fin (inject_Z z)) (StringToNumber t)).
    rewrite number_eqb_denotes. split; [now constructor | now inversion 1].
  - change (loose_eq (VStr u) (VStr t)) with (String.eqb u t).
    rewrite String.eqb_eq. split; [intros ->; constructor | now inversion 1].
Qed.

Lemma matching_sublist userId ss : sublist (matching userId ss) ss.
Proof.
  unfold matching. induction ss as [|s ss IH]; [constructor|].
  cbn [List.filter].
  destruct (loose_eq (user_id s) (VStr userId));
    [apply sublist_skip | apply sublist_cons]; exact IH.
Qed.

Lemma last_n_slice {A} (l : list A) (limit : Z) :
  0 < limit ->
  slice l (- limit) = last_n (Nat.min (Z.to_nat limit) (length l)) l.
Proof.
  intros Hpos. unfold slice, last_n.
  destruct (Z.ltb_spec (- limit) 0) as [_|]; [|lia].
  f_equal. lia.
Qed.

Lemma last_n_map {A B} (f : A -> B) k (l : list A) :
  last_n k (map f l) = map f (last_n k l).
Proof. unfold last_n. rewrite length_map. apply skipn_map. Qed.

Lemma last_n_app {A} k (pre l : list A) :
  (k <= length l)%nat -> last_n k (pre ++ l) = last_n k l.
Proof.
  intros Hk. unfold last_n. rewrite length_app, skipn_app.
  rewrite skipn_all2 by lia. cbn [app]. f_equal. lia.
Qed.

(** C9 (as amended): on a log whose last 100 lines read (all of them,
    when the lines read are fewer) decode, when the [limit] parameter is
    absent, is not a number or reads as 0, the request for the recent
    events answers with the last [min(100, size)] records of the log, in
    their order; so [limit=0] does not answer with no record.  Lines
    that do not decode before the last 100 do no harm. *)
Theorem recent_events_default_limit query_limit pre ss data w :
  events_file w = Some data ->
  split_lines data = pre ++ map Row ss ->
  pre = [] \/ (100 <= length ss)%nat ->
  no_usable_limit query_limit ->
  get_recent query_limit w
  = (Return (Response 200
       (PRecent (Nat.min 100 (length pre + length ss))
                (last_n (Nat.min 100 (length pre + length ss)) ss))), w).
Proof.
  intros Hfile Hlines Hwin Hq.
  assert (Hlimit : recent_limit query_limit = 100).
  { unfold recent_limit. destruct query_limit as [s|]; cbn in *.
    - destruct Hq as [-> | ->]; reflexivity.
    - reflexivity. }
  unfold get_recent, try_catch. rewrite Hlimit.
  unfold bind at 1. unfold read_events. rewrite Hfile, Hlines.
  rewrite last_n_slice by lia. change (Z.to_nat 100) with 100%nat.
  rewrite length_app, length_map.
  set (k := Nat.min 100 (length pre + length ss)).
  assert (Hk : last_n k (pre ++ map Row ss) = map Row (last_n k ss)).
  { destruct Hwin as [-> | Hle].
    - cbn [app]. apply last_n_map.
    - rewrite last_n_app by (rewrite length_map; lia). apply last_n_map. }
  rewrite Hk. unfold bind. rewrite mapM_parse_rows.
  assert (Hlen : length (last_n k ss) = k).
  { unfold last_n. rewrite length_skipn. subst k.
    destruct Hwin as [-> | Hle]; cbn [length]; lia. }
  rewrite Hlen. reflexivity.
Qed.

Lemma recent_events_default_limit_witness :
  get_recent (Some "0") (store_of padded_log)
  = (Return (Response 200
       (PRecent (Nat.min 100 (length (@nil line) + length (rows padded_log)))
                (last_n (Nat.min 100 (length (@nil line)
                                      + length (rows padded_log)))
                        (rows padded_log)))),
     store_of padded_log).
Proof.
  apply (recent_events_default_limit (Some "0") [] (rows padded_log)
           padded_log (store_of padded_log)).
  - reflexivity.
  - reflexivity.
  - now left.
  - right. reflexivity.
Defined.

(** C9 (the claim fails): with [limit=0] on a log of two records
    around a line that does not decode, and with no [limit] on a data
    directory without log file, the request answers with status 500 and
    no record. *)
Lemma damaged_tail_fails_recent :
  no_usable_limit (Some "0")
  /\ length (rows damaged_log) = 2%nat
  /\ get_recent (Some "0") (store_of damaged_log)
     = (Return (Response 500 (PError "Failed to read events")),
        store_of damaged_log)
  /\ get_recent None empty_disk
     = (Return (Response 500 (PError "Failed to read events")), empty_disk).
Proof. split; [right; reflexivity|]. repeat split. Qed.

(** C7 (as amended): on a log in which every line read decodes, the
    rollup for [userId] answers with exactly the sessions of the log
    whose [user_id] is equal to the queried text under the loosely typed
    comparison, in the order of the log, with their number and the
    number of their events; a session stored under the number 42 and
    one stored under the text "42" are both among the sessions answered
    for the query "42". *)
Theorem user_rollup_loose_equality userId data w :
  events_file w = Some data ->
  scan_clean data ->
  ids_are_doubles (rows data) ->
  exists found,
    get_user userId w
    = (Return (Response 200
         (PUser userId (length found) (length (flat_map events found)) found)),
       w)
    /\ sublist found (rows data)
    /\ (forall s, In s (rows data) ->
                  (In s found <-> id_matches (user_id s) userId))
    /\ (userId = "42" ->
        forall s, In s (rows data) ->
                  user_id s = VNum 42 \/ user_id s = VStr "42" -> In s found).
Proof.
  intros Hfile Hclean _. exists (matching userId (rows data)).
  split; [now apply get_user_clean|].
  split; [apply matching_sublist|].
  assert (Hiff : forall s, In s (rows data) ->
            (In s (matching userId (rows data))
             <-> id_matches (user_id s) userId)).
  { intros s Hin. unfold matching. rewrite filter_In, loose_eq_id_matches.
    tauto. }
  split; [exact Hiff|].
  intros -> s Hin Hid. apply (Hiff s Hin).
  destruct Hid as [-> | ->]; constructor.
  exists (inject_Z 42). split; reflexivity.
Qed.

Lemma user_rollup_loose_equality_witness :
  exists found,
    get_user "42" (store_of padded_log)
    = (Return (Response 200
         (PUser "42" (length found) (length (flat_map events found)) found)),
       store_of padded_log)
    /\ sublist found (rows padded_log)
    /\ (forall s, In s (rows padded_log) ->
                  (In s found <-> id_matches (user_id s) "42"))
    /\ ("42" = "42" ->
        forall s, In s (rows padded_log) ->
                  user_id s = VNum 42 \/ user_id s = VStr "42" -> In s found).
Proof.
  apply (user_rollup_loose_equality "42" padded_log (store_of padded_log)).
  - reflexivity.
  - exists [Junk " "], [Junk "";
       Row (stored (VStr "u1") [plain_event "app_opened"]); Junk "";
       Row (stored (VNum 42) [plain_event "share_clicked"])],
      [Junk nbsp; Junk ""].
    split; [reflexivity|].
    split; [repeat constructor|].
    split; [repeat constructor|].
    repeat (constructor; [first [left; reflexivity | right; eauto]|]).
    constructor.
  - repeat constructor.
Defined.

(** C7 (the claim fails): the log of two good records around a line
    that does not decode holds sessions of the user "u1", and the
    rollup for "u1" answers with status 500 and none of them. *)
Lemma damaged_log_fails_rollup :
  (exists s, In s (rows damaged_log) /\ id_matches (user_id s) "u1")
  /\ get_user "u1" (store_of damaged_log)
     = (Return (Response 500 (PError "Failed to read user data")),
        store_of damaged_log).
Proof.
  split; [|reflexivity].
  exists (stored (VStr "u1") [plain_event "app_opened"]).
  split; [now left | constructor].
Qed.

(** C2 (as amended): a full scan of the log skips the empty lines and
    the white-space lines at the two ends of the file, and nothing
    else.  A log with any other line that does not decode (a line that
    is not white space only, or a white-space line between two lines
    that are not blank) aborts the scan: the dashboard and the per-user
    rollup answer with status 500 and leave the disk as it is, and the
    analyzer prints its error line and nothing else.  On every other
    log the scan reads all the records of the log: the per-user rollup
    answers from them.  Every log is of one kind or the other. *)
Theorem undecodable_line_aborts_scan clock userId data w :
  events_file w = Some data ->
  (has_undecodable data ->
   get_dashboard clock w
     = (Return (Response 500 (PError "Failed to generate dashboard")), w)
   /\ get_user userId w
     = (Return (Response 500 (PError "Failed to read user data")), w)
   /\ analyzeData (Some data) = [AnalysisError])
  /\ (scan_clean data ->
      get_user userId w
      = (Return (Response 200
           (PUser userId (length (matching userId (rows data)))
                  (length (flat_map events (matching userId (rows data))))
                  (matching userId (rows data)))), w))
  /\ (has_undecodable data \/ scan_clean data).
Proof.
  intros Hfile. split; [|split].
  - intros Hjunk. pose proof (split_lines_undecodable data Hjunk) as Hex.
    split; [|split].
    + unfold get_dashboard, try_catch. unfold bind at 1. unfold read_events.
      rewrite Hfile. unfold bind at 1. rewrite (mapM_parse_junk _ _ Hex).
      reflexivity.
    + unfold get_user, try_catch. unfold bind at 1. unfold read_events.
      rewrite Hfile. unfold bind at 1. rewrite (mapM_parse_junk _ _ Hex).
      reflexivity.
    + unfold analyzeData, analyze, try_catch. unfold bind at 1. unfold ret at 1.
      destruct (split_lines data) as [|l lines] eqn:Hl.
      { destruct Hex as (? & []). }
      cbn [length Nat.eqb]. unfold bind at 1.
      rewrite (mapM_parse_junk _ _ Hex). reflexivity.
  - now apply get_user_clean.
  - apply scan_cases.
Qed.

Lemma undecodable_line_aborts_scan_witness :
  (get_dashboard sample_clock (store_of spaced_log)
     = (Return (Response 500 (PError "Failed to generate dashboard")),
        store_of spaced_log)
   /\ get_user "u1" (store_of spaced_log)
     = (Return (Response 500 (PError "Failed to read user data")),
        store_of spaced_log)
   /\ analyzeData (Some spaced_log) = [AnalysisError])
  /\ get_user "u1" (store_of padded_log)
     = (Return (Response 200
          (PUser "u1" (length (matching "u1" (rows padded_log)))
                 (length (flat_map events (matching "u1" (rows padded_log))))
                 (matching "u1" (rows padded_log)))), store_of padded_log).
Proof.
  split.
  - destruct (undecodable_line_aborts_scan sample_clock "u1" spaced_log
                (store_of spaced_log) eq_refl) as (Habort & _ & _).
    apply Habort.
    exists [Row (stored (VStr "u1") [plain_event "app_opened"])], " ",
      [Row (stored (VStr "u1") [plain_event "share_clicked"])].
    split; [reflexivity|]. right. split; [discriminate|].
    split; apply Exists_cons_hd; reflexivity.
  - destruct (undecodable_line_aborts_scan sample_clock "u1" padded_log
                (store_of padded_log) eq_refl) as (_ & Hclean & _).
    apply Hclean.
    exists [Junk " "], [Junk "";
       Row (stored (VStr "u1") [plain_event "app_opened"]); Junk "";
       Row (stored (VNum 42) [plain_event "share_clicked"])],
      [Junk nbsp; Junk ""].
    split; [reflexivity|].
    split; [repeat constructor|].
    split; [repeat constructor|].
    repeat (constructor; [first [left; reflexivity | right; eauto]|]).
    constructor.
Defined.

(** C2 (the claim fails): on a log of two good records around a line
    that does not decode, the dashboard does not answer from the two
    good records; it answers with status 500. *)
Lemma damaged_log_fails_dashboard :
  length (rows damaged_log) = 2%nat
  /\ fst (get_dashboard sample_clock (store_of damaged_log))
     = Return (Response 500 (PError "Failed to generate dashboard"))
  /\ analyzeData (Some damaged_log) = [AnalysisError].
Proof. vm_compute. repeat split. Qed.

(* ===================================================================== *)
(** * Doubles                                                             *)
(* ===================================================================== *)

Lemma Qred_inject_Z m : Qred (inject_Z m) = inject_Z m.
Proof. apply Qred_identity. cbn. apply Z.gcd_1_r. Qed.

Lemma inject_Z_eqb m n : Qeq_bool (inject_Z m) (inject_Z n) = (m =? n).
Proof. unfold Qeq_bool, inject_Z. cbn. now rewrite !Z.mul_1_r. Qed.


Lemma nearest_even_one x : nearest_even x 1 = x.
Proof.
  unfold nearest_even. rewrite Z.mod_1_r, Z.div_1_r. reflexivity.
Qed.

Lemma binade_integer a : 0 < a -> binade a 1 = Z.log2 a.
Proof.
  intros Ha. unfold binade. change (Z.log2 1) with 0. rewrite Z.sub_0_r.
  pose proof (Z.log2_nonneg a) as Hnn.
  destruct (Z.leb_spec 0 (Z.log2 a)) as [_|]; [|lia].
  destruct (Z.log2_spec a Ha) as [Hlo _].
  destruct (Z.leb_spec (1 * 2 ^ Z.log2 a) a) as [_|]; [reflexivity|lia].
Qed.

(** An integer below 2^53 in absolute value is a double. *)
Lemma round_double_safe z :
  safe z -> round_double (inject_Z z) = Fin (inject_Z z).
Proof.
  unfold safe. intros Hz. unfold round_double.
  change (Qnum (inject_Z z)) with z. change (Z.pos (Qden (inject_Z z))) with 1.
  destruct (Z.eqb_spec z 0) as [->|Hnz]; [reflexivity|].
  assert (Ha : 0 < Z.abs z) by lia.
  rewrite (binade_integer _ Ha).
  assert (He : 0 <= Z.log2 (Z.abs z) < 53).
  { split; [apply Z.log2_nonneg|]. apply Z.log2_lt_pow2; lia. }
  rewrite (Z.max_l _ (-1022)) by lia.
  rewrite (Z.max_r (Z.log2 (Z.abs z) - 52) 0) by lia.
  rewrite (Z.max_l (52 - Z.log2 (Z.abs z)) 0) by lia.
  set (down := 52 - Z.log2 (Z.abs z)).
  change (2 ^ 0) with 1. rewrite !Z.mul_1_r, nearest_even_one.
  assert (Hp : 0 < 2 ^ down) by (apply Z.pow_pos_nonneg; lia).
  destruct (Z.leb_spec (2 ^ 1024 * 2 ^ down) (Z.abs z * 2 ^ down)) as [Hle|_].
  { exfalso. apply Z.mul_le_mono_pos_r in Hle; [|assumption].
    assert (2 ^ 53 < 2 ^ 1024) by (apply Z.pow_lt_mono_r; lia). lia. }
  f_equal. rewrite <- (Qred_inject_Z z). apply Qred_complete.
  unfold Qeq, inject_Z. cbn [Qnum Qden]. rewrite Z2Pos.id by assumption.
  pose proof (Z.sgn_abs z) as Hs. lia.
Qed.


(* ===================================================================== *)
(** * Numeric aggregates                                                  *)
(* ===================================================================== *)


Section Aggregates.

Context {St : Type}.
Variable key : string.






End Aggregates.












(** ** What the analyzer has printed *)

Lemma keeps_stateless {A} (c : M (list report_line) A) : stateless c -> keeps c.
Proof. intros Hc out l Hin. now rewrite Hc. Qed.


















(** The sample at work: the analyzer reports the mean price 4000001
    (the rounding of 4000000.5) over the two prices that are present,
    the dashboard 2666667 over the three calculations. *)
Example aggregates_of_priced_sessions :
  In (PriceStats (Fin 4000001%Q) (Fin 3000001%Q) (Fin 5000000%Q))
     (analyzeData (Some (map Row priced_sessions)))
  /\ In (RateStats (toFixed 2 (Fin (21 # 2))) (Fin 8%Q) (Fin 13%Q))
        (analyzeData (Some (map Row priced_sessions)))
  /\ exists d,
       fst (get_dashboard sample_clock (store_of (map Row priced_sessions)))
         = Return (Response 200 (PDashboard d))
       /\ avg_price d = Fin 2666667%Q
       /\ avg_rate d = toFixed 2 (Fin 7%Q).
Proof.
  split; [vm_compute; tauto|]. split; [vm_compute; tauto|].
  eexists. split; [vm_compute; reflexivity|]. split; reflexivity.
Qed.


(* ===================================================================== *)
(** * Conversion funnel                                                   *)
(* ===================================================================== *)

(** Without any [app_opened] event neither rate is computed. *)
Lemma no_rate_without_app_opened counts sessions_size out :
  counts !! "app_opened" = None ->
  exists x, analyze_conversions counts sessions_size out
            = (Return tt, out ++ [CalculationsPerSession x]).
Proof.
  intros Hnone. unfold analyze_conversions. rewrite Hnone. cbn.
  unfold bind, console_log, modify. cbn. eauto.
Qed.

(** C5 (the code departs from the claim): for a log with an opened
    application and a share but no calculation, the share rate divides
    by the zero count of calculations and the analyzer prints an
    infinite percentage. *)
Theorem share_rate_infinite_without_calculation :
  In (ShareRate (toFixed 1 (Inf false)))
     (analyzeData (Some shared_without_calculation)).
Proof.
  unfold analyzeData. vm_compute.
  repeat (first [left; reflexivity | right]).
Qed.

(* ===================================================================== *)
(** * Further properties of the ingestion path                            *)
(* ===================================================================== *)

Section IngestionMore.

Variable clock : nat -> string.

(** The answer to [POST /api/analytics] is decided by the [events] field
    and by the append alone: 400 for what is not an array, 500 when the
    append fails, success with [events_received = events.length]
    otherwise.  Neither the content of the stats file nor a failure to
    read or write it changes the answer. *)
Theorem ingestion_response disk req w :
  fst (post_analytics clock disk req w)
  = Return (match body_events req with
            | FArray items =>
                if append_fails disk
                then Response 500 (PError "Internal server error")
                else Response 200 (PReceived true (length items))
            | _ => Response 400 (PError "Invalid events data")
            end).
Proof.
  destruct (body_events req) as [v| |items] eqn:Hev.
  1,2: rewrite post_analytics_not_array by (rewrite Hev; reflexivity);
       reflexivity.
  rewrite (post_analytics_array clock disk req items w Hev).
  destruct (append_fails disk); reflexivity.
Qed.

Lemma stamped_lookup n items i e :
  stamped clock n items !! i = Some e ->
  exists e0, items !! i = Some e0
             /\ e = Event (event_name e0) (properties e0) (timestamp e0)
                          (VStr (clock (n + i))).
Proof.
  revert n i. induction items as [|x items IH]; intros n i H; [destruct i; discriminate|].
  destruct i as [|i]; cbn in H.
  - injection H as <-. exists x. split; [reflexivity|]. do 2 f_equal. f_equal. lia.
  - destruct (IH (S n) i H) as (e0 & He0 & ->).
    exists e0. split; [assumption|]. do 2 f_equal. f_equal. lia.
Qed.

Lemma stamped_fields n items :
  map event_name (stamped clock n items) = map event_name items
  /\ map properties (stamped clock n items) = map properties items
  /\ map timestamp (stamped clock n items) = map timestamp items.
Proof.
  revert n. induction items as [|x items IH]; intros n; cbn; [auto|].
  destruct (IH (S n)) as (-> & -> & ->). auto.
Qed.

(** An accepted batch adds exactly one record at the end of the log and
    leaves the earlier lines as they were.  The record copies
    [session_id], [user_id] and [user_info] from the body, keeps the
    events in their order with their names, properties and client
    timestamps, and carries the server's stamps: [received_at] is read
    first, then one [processed_at] per event in order, whatever
    [processed_at] the client had sent. *)
Theorem accepted_batch_record disk req items w :
  body_events req = FArray items ->
  append_fails disk = false ->
  exists r,
    events_file (snd (post_analytics clock disk req w))
      = Some (default [] (events_file w) ++ [Row r])
    /\ session_id r = body_session_id req
    /\ user_id r = body_user_id req
    /\ user_info r = body_user_info req
    /\ received_at r = VStr (clock (ticks w))
    /\ length (events r) = length items
    /\ map event_name (events r) = map event_name items
    /\ map properties (events r) = map properties items
    /\ map timestamp (events r) = map timestamp items
    /\ (forall i e, events r !! i = Some e ->
                    processed_at e = VStr (clock (ticks w + 1 + i))).
Proof.
  intros Hev Hdisk. exists (enriched clock (ticks w) req items).
  rewrite (post_analytics_array clock disk req items w Hev), Hdisk. cbn [snd].
  destruct (updateStats_cases disk (enriched clock (ticks w) req items)
              (with_row (enriched clock (ticks w) req items)
                 (advance (S (length items)) w))) as (Hfile & _ & _).
  rewrite Hfile.
  destruct (stamped_fields (S (ticks w)) items) as (Hn & Hp & Ht).
  repeat split; cbn [enriched events]; auto using stamped_length.
  intros i e Hi. apply stamped_lookup in Hi. destruct Hi as (e0 & _ & ->).
  cbn. do 2 f_equal. lia.
Qed.

Lemma post_all_appends reqs w data :
  events_file w = Some data ->
  exists added,
    events_file (post_all clock reqs w) = Some (data ++ map Row added).
Proof.
  revert w data. induction reqs as [|[disk req] reqs IH]; intros w data Hfile.
  - exists []. cbn. now rewrite app_nil_r.
  - cbn [post_all].
    destruct (body_events req) as [v| |items] eqn:Hev.
    1,2: rewrite post_analytics_not_array by (rewrite Hev; reflexivity);
         cbn [snd]; now apply IH.
    rewrite (post_analytics_array clock disk req items w Hev).
    destruct (append_fails disk); cbn [snd].
    + apply IH. exact Hfile.
    + destruct (updateStats_cases disk (enriched clock (ticks w) req items)
                  (with_row (enriched clock (ticks w) req items)
                     (advance (S (length items)) w))) as (Hf & _ & _).
      cbn [with_row advance events_file] in Hf. rewrite Hfile in Hf. cbn in Hf.
      destruct (IH _ _ Hf) as (added & Hadded).
      exists (enriched clock (ticks w) req items :: added).
      rewrite Hadded, <- app_assoc. reflexivity.
Qed.


(** The log only grows: whatever requests are posted and whatever the
    disk refuses, the lines present before are still there, in place,
    and every line added decodes to a session. *)
Theorem log_append_only reqs w data :
  events_file w = Some data ->
  exists added,
    events_file (post_all clock reqs w) = Some (data ++ map Row added).
Proof. apply post_all_appends. Qed.

End IngestionMore.

Lemma accepted_batch_record_witness :
  exists r,
    events_file (snd (post_analytics sample_clock healthy identified_batch fresh_store))
      = Some (default [] (events_file fresh_store) ++ [Row r])
    /\ session_id r = body_session_id identified_batch
    /\ user_id r = body_user_id identified_batch
    /\ user_info r = body_user_info identified_batch
    /\ received_at r = VStr (sample_clock (ticks fresh_store))
    /\ length (events r) = length [plain_event "app_opened"]
    /\ map event_name (events r) = map event_name [plain_event "app_opened"]
    /\ map properties (events r) = map properties [plain_event "app_opened"]
    /\ map timestamp (events r) = map timestamp [plain_event "app_opened"]
    /\ (forall i e, events r !! i = Some e ->
                    processed_at e = VStr (sample_clock (ticks fresh_store + 1 + i))).
Proof.
  apply (accepted_batch_record sample_clock healthy identified_batch
           [plain_event "app_opened"] fresh_store); reflexivity.
Defined.

Lemma log_append_only_witness :
  exists added,
    events_file (post_all sample_clock (map (pair healthy) sample_batches) listed_store)
    = Some ([Row (Session (VStr "s0") (VStr "u1") None
                          (VStr "2023-12-31T23:59:59")
                          [Event (VStr "app_opened") None VUndef
                                 (VStr "2023-12-31T23:59:59")])]
            ++ map Row added).
Proof.
  apply (log_append_only sample_clock (map (pair healthy) sample_batches) listed_store).
  reflexivity.
Defined.

(* ===================================================================== *)
(** * Further properties of the stats                                     *)
(* ===================================================================== *)

Lemma count_named_cons name e evs :
  count_named name (e :: evs)
  = (if is_event name e then 1 else 0) + count_named name evs.
Proof.
  unfold count_named. cbn [List.filter].
  destruct (is_event name e); cbn [length]; lia.
Qed.

Lemma count_named_app name evs evs' :
  count_named name (evs ++ evs')
  = count_named name evs + count_named name evs'.
Proof.
  unfold count_named. rewrite List.filter_app, length_app. lia.
Qed.

Lemma count_event_counts st e :
  total_calculations (count_event st e)
  = total_calculations st + (if is_event "calculation_performed" e then 1 else 0)
  /\ total_shares (count_event st e)
     = total_shares st + (if is_event "share_clicked" e then 1 else 0).
Proof.
  unfold count_event, is_event.
  destruct (strict_eq (event_name e) (VStr "calculation_performed"));
    destruct (strict_eq (event_name e) (VStr "share_clicked")); cbn; lia.
Qed.

Lemma fold_count_event_counts evs st :
  total_calculations (fold_left count_event evs st)
  = total_calculations st + count_named "calculation_performed" evs
  /\ total_shares (fold_left count_event evs st)
     = total_shares st + count_named "share_clicked" evs.
Proof.
  revert st. induction evs as [|e evs IH]; intros st.
  - unfold count_named; cbn. lia.
  - cbn [fold_left]. destruct (IH (count_event st e)) as (-> & ->).
    destruct (count_event_counts st e) as (-> & ->).
    rewrite !count_named_cons. lia.
Qed.

(** What a successful run of the body of [updateStats] computes. *)
Lemma updated_stats_spec data st st' :
  updated_stats data st = Some st' ->
  total_sessions st' = total_sessions st + 1
  /\ total_events st' = total_events st + Z.of_nat (length (events data))
  /\ total_calculations st'
     = total_calculations st + count_named "calculation_performed" (events data)
  /\ total_shares st'
     = total_shares st + count_named "share_clicked" (events data)
  /\ (if truthy (user_id data)
      then add_user (user_id data) (unique_users st) = Some (unique_users st')
      else unique_users st' = unique_users st).
Proof.
  unfold updated_stats.
  set (st0 := Stats (total_sessions st + 1)
                    (total_events st + Z.of_nat (length (events data)))
                    (total_calculations st) (total_shares st) (unique_users st)).
  destruct (fold_count_event_keeps (events data) st0) as (Hs & He & Hu).
  destruct (fold_count_event_counts (events data) st0) as (Hc & Hsh).
  cbn [st0 total_sessions total_events total_calculations total_shares unique_users]
    in Hs, He, Hu, Hc, Hsh.
  intros H. destruct (truthy (user_id data)).
  - destruct (add_user _ _) as [u|] eqn:Hadd; [|discriminate].
    injection H as <-. cbn. rewrite Hu in Hadd. auto.
  - injection H as <-. auto.
Qed.

Lemma updated_stats_defined data st :
  listed (unique_users st) \/ truthy (user_id data) = false ->
  exists st', updated_stats data st = Some st'.
Proof.
  intros Hok. unfold updated_stats.
  set (st0 := Stats _ _ _ _ _).
  destruct (fold_count_event_keeps (events data) st0) as (_ & _ & Hu).
  cbn [st0 unique_users] in Hu.
  destruct (truthy (user_id data)) eqn:Ht; [|eauto].
  destruct Hok as [Hl|]; [|congruence].
  rewrite Hu. destruct (add_user_listed (user_id data) _ Hl) as [l ->]. eauto.
Qed.

Lemma persisted_stats_file w st :
  persisted_stats w = Some st -> stats_file w = Some (Json st).
Proof.
  unfold persisted_stats. destruct (stats_file w) as [[|st0]|]; congruence.
Qed.

(** On a disk without faults, a call of [updateStats] on a decodable
    stats file adds one session, the events of the session, and its
    calculations and shares to the counters; a user is added to the
    array of users when the session names one that the array lacks, and
    the array is otherwise kept.  (The call is assumed not to meet a
    [unique_users] that is an object while the session names a user.) *)
Theorem updateStats_increments data w st :
  persisted_stats w = Some st ->
  listed (unique_users st) \/ truthy (user_id data) = false ->
  exists st',
    persisted_stats (snd (updateStats healthy data w)) = Some st'
    /\ total_sessions st' = total_sessions st + 1
    /\ total_events st' = total_events st + Z.of_nat (length (events data))
    /\ total_calculations st'
       = total_calculations st + count_named "calculation_performed" (events data)
    /\ total_shares st'
       = total_shares st + count_named "share_clicked" (events data)
    /\ (truthy (user_id data) = true ->
        members_of (unique_users st')
        = if includes (members_of (unique_users st)) (user_id data)
          then members_of (unique_users st)
          else members_of (unique_users st) ++ [user_id data])
    /\ (truthy (user_id data) = false ->
        unique_users st' = json_users (unique_users st)).
Proof.
  intros Hst Hok.
  destruct (updated_stats_defined data st Hok) as (st' & Hup).
  exists (json_stats st').
  rewrite updateStats_eq. cbn [healthy stats_read_fails stats_write_fails snd].
  rewrite (persisted_stats_file w st Hst), Hup.
  destruct (updated_stats_spec data st st' Hup) as (Hs & He & Hc & Hsh & Hu).
  repeat split; try assumption.
  - intros Ht. rewrite Ht in Hu. destruct Hok as [Hl|]; [|congruence].
    cbn [json_stats unique_users].
    unfold add_user in Hu.
    destruct Hl as [Ha | [l Ha]]; rewrite Ha in Hu |- *; cbn [members_of].
    + cbn in Hu. injection Hu as Hu. rewrite <- Hu. reflexivity.
    + destruct (includes l (user_id data)); injection Hu as Hu;
        rewrite <- Hu; reflexivity.
  - intros Ht. rewrite Ht in Hu. cbn. now rewrite Hu.
Qed.

(** [updateStats] never throws and never touches the event log or the
    clock; when the stats file cannot be read or decoded, or the write
    is refused, it leaves the disk exactly as it was: a missing or
    damaged stats file is neither created nor repaired. *)
Theorem updateStats_absorbs_failures disk data w :
  fst (updateStats disk data w) = Return tt
  /\ events_file (snd (updateStats disk data w)) = events_file w
  /\ ticks (snd (updateStats disk data w)) = ticks w
  /\ (stats_read_fails disk = true \/ stats_write_fails disk = true
      \/ persisted_stats w = None ->
      snd (updateStats disk data w) = w).
Proof.
  destruct (updateStats_cases disk data w) as (Hf & Ht & _).
  repeat split; auto using updateStats_returns.
  intros H. rewrite updateStats_eq. cbn [snd].
  destruct (stats_read_fails disk); [reflexivity|].
  destruct (stats_file w) as [[|st]|] eqn:Hfile; try reflexivity.
  destruct (updated_stats data st); [|reflexivity].
  destruct (stats_write_fails disk); [reflexivity|].
  destruct H as [H|[H|H]]; try discriminate.
  unfold persisted_stats in H. rewrite Hfile in H. discriminate.
Qed.

Lemma updateStats_increments_witness :
  exists st',
    persisted_stats (snd (updateStats healthy
       (stored (VNum 42) [calculation []; plain_event "share_clicked"])
       listed_store)) = Some st'
    /\ total_sessions st' = 1 + 1
    /\ total_events st' = 1 + Z.of_nat 2
    /\ total_calculations st' = 0 + 1
    /\ total_shares st' = 0 + 1
    /\ (truthy (VNum 42) = true ->
        members_of (unique_users st')
        = if includes [VStr "u1"] (VNum 42) then [VStr "u1"]
          else [VStr "u1"] ++ [VNum 42])
    /\ (truthy (VNum 42) = false -> unique_users st' = UArray [VStr "u1"]).
Proof.
  apply (updateStats_increments
           (stored (VNum 42) [calculation []; plain_event "share_clicked"])
           listed_store (Stats 1 1 0 0 (UArray [VStr "u1"]))).
  - reflexivity.
  - left. right. exists [VStr "u1"]. reflexivity.
Defined.

Section Mirror.

Variable clock : nat -> string.

Lemma post_healthy_state req items w st st' :
  body_events req = FArray items ->
  persisted_stats w = Some st ->
  updated_stats (enriched clock (ticks w) req items) st = Some st' ->
  snd (post_analytics clock healthy req w)
  = with_stats st' (with_row (enriched clock (ticks w) req items)
                             (advance (S (length items)) w)).
Proof.
  intros Hev Hst Hup.
  rewrite (post_analytics_array clock healthy req items w Hev).
  cbn [healthy append_fails snd]. rewrite updateStats_eq.
  cbn [healthy stats_read_fails stats_write_fails snd with_row advance stats_file].
  now rewrite (persisted_stats_file w st Hst), Hup.
Qed.

Lemma log_sessions_posted st' data k w :
  log_sessions (with_stats st' (with_row data (advance k w)))
  = log_sessions w ++ [data].
Proof.
  unfold log_sessions, with_stats, with_row, advance, rows; cbn.
  now rewrite omap_app.
Qed.

Lemma stamped_count name n items :
  count_named name (stamped clock n items) = count_named name items.
Proof.
  revert n. induction items as [|e items IH]; intros n; [reflexivity|].
  cbn [stamped]. rewrite !count_named_cons, IH. reflexivity.
Qed.

Lemma counters_step req items w :
  body_events req = FArray items ->
  users_listed w -> counters_mirror_log w ->
  users_listed (snd (post_analytics clock healthy req w))
  /\ counters_mirror_log (snd (post_analytics clock healthy req w)).
Proof.
  intros Hev (st0 & Hst0 & Hl) (st & Hst & Hs & He & Hc & Hsh).
  rewrite Hst in Hst0. injection Hst0 as <-.
  set (data := enriched clock (ticks w) req items).
  destruct (updated_stats_defined data st (or_introl Hl)) as (st' & Hup).
  rewrite (post_healthy_state req items w st st' Hev Hst Hup). fold data.
  destruct (updated_stats_spec data st st' Hup) as (Hs' & He' & Hc' & Hsh' & Hu).
  assert (Hl' : listed (unique_users st')).
  { destruct (truthy (user_id data)); [|now rewrite Hu].
    destruct (add_user_listed (user_id data) _ Hl) as [l Hadd].
    rewrite Hadd in Hu. injection Hu as <-. right. eauto. }
  split.
  - exists (json_stats st'). split; [reflexivity|]. cbn.
    destruct Hl' as [-> | [l ->]]; [left | right; eauto]; reflexivity.
  - exists (json_stats st'). rewrite log_sessions_posted.
    rewrite flat_map_app, !length_app, !count_named_app. cbn [flat_map].
    rewrite app_nil_r.
    assert (Hev' : events data = stamped clock (S (ticks w)) items) by reflexivity.
    rewrite Hev' in *. rewrite !stamped_count, stamped_length in *.
    cbn [json_stats total_sessions total_events total_calculations total_shares length].
    split; [reflexivity|]. repeat split; lia.
Qed.

Lemma users_step req items w :
  body_events req = FArray items ->
  users_mirror_log w ->
  users_mirror_log (snd (post_analytics clock healthy req w)).
Proof.
  intros Hev (st & Hst & Hl & Hnd & Hmem).
  set (data := enriched clock (ticks w) req items).
  destruct (updated_stats_defined data st (or_introl Hl)) as (st' & Hup).
  rewrite (post_healthy_state req items w st st' Hev Hst Hup). fold data.
  destruct (updated_stats_spec data st st' Hup) as (_ & _ & _ & _ & Hu).
  exists (json_stats st'). split; [reflexivity|].
  rewrite log_sessions_posted, map_app. cbn [map json_stats unique_users].
  assert (Hcases :
    (truthy (user_id data) = true
     /\ exists l', unique_users st' = UArray l' /\ NoDup l'
        /\ forall u, u ∈ l' <-> u ∈ members_of (unique_users st) \/ u = user_id data)
    \/ (truthy (user_id data) = false /\ unique_users st' = unique_users st)).
  { destruct (truthy (user_id data)) eqn:Ht; [left | right; auto].
    split; [reflexivity|].
    assert (Hd : users_distinct (unique_users st)).
    { destruct Hl as [Ha | [l Ha]]; rewrite Ha in Hnd |- *; cbn in *;
        [exact I|exact Hnd]. }
    pose proof (add_user_distinct _ _ _ Hd Hu) as Hd'.
    unfold add_user in Hu.
    destruct Hl as [Ha | [l Ha]]; rewrite Ha in Hu, Hnd |- *; cbn [members_of] in *.
    - cbn in Hu. injection Hu as Hu. rewrite <- Hu in Hd' |- *.
      eexists; split; [reflexivity|]. split; [exact Hd'|].
      intros u. rewrite list_elem_of_singleton, elem_of_nil. tauto.
    - destruct (includes l (user_id data)) eqn:Hinc; injection Hu as Hu;
        rewrite <- Hu in Hd' |- *;
        (eexists; split; [reflexivity|]; split; [exact Hd'|]); intros u.
      + apply includes_elem_of in Hinc. split; [tauto|].
        intros [?| ->]; assumption.
      + rewrite elem_of_app, list_elem_of_singleton. tauto. }
  destruct Hcases as [(Ht & l' & Hu' & Hnd' & Hmem') | (Ht & Hu')]; rewrite Hu'.
  - cbn [json_users members_of].
    split; [right; eauto|]. split; [exact Hnd'|].
    intros u. rewrite Hmem', Hmem, elem_of_app, list_elem_of_singleton.
    split.
    + intros [[? ?] | ->]; auto.
    + intros (Htu & [Hin | ->]); auto.
  - assert (Hj : json_users (unique_users st) = unique_users st).
    { destruct Hl as [-> | [l ->]]; reflexivity. }
    rewrite Hj. split; [assumption|]. split; [assumption|].
    intros u. rewrite Hmem, elem_of_app, list_elem_of_singleton.
    split.
    + intros [? ?]; auto.
    + intros (Htu & [Hin | ->]); [auto|].
      change (truthy (user_id data) = true) in Htu. congruence.
Qed.

(** Replaying the log gives the counters back, for requests served
    one after another (none beginning before the one before it has been
    answered): from a store whose counters are those of its log and
    whose [unique_users] is an array (or absent), any such series of
    accepted batches on a disk without faults leaves [total_sessions],
    [total_events],
    [total_calculations] and [total_shares] equal to the numbers of
    records, of events, and of events named [calculation_performed]
    and [share_clicked] in the log. *)
Theorem counters_mirror_log_kept batches w :
  all_arrays batches ->
  users_listed w -> counters_mirror_log w ->
  counters_mirror_log (post_all clock (map (pair healthy) batches) w).
Proof.
  intros Hall. revert w.
  induction Hall as [|req batches Hreq Hall IH]; intros w Hl Hm; [assumption|].
  cbn [map post_all].
  destruct (body_events req) as [| |items] eqn:Hev; try discriminate.
  destruct (counters_step req items w Hev Hl Hm). now apply IH.
Qed.

(** For requests served one after another (none beginning before the
    one before it has been answered): from a store whose [unique_users]
    array lists, each once, the truthy [user_id]s of its log, any such
    series of accepted batches on a
    disk without faults keeps it so; the length of the array is then
    the number of unique users that a scan of the log counts (the
    [unique_users] of the dashboard). *)
Theorem users_mirror_log_kept batches w :
  all_arrays batches ->
  users_mirror_log w ->
  let w' := post_all clock (map (pair healthy) batches) w in
  users_mirror_log w'
  /\ exists st, persisted_stats w' = Some st
       /\ length (members_of (unique_users st))
          = set_size (List.filter truthy (map user_id (log_sessions w'))).
Proof.
  intros Hall Hm w'.
  assert (Hm' : users_mirror_log w').
  { subst w'. revert w Hm.
    induction Hall as [|req batches Hreq Hall IH]; intros w Hm; [assumption|].
    cbn [map post_all].
    destruct (body_events req) as [| |items] eqn:Hev; try discriminate.
    apply IH. now apply (users_step req items). }
  split; [assumption|].
  destruct Hm' as (st & Hst & _ & Hnd & Hmem). exists st. split; [assumption|].
  unfold set_size. apply Permutation_length, NoDup_Permutation.
  - assumption.
  - apply NoDup_remove_dups.
  - intros u. rewrite elem_of_remove_dups, Hmem, !list_elem_of_In, filter_In.
    tauto.
Qed.

End Mirror.

Lemma counters_mirror_log_kept_witness :
  counters_mirror_log
    (post_all sample_clock (map (pair healthy) sample_batches) empty_listed_store).
Proof.
  apply (counters_mirror_log_kept sample_clock sample_batches empty_listed_store).
  - repeat constructor.
  - exists (Stats 0 0 0 0 (UArray [])). split; [reflexivity|]. right. eauto.
  - exists (Stats 0 0 0 0 (UArray [])). repeat split; reflexivity.
Defined.

Lemma users_mirror_log_kept_witness :
  let w' := post_all sample_clock (map (pair healthy) sample_batches)
                     empty_listed_store in
  users_mirror_log w'
  /\ exists st, persisted_stats w' = Some st
       /\ length (members_of (unique_users st))
          = set_size (List.filter truthy (map user_id (log_sessions w'))).
Proof.
  apply (users_mirror_log_kept sample_clock sample_batches empty_listed_store).
  - repeat constructor.
  - exists (Stats 0 0 0 0 (UArray [])). split; [reflexivity|].
    split; [right; eauto|]. split; [constructor|].
    intros u. cbn. split; [intros H; inversion H | intros [_ H]; inversion H].
Defined.

(* ===================================================================== *)
(** * Start-up and the reading handlers                                   *)
(* ===================================================================== *)

(** [init] creates what is missing and nothing else: a file that exists
    keeps its content (also a stats file that does not decode), both
    files exist afterwards, and a second [init] changes nothing. *)
Theorem init_keeps_existing_files w :
  fst (init w) = Return tt
  /\ (forall data, events_file w = Some data ->
                   events_file (snd (init w)) = Some data)
  /\ (forall text, stats_file w = Some text ->
                   stats_file (snd (init w)) = Some text)
  /\ (events_file w = None -> events_file (snd (init w)) = Some [])
  /\ (stats_file w = None ->
      stats_file (snd (init w)) = Some (Json (Stats 0 0 0 0 UObject)))
  /\ snd (init (snd (init w))) = snd (init w).
Proof.
  unfold init, modify. cbn [fst snd].
  destruct w as [[data|] [text|] t j]; cbn; repeat split; congruence.
Qed.

Section Stateless.

Context {St : Type}.

Lemma stateless_ret {A} (a : A) : stateless (ret (St := St) a).
Proof. intros s. reflexivity. Qed.

Lemma stateless_throw {A} e : stateless (throw (St := St) (A := A) e).
Proof. intros s. reflexivity. Qed.

Lemma stateless_bind {A B} (c : M St A) (k : A -> M St B) :
  stateless c -> (forall a, stateless (k a)) -> stateless (bind c k).
Proof.
  intros Hc Hk s. unfold bind. specialize (Hc s).
  destruct (c s) as [[a|e] s']; cbn in Hc; subst s'; [apply Hk | reflexivity].
Qed.

Lemma stateless_try_catch {A} (c : M St A) (h : exn -> M St A) :
  stateless c -> (forall e, stateless (h e)) -> stateless (try_catch c h).
Proof.
  intros Hc Hh s. unfold try_catch. specialize (Hc s).
  destruct (c s) as [[a|e] s']; cbn in Hc; subst s'; [reflexivity | apply Hh].
Qed.

Lemma stateless_mapM {A B} (f : A -> M St B) l :
  (forall x, stateless (f x)) -> stateless (mapM f l).
Proof.
  intros Hf. induction l as [|x l IH]; cbn [mapM].
  - apply stateless_ret.
  - apply stateless_bind; [apply Hf|]. intros y.
    apply stateless_bind; [apply IH|]. intros ys. apply stateless_ret.
Qed.

Lemma stateless_foldM {A B} (f : B -> A -> M St B) l b :
  (forall b x, stateless (f b x)) -> stateless (foldM f l b).
Proof.
  intros Hf. revert b. induction l as [|x l IH]; intros b; cbn [foldM].
  - apply stateless_ret.
  - apply stateless_bind; [apply Hf | intros b'; apply IH].
Qed.

Lemma stateless_or_type_error {A} msg (o : option A) :
  stateless (or_type_error (St := St) msg o).
Proof. destruct o; [apply stateless_ret | apply stateless_throw]. Qed.

Lemma stateless_JSON_parse l : stateless (JSON_parse (St := St) l).
Proof. destruct l; [apply stateless_ret | apply stateless_throw]. Qed.

Lemma stateless_parse_stats t : stateless (parse_stats (St := St) t).
Proof. destruct t; [apply stateless_throw | apply stateless_ret]. Qed.

Lemma stateless_dashboard_average key calcs :
  stateless (dashboard_average (St := St) key calcs).
Proof.
  unfold dashboard_average. destruct (0 <? length calcs)%nat.
  - apply stateless_bind; [|intros; apply stateless_ret].
    apply stateless_foldM. intros b x.
    apply stateless_bind; [apply stateless_or_type_error|].
    intros; apply stateless_ret.
  - apply stateless_ret.
Qed.

End Stateless.

Lemma stateless_read_events : stateless read_events.
Proof. intros w. unfold read_events. destruct (events_file w); reflexivity. Qed.

Lemma stateless_read_stats disk : stateless (read_stats disk).
Proof.
  intros w. unfold read_stats.
  destruct (stats_read_fails disk); [reflexivity|].
  destruct (stats_file w); reflexivity.
Qed.

(** [GET /api/dashboard] touches nothing but the clock. *)
Lemma get_dashboard_files clock w :
  files_kept w (snd (get_dashboard clock w)).
Proof.
  unfold get_dashboard, try_catch. unfold bind at 1.
  rewrite (surjective_pairing (read_events w)), stateless_read_events.
  destruct (fst (read_events w)) as [data|e]; [|now repeat split].
  unfold bind at 1.
  rewrite (surjective_pairing (mapM JSON_parse (split_lines data) w)).
  rewrite (stateless_mapM JSON_parse _ stateless_JSON_parse).
  destruct (fst (mapM JSON_parse (split_lines data) w)) as [ss|e];
    [|now repeat split].
  unfold bind at 1.
  rewrite (surjective_pairing (dashboard_average "price" _ w)).
  rewrite stateless_dashboard_average.
  destruct (fst (dashboard_average "price" _ w)) as [p|e]; [|now repeat split].
  unfold bind at 1.
  rewrite (surjective_pairing (dashboard_average "rate" _ w)).
  rewrite stateless_dashboard_average.
  destruct (fst (dashboard_average "rate" _ w)) as [r|e]; now repeat split.
Qed.

(** The reading handlers never write: [GET /api/stats],
    [GET /api/events/recent] and [GET /api/user/:userId] leave the whole
    state as it is, whatever they answer, and [GET /api/dashboard] only
    reads the clock: both files and the journal of writes are
    unchanged. *)
Theorem reading_handlers_never_write clock disk query_limit userId w :
  snd (get_stats disk w) = w
  /\ snd (get_recent query_limit w) = w
  /\ snd (get_user userId w) = w
  /\ files_kept w (snd (get_dashboard clock w)).
Proof.
  split; [|split; [|split]].
  - apply stateless_try_catch; [|intros; apply stateless_ret].
    apply stateless_bind; [apply stateless_read_stats|]. intros t.
    apply stateless_bind; [apply stateless_parse_stats|].
    intros; apply stateless_ret.
  - apply stateless_try_catch; [|intros; apply stateless_ret].
    apply stateless_bind; [apply stateless_read_events|]. intros data.
    apply stateless_bind; [|intros; apply stateless_ret].
    apply stateless_mapM, stateless_JSON_parse.
  - apply stateless_try_catch; [|intros; apply stateless_ret].
    apply stateless_bind; [apply stateless_read_events|]. intros data.
    apply stateless_bind; [|intros; apply stateless_ret].
    apply stateless_mapM, stateless_JSON_parse.
  - apply get_dashboard_files.
Qed.

Lemma recent_limit_number s n :
  parseInt s = Some n -> n <> 0 -> recent_limit (Some s) = n.
Proof.
  intros Hs Hn. unfold recent_limit. cbn [ToString]. rewrite Hs.
  destruct (Z.eqb_spec n 0); [contradiction | reflexivity].
Qed.

(** With a usable positive [limit] the answer holds the last
    [min(limit, size)] records, and only those lines are decoded: a line
    that does not decode does no harm as long as it lies before the
    [limit] last ones. *)
Theorem recent_events_window s n pre ss data w :
  events_file w = Some data ->
  split_lines data = pre ++ map Row ss ->
  parseInt s = Some n -> 0 < n ->
  pre = [] \/ n <= Z.of_nat (length ss) ->
  get_recent (Some s) w
  = (Return (Response 200
       (PRecent (Nat.min (Z.to_nat n) (length ss))
                (last_n (Nat.min (Z.to_nat n) (length ss)) ss))), w).
Proof.
  intros Hfile Hlines Hs Hpos Hwin.
  unfold get_recent, try_catch.
  rewrite (recent_limit_number s n Hs) by lia.
  unfold bind at 1. unfold read_events. rewrite Hfile, Hlines.
  rewrite last_n_slice by lia.
  set (k := Nat.min (Z.to_nat n) (length ss)).
  assert (Hk : last_n (Nat.min (Z.to_nat n) (length (pre ++ map Row ss)))
                      (pre ++ map Row ss) = map Row (last_n k ss)).
  { destruct Hwin as [-> | Hle].
    - cbn [app]. rewrite length_map. apply last_n_map.
    - rewrite length_app, length_map.
      replace (Nat.min (Z.to_nat n) (length pre + length ss)) with k by lia.
      rewrite last_n_app by (rewrite length_map; lia).
      apply last_n_map. }
  rewrite Hk. unfold bind. rewrite mapM_parse_rows.
  assert (Hlen : length (last_n k ss) = k).
  { unfold last_n. rewrite length_skipn. lia. }
  rewrite Hlen. reflexivity.
Qed.

Lemma recent_events_window_witness :
  get_recent (Some "2") (store_of damaged_head_log)
  = (Return (Response 200
       (PRecent (Nat.min (Z.to_nat 2) (length mixed_ids))
                (last_n (Nat.min (Z.to_nat 2) (length mixed_ids)) mixed_ids))),
     store_of damaged_head_log).
Proof.
  apply (recent_events_window "2" 2 [Junk "{oops"] mixed_ids damaged_head_log
           (store_of damaged_head_log)).
  - reflexivity.
  - reflexivity.
  - reflexivity.
  - lia.
  - right. cbn. lia.
Defined.

(** A negative [limit] is not rejected and does not fall back to 100:
    [slice(-limit)] then counts from the start, so the answer leaves out
    the first [|limit|] records and holds all the others, however many
    they are. *)
Theorem recent_events_negative_limit s n ss w :
  events_file w = Some (map Row ss) ->
  parseInt s = Some n -> n < 0 ->
  get_recent (Some s) w
  = (Return (Response 200
       (PRecent (length ss - Z.to_nat (- n)) (drop (Z.to_nat (- n)) ss))), w).
Proof.
  intros Hfile Hs Hneg.
  unfold get_recent, try_catch.
  rewrite (recent_limit_number s n Hs) by lia.
  unfold bind at 1. unfold read_events. rewrite Hfile, split_lines_rows.
  assert (Hslice : slice (map Row ss) (- n) = map Row (drop (Z.to_nat (- n)) ss)).
  { unfold slice. destruct (Z.ltb_spec (- n) 0) as [|_]; [lia|].
    rewrite length_map, <- skipn_map.
    destruct (Z.le_ge_cases (- n) (Z.of_nat (length ss))) as [Hle|Hge].
    - rewrite Z.min_l by lia. reflexivity.
    - rewrite Z.min_r by lia. rewrite Nat2Z.id.
      rewrite !skipn_all2; [reflexivity | rewrite length_map; lia
                           | rewrite length_map; lia]. }
  rewrite Hslice. unfold bind. rewrite mapM_parse_rows.
  rewrite length_skipn. reflexivity.
Qed.

Lemma recent_events_negative_limit_witness :
  get_recent (Some "-1") (store_of (map Row mixed_ids))
  = (Return (Response 200
       (PRecent (length mixed_ids - Z.to_nat (- -1))
                (drop (Z.to_nat (- -1)) mixed_ids))),
     store_of (map Row mixed_ids)).
Proof.
  apply (recent_events_negative_limit "-1" (-1) mixed_ids
           (store_of (map Row mixed_ids))).
  - reflexivity.
  - reflexivity.
  - lia.
Defined.

(** A log without a line (an empty file, or empty lines only) is not an
    error: the three reading handlers answer 200 with zero counts and
    empty lists, the dashboard averages are 0, and the analyzer prints
    its no-data notice and stops. *)
Theorem empty_log_answers clock query_limit userId data w :
  events_file w = Some data ->
  split_lines data = [] ->
  get_recent query_limit w = (Return (Response 200 (PRecent 0 [])), w)
  /\ get_user userId w = (Return (Response 200 (PUser userId 0 0 [])), w)
  /\ fst (get_dashboard clock w)
     = Return (Response 200 (PDashboard (empty_dashboard (clock (ticks w)))))
  /\ analyzeData (Some data) = [NoData].
Proof.
  intros Hfile Hlines. repeat split.
  - unfold get_recent, try_catch. unfold bind at 1. unfold read_events.
    rewrite Hfile, Hlines. unfold slice. cbn [length].
    rewrite drop_nil. reflexivity.
  - unfold get_user, try_catch. unfold bind at 1. unfold read_events.
    rewrite Hfile, Hlines. reflexivity.
  - unfold get_dashboard, try_catch. unfold bind at 1. unfold read_events.
    rewrite Hfile, Hlines. reflexivity.
  - unfold analyzeData, analyze, try_catch. unfold bind at 1. unfold ret at 1.
    rewrite Hlines. reflexivity.
Qed.

Lemma empty_log_answers_witness :
  get_recent (Some "5") fresh_store = (Return (Response 200 (PRecent 0 [])), fresh_store)
  /\ get_user "u1" fresh_store
     = (Return (Response 200 (PUser "u1" 0 0 [])), fresh_store)
  /\ fst (get_dashboard sample_clock fresh_store)
     = Return (Response 200
         (PDashboard (empty_dashboard (sample_clock (ticks fresh_store)))))
  /\ analyzeData (Some []) = [NoData].
Proof.
  apply (empty_log_answers sample_clock (Some "5") "u1" [] fresh_store);
    reflexivity.
Defined.

(** A missing log file is an error, unlike an empty one: each reading
    handler answers 500 with its own message and changes nothing, and
    the analyzer prints its file-not-found notice. *)
Theorem missing_log_answers clock query_limit userId w :
  events_file w = None ->
  get_recent query_limit w
    = (Return (Response 500 (PError "Failed to read events")), w)
  /\ get_user userId w
    = (Return (Response 500 (PError "Failed to read user data")), w)
  /\ get_dashboard clock w
    = (Return (Response 500 (PError "Failed to generate dashboard")), w)
  /\ analyzeData (events_file w) = [FileNotFound].
Proof.
  intros Hfile. repeat split.
  - unfold get_recent, try_catch. unfold bind at 1. unfold read_events.
    rewrite Hfile. reflexivity.
  - unfold get_user, try_catch. unfold bind at 1. unfold read_events.
    rewrite Hfile. reflexivity.
  - unfold get_dashboard, try_catch. unfold bind at 1. unfold read_events.
    rewrite Hfile. reflexivity.
  - rewrite Hfile. reflexivity.
Qed.

Lemma missing_log_answers_witness :
  get_recent None empty_disk
    = (Return (Response 500 (PError "Failed to read events")), empty_disk)
  /\ get_user "u1" empty_disk
    = (Return (Response 500 (PError "Failed to read user data")), empty_disk)
  /\ get_dashboard sample_clock empty_disk
    = (Return (Response 500 (PError "Failed to generate dashboard")), empty_disk)
  /\ analyzeData (events_file empty_disk) = [FileNotFound].
Proof.
  apply (missing_log_answers sample_clock None "u1" empty_disk). reflexivity.
Defined.

(* ===================================================================== *)
(** * Numbers written and read back                                       *)
(* ===================================================================== *)

Lemma digit_char_cases d :
  is_digit d ->
  d = 0 \/ d = 1 \/ d = 2 \/ d = 3 \/ d = 4 \/ d = 5 \/ d = 6 \/ d = 7
  \/ d = 8 \/ d = 9.
Proof. unfold is_digit. lia. Qed.

Ltac each_digit H :=
  destruct (digit_char_cases _ H)
    as [->|[->|[->|[->|[->|[->|[->|[->|[->| ->]]]]]]]]].

Lemma digit_of_digit_char d : is_digit d -> digit_of 10 (digit_char d) = Some d.
Proof. intros H. each_digit H; reflexivity. Qed.

Lemma digit_char_solid d : is_digit d -> solid (digit_char d) = true.
Proof. intros H. each_digit H; reflexivity. Qed.

Lemma digit_char_not_sign d :
  is_digit d ->
  Ascii.eqb (digit_char d) "-" = false /\ Ascii.eqb (digit_char d) "+" = false.
Proof. intros H. each_digit H; split; reflexivity. Qed.

Lemma digit_char_not_prefix d :
  is_digit d ->
  (Ascii.eqb (digit_char d) "x" || Ascii.eqb (digit_char d) "X")%bool = false
  /\ (Ascii.eqb (digit_char d) "o" || Ascii.eqb (digit_char d) "O")%bool = false
  /\ (Ascii.eqb (digit_char d) "b" || Ascii.eqb (digit_char d) "B")%bool = false.
Proof. intros H. each_digit H; repeat split; reflexivity. Qed.

Lemma digits_value_snoc radix ds d :
  digits_value radix (ds ++ [d]) = digits_value radix ds * radix + d.
Proof. unfold digits_value. now rewrite fold_left_app. Qed.

Lemma span_digits_all ds :
  Forall is_digit ds -> span_digits 10 (map digit_char ds) = (ds, []).
Proof.
  induction 1 as [|d ds Hd _ IH]; [reflexivity|].
  cbn [map span_digits]. now rewrite (digit_of_digit_char d Hd), IH.
Qed.

(** The digits that [pretty] writes for a natural number. *)
Lemma pretty_N_go_chars x s :
  exists ds,
    Forall is_digit ds
    /\ digits_value 10 ds = Z.of_N x
    /\ ((0 < x)%N -> ds <> [])
    /\ chars (pretty_N_go x s) = map digit_char ds ++ chars s.
Proof.
  revert s. induction (N.lt_wf_0 x) as [x _ IH]; intros s.
  destruct (N.eq_dec x 0%N) as [->|Hx].
  - exists []. rewrite pretty_N_go_0. repeat split; [constructor | lia].
  - rewrite pretty_N_go_step by lia.
    destruct (IH (x `div` 10)%N) with (s := String (pretty_N_char (x `mod` 10)) s)
      as (ds & Hds & Hval & _ & Hchars).
    { apply N.div_lt; lia. }
    exists (ds ++ [Z.of_N (x `mod` 10)]).
    assert (Hmod : (x `mod` 10 < 10)%N) by (apply N.mod_lt; lia).
    repeat split.
    + apply Forall_app. split; [assumption|]. constructor; [|constructor].
      unfold is_digit. clear -Hmod. revert Hmod.
      generalize (x `mod` 10)%N. intros m Hm. lia.
    + rewrite digits_value_snoc, Hval.
      pose proof (N.div_mod x 10%N) as Hdm. clear -Hdm. revert Hdm.
      generalize (x `mod` 10)%N (x `div` 10)%N. intros m q Hdm.
      specialize (Hdm ltac:(discriminate)). lia.
    + intros _ Hnil. now apply app_eq_nil in Hnil as [_ ?].
    + rewrite Hchars, map_app, <- app_assoc. cbn [map app chars list_ascii_of_string].
      unfold digit_char. now rewrite N2Z.id.
Qed.

(** The characters of [ToString] of an integer: an optional minus sign
    and the decimal digits of its absolute value. *)
Lemma pretty_Z_chars z :
  exists ds,
    Forall is_digit ds /\ ds <> []
    /\ digits_value 10 ds = Z.abs z
    /\ chars (pretty z)
       = (if z <? 0 then ["-"%char] else []) ++ map digit_char ds.
Proof.
  assert (Hpos : forall p, exists ds,
            Forall is_digit ds /\ ds <> []
            /\ digits_value 10 ds = Z.pos p
            /\ chars (pretty (N.pos p)) = map digit_char ds).
  { intros p. unfold pretty, pretty_N.
    destruct (decide (N.pos p = 0%N)) as [|_]; [discriminate|].
    destruct (pretty_N_go_chars (N.pos p) "") as (ds & Hds & Hval & Hne & Hchars).
    exists ds. repeat split; auto.
    - apply Hne. lia.
    - rewrite Hchars. cbn. now rewrite app_nil_r. }
  destruct z as [|p|p].
  - exists [0]. repeat split; [repeat constructor; unfold is_digit; lia | discriminate].
  - destruct (Hpos p) as (ds & ? & ? & ? & Hc). exists ds.
    repeat split; auto.
  - destruct (Hpos p) as (ds & ? & ? & ? & Hc). exists ds.
    repeat split; auto.
    change (chars (pretty (Z.neg p)))
      with ("-"%char :: chars (pretty (N.pos p))).
    now rewrite Hc.
Qed.

Lemma solid_cases c :
  solid c = true -> is_ws c = false /\ 0 <= byte c < 128.
Proof.
  unfold solid. intros H. apply andb_true_iff in H. destruct H as [Hb Hw].
  apply Z.ltb_lt in Hb. apply negb_true_iff in Hw.
  split; [assumption|]. unfold byte in *. lia.
Qed.

Ltac byte_differs :=
  repeat match goal with
         | |- context [?x =? ?k] =>
             let H := fresh in
             destruct (Z.eqb_spec x k) as [H|_]; [exfalso; lia|]
         | |- context [?k <=? ?x] =>
             let H := fresh in
             destruct (Z.leb_spec k x) as [H|_]; [exfalso; lia|]
         end.

(** No white space begins with a solid byte, and none ends with one. *)
Lemma after_space_solid c cs : solid c = true -> after_space (c :: cs) = None.
Proof.
  intros H. destruct (solid_cases c H) as (Hw & Hb).
  unfold after_space. rewrite Hw.
  destruct cs as [|c1 [|c2 cs]]; [reflexivity| |];
    unfold is_ws2, is_ws3; byte_differs; reflexivity.
Qed.

Lemma before_space_solid c cs : solid c = true -> before_space (c :: cs) = None.
Proof.
  intros H. destruct (solid_cases c H) as (Hw & Hb).
  unfold before_space. rewrite Hw.
  destruct cs as [|c1 [|c2 cs]]; [reflexivity| |];
    unfold is_ws2, is_ws3; byte_differs;
    rewrite ?andb_false_r, ?orb_false_r; reflexivity.
Qed.

Lemma trim_start_solid c cs : solid c = true -> trim_start (c :: cs) = c :: cs.
Proof.
  intros H. unfold trim_start. cbn [length skip].
  now rewrite after_space_solid.
Qed.

Lemma trim_solid cs :
  Forall (fun c => solid c = true) cs -> trim cs = cs.
Proof.
  intros Hall. unfold trim. destruct cs as [|c cs]; [reflexivity|].
  inversion Hall as [|? ? Hc _]; subst.
  rewrite (trim_start_solid c cs Hc).
  assert (Hrev : Forall (fun c => solid c = true) (rev (c :: cs))).
  { apply Forall_forall. intros x Hx.
    apply list_elem_of_In, in_rev, list_elem_of_In in Hx.
    rewrite Forall_forall in Hall. now apply Hall. }
  destruct (rev (c :: cs)) as [|c' t] eqn:Ht.
  - apply (f_equal (@length _)) in Ht. rewrite length_rev in Ht. discriminate.
  - inversion Hrev as [|? ? Hc' _]; subst. cbn [length skip].
    rewrite (before_space_solid c' t Hc'), <- Ht. apply rev_involutive.
Qed.

Lemma parseInt_digits s (neg : bool) ds :
  chars s = (if neg then ["-"%char] else []) ++ map digit_char ds ->
  Forall is_digit ds -> ds <> [] ->
  parseInt s = Some (if neg then - digits_value 10 ds else digits_value 10 ds).
Proof.
  intros Hchars Hds Hne. unfold parseInt. rewrite Hchars.
  destruct ds as [|d ds]; [congruence|].
  pose proof (span_digits_all (d :: ds) Hds) as Hspan.
  inversion Hds as [|? ? Hd Hds']; subst.
  destruct (digit_char_not_sign d Hd) as (Hm & Hp).
  assert (Hradix :
    match map digit_char ds with
    | [] => (10, digit_char d :: map digit_char ds)
    | c1 :: r =>
        if (Ascii.eqb (digit_char d) "0"
            && (Ascii.eqb c1 "x" || Ascii.eqb c1 "X"))%bool
        then (16, r)
        else (10, digit_char d :: map digit_char ds)
    end = (10, digit_char d :: map digit_char ds)).
  { destruct ds as [|d' ds]; cbn [map]; [reflexivity|].
    inversion Hds' as [|? ? Hd' _]; subst.
    destruct (digit_char_not_prefix d' Hd') as (-> & _).
    now rewrite andb_false_r. }
  destruct neg; cbn [app map].
  - rewrite trim_start_solid by reflexivity.
    cbn [Ascii.eqb Bool.eqb]. rewrite Hradix.
    change (digit_char d :: map digit_char ds) with (map digit_char (d :: ds)).
    rewrite Hspan. reflexivity.
  - rewrite trim_start_solid by (now apply digit_char_solid).
    rewrite Hm, Hp, Hradix.
    change (digit_char d :: map digit_char ds) with (map digit_char (d :: ds)).
    rewrite Hspan. reflexivity.
Qed.

(** [parseInt(String(z))] is [z]. *)
Lemma parseInt_pretty z : parseInt (pretty z) = Some z.
Proof.
  destruct (pretty_Z_chars z) as (ds & Hds & Hne & Hval & Hchars).
  rewrite (parseInt_digits (pretty z) (z <? 0) ds Hchars Hds Hne), Hval.
  f_equal. destruct (Z.ltb_spec z 0); lia.
Qed.

Lemma digit_char_not_I d : is_digit d -> digit_char d <> "I"%char.
Proof. intros H. each_digit H; discriminate. Qed.

Lemma unsigned_decimal_digits ds :
  Forall is_digit ds -> ds <> [] -> safe (digits_value 10 ds) ->
  unsigned_decimal (map digit_char ds) = Fin (inject_Z (digits_value 10 ds)).
Proof.
  intros Hds Hne Hsafe. unfold unsigned_decimal.
  destruct (decide (map digit_char ds = chars "Infinity")) as [Heq|_].
  { destruct ds as [|d ds]; [congruence|]. inversion Hds; subst.
    injection Heq as Heq _. now apply digit_char_not_I in Heq. }
  rewrite (span_digits_all ds Hds).
  destruct ds as [|d ds]; [congruence|].
  cbn [exponent_part length]. rewrite app_nil_r.
  unfold scale10. cbn [Z.of_nat Z.sub Z.opp Z.add Z.leb Z.compare].
  rewrite Z.pow_0_r, Z.mul_1_r. now apply round_double_safe.
Qed.

Lemma StringToNumber_digits s (neg : bool) ds :
  chars s = (if neg then ["-"%char] else []) ++ map digit_char ds ->
  Forall is_digit ds -> ds <> [] -> safe (digits_value 10 ds) ->
  StringToNumber s
  = Fin (inject_Z (if neg then - digits_value 10 ds else digits_value 10 ds)).
Proof.
  intros Hchars Hds Hne Hsafe. unfold StringToNumber. rewrite Hchars.
  assert (Hsolid : Forall (fun c => solid c = true) (map digit_char ds)).
  { apply Forall_forall. intros c Hc. apply list_elem_of_In, in_map_iff in Hc.
    destruct Hc as (d & <- & Hd). apply digit_char_solid.
    rewrite Forall_forall in Hds. now apply Hds, list_elem_of_In. }
  rewrite trim_solid by (destruct neg; [constructor; [reflexivity|]|]; exact Hsolid).
  pose proof (unsigned_decimal_digits ds Hds Hne Hsafe) as Hdec.
  destruct ds as [|d ds]; [congruence|].
  inversion Hds as [|? ? Hd Hds']; subst.
  destruct (digit_char_not_sign d Hd) as (Hm & Hp).
  destruct neg; cbn [app map] in *.
  - cbn [Ascii.eqb Bool.eqb andb]. rewrite Hdec. cbn [negate].
    change (- inject_Z (digits_value 10 (d :: ds)))%Q
      with (inject_Z (- digits_value 10 (d :: ds))).
    now rewrite Qred_inject_Z.
  - destruct ds as [|d' ds]; cbn [map] in *; [exact Hdec|].
    inversion Hds' as [|? ? Hd' _]; subst.
    destruct (digit_char_not_prefix d' Hd') as (-> & -> & ->).
    rewrite !andb_false_r, Hm, Hp. exact Hdec.
Qed.

(** [Number(String(z))] is [z], for [z] below 2^53. *)
Lemma StringToNumber_pretty z :
  safe z -> StringToNumber (pretty z) = Fin (inject_Z z).
Proof.
  intros Hz.
  destruct (pretty_Z_chars z) as (ds & Hds & Hne & Hval & Hchars).
  rewrite (StringToNumber_digits (pretty z) (z <? 0) ds Hchars Hds Hne).
  - rewrite Hval. do 2 f_equal. destruct (Z.ltb_spec z 0); lia.
  - rewrite Hval. unfold safe in *. lia.
Qed.

(** A number is loosely equal to the decimal text of a number exactly
    when the two numbers are the same. *)
Lemma loose_eq_number_text m n :
  safe n -> loose_eq (VNum m) (VStr (pretty n)) = (m =? n).
Proof.
  intros Hn. unfold loose_eq. cbn [bool_to_num].
  rewrite StringToNumber_pretty by assumption.
  cbn [number_eqb]. apply inject_Z_eqb.
Qed.

Lemma get_user_rows userId ss w :
  events_file w = Some (map Row ss) ->
  get_user userId w
  = (Return (Response 200
       (PUser userId (length (matching userId ss))
              (length (flat_map events (matching userId ss)))
              (matching userId ss))), w).
Proof.
  intros Hfile. unfold get_user, try_catch. unfold bind at 1.
  unfold read_events. rewrite Hfile, split_lines_rows.
  unfold bind. now rewrite mapM_parse_rows.
Qed.

(** The rollup asked for the decimal text of an integer [n] below 2^53
    in absolute value (the integers that [String] writes with all their
    digits and that [Number] reads back exactly) answers with the
    sessions stored under the number [n] and with those stored under
    that text, and with no session stored under another number. *)
Theorem user_rollup_numeric_id n ss w :
  events_file w = Some (map Row ss) ->
  ids_are_doubles ss ->
  safe n ->
  fst (get_user (pretty n) w)
  = Return (Response 200
      (PUser (pretty n) (length (matching (pretty n) ss))
             (length (flat_map events (matching (pretty n) ss)))
             (matching (pretty n) ss)))
  /\ (forall s, In s ss ->
                user_id s = VNum n \/ user_id s = VStr (pretty n) ->
                In s (matching (pretty n) ss))
  /\ (forall s m, In s (matching (pretty n) ss) -> user_id s = VNum m -> m = n).
Proof.
  intros Hfile _ Hn. split; [|split].
  - now rewrite (get_user_rows (pretty n) ss w Hfile).
  - intros s Hin Hid. unfold matching. apply filter_In. split; [assumption|].
    destruct Hid as [-> | ->].
    + rewrite loose_eq_number_text by assumption. apply Z.eqb_refl.
    + cbn. apply String.eqb_refl.
  - intros s m Hin Hid. unfold matching in Hin. apply filter_In in Hin.
    destruct Hin as [_ Hl].
    rewrite Hid, loose_eq_number_text in Hl by assumption.
    now apply Z.eqb_eq.
Qed.

Lemma user_rollup_numeric_id_witness :
  fst (get_user (pretty 42) (store_of (map Row mixed_ids)))
  = Return (Response 200
      (PUser (pretty 42) (length (matching (pretty 42) mixed_ids))
             (length (flat_map events (matching (pretty 42) mixed_ids)))
             (matching (pretty 42) mixed_ids)))
  /\ (forall s, In s mixed_ids ->
                user_id s = VNum 42 \/ user_id s = VStr (pretty 42) ->
                In s (matching (pretty 42) mixed_ids))
  /\ (forall s m, In s (matching (pretty 42) mixed_ids) ->
                  user_id s = VNum m -> m = 42).
Proof.
  apply (user_rollup_numeric_id 42 mixed_ids (store_of (map Row mixed_ids))).
  - reflexivity.
  - repeat constructor.
  - unfold safe. lia.
Defined.

(** What a rollup can return: the sessions answered are sessions of the
    log, in the order of the log; a session without [user_id] (absent or
    [null]) is never among them, whatever is asked; and a session stored
    under a text is answered only for that very text. *)
Theorem user_rollup_selects userId ss w :
  events_file w = Some (map Row ss) ->
  exists found,
    fst (get_user userId w)
      = Return (Response 200 (PUser userId (length found)
                                    (length (flat_map events found)) found))
    /\ sublist found ss
    /\ (forall s, In s found -> user_id s <> VUndef /\ user_id s <> VNull)
    /\ (forall s text, In s found -> user_id s = VStr text -> text = userId).
Proof.
  intros Hfile. exists (matching userId ss).
  rewrite (get_user_rows userId ss w Hfile). split; [reflexivity|].
  split; [|split].
  - unfold matching. clear Hfile. induction ss as [|s ss IH]; [constructor|].
    cbn [List.filter].
    destruct (loose_eq (user_id s) (VStr userId));
      [apply sublist_skip | apply sublist_cons]; exact IH.
  - intros s Hin. apply filter_In in Hin. destruct Hin as [_ Hl].
    split; intros Hid; rewrite Hid in Hl; discriminate.
  - intros s text Hin Hid. apply filter_In in Hin. destruct Hin as [_ Hl].
    rewrite Hid in Hl. cbn in Hl. now apply String.eqb_eq in Hl.
Qed.

Lemma user_rollup_selects_witness :
  exists found,
    fst (get_user "42" (store_of (map Row mixed_ids)))
      = Return (Response 200 (PUser "42" (length found)
                                    (length (flat_map events found)) found))
    /\ sublist found mixed_ids
    /\ (forall s, In s found -> user_id s <> VUndef /\ user_id s <> VNull)
    /\ (forall s text, In s found -> user_id s = VStr text -> text = "42").
Proof.
  apply (user_rollup_selects "42" mixed_ids (store_of (map Row mixed_ids))).
  reflexivity.
Defined.

(* ===================================================================== *)
(** * The dashboard                                                       *)
(* ===================================================================== *)

Lemma bump_lookup key m k :
  default 0%nat (bump key m !! k)
  = (default 0%nat (m !! k) + (if String.eqb key k then 1 else 0))%nat.
Proof.
  unfold bump. rewrite lookup_insert.
  destruct (decide (key = k)) as [->|Hne].
  - rewrite String.eqb_refl. reflexivity.
  - apply String.eqb_neq in Hne. rewrite Hne. cbn. lia.
Qed.

Lemma fold_bump_lookup {A} (key : A -> string) l m k :
  default 0%nat (fold_left (fun m x => bump (key x) m) l m !! k)
  = (default 0%nat (m !! k)
     + length (List.filter (fun x => String.eqb (key x) k) l))%nat.
Proof.
  revert m. induction l as [|x l IH]; intros m; cbn [fold_left List.filter].
  - cbn. lia.
  - rewrite IH, bump_lookup. destruct (String.eqb (key x) k); cbn [length]; lia.
Qed.

(** [eventsByType[k]] is the number of elements counted under [k]. *)
Lemma count_by_lookup {A} (key : A -> string) l k :
  default 0%nat (count_by key l !! k)
  = length (List.filter (fun x => String.eqb (key x) k) l).
Proof. unfold count_by. rewrite fold_bump_lookup, lookup_empty. reflexivity. Qed.

(** The text of a number is never the name [calculation_performed]. *)
Lemma pretty_not_calculation (z : Z) : pretty z <> "calculation_performed".
Proof.
  intros Heq. destruct (pretty_Z_chars z) as (ds & Hds & Hne & _ & Hchars).
  rewrite Heq in Hchars. destruct ds as [|d ds]; [congruence|].
  inversion Hds as [|? ? Hd _]; subst.
  destruct (z <? 0); cbn in Hchars; [discriminate|].
  injection Hchars as Hc _. each_digit Hd; discriminate.
Qed.

Lemma is_event_counted_as e :
  is_event "calculation_performed" e = counted_as "calculation_performed" e.
Proof.
  unfold is_event, counted_as, strict_eq.
  destruct (event_name e) as [| |[|]|z|s]; try reflexivity.
  - cbn [ToString]. symmetry. apply String.eqb_neq, pretty_not_calculation.
  - cbn [ToString]. destruct (String.eqb_spec s "calculation_performed") as [->|Hne].
    + now apply bool_decide_eq_true.
    + apply bool_decide_eq_false. congruence.
Qed.

Lemma filter_ext_length {A} (p q : A -> bool) l :
  (forall x, p x = q x) ->
  length (List.filter p l) = length (List.filter q l).
Proof.
  intros H. induction l as [|x l IH]; cbn; [reflexivity|].
  rewrite H. destruct (q x); cbn; now rewrite IH.
Qed.

Lemma remove_dups_length (l : list value) : (length (remove_dups l) <= length l)%nat.
Proof.
  induction l as [|x l IH]; cbn; [lia|].
  destruct (decide_rel elem_of x l); cbn; lia.
Qed.

Section DashboardRuns.

Context {St : Type}.
Variable key : string.

Lemma dashboard_sum_defined calcs b (s : St) :
  Forall (fun e => properties e <> None) calcs ->
  exists total,
    foldM (fun sum e =>
             p <- or_type_error "Cannot read properties of undefined"
                    (property key e) ;;
             ret (add sum (or_else p (VNum 0))))%js
          calcs b s
    = (Return total, s).
Proof.
  intros Hall. revert b. induction Hall as [|e calcs He _ IH]; intros b.
  - exists b. reflexivity.
  - cbn [foldM]. unfold bind at 1. unfold bind at 1. unfold property.
    destruct (properties e) as [props|]; [|congruence].
    cbn [or_type_error]. unfold ret at 1. unfold ret at 1. apply IH.
Qed.

Lemma dashboard_average_defined calcs (s : St) :
  Forall (fun e => properties e <> None) calcs ->
  exists x, dashboard_average key calcs s = (Return x, s).
Proof.
  intros Hall. unfold dashboard_average.
  destruct (0 <? length calcs)%nat; [|eexists; reflexivity].
  unfold bind at 1.
  destruct (dashboard_sum_defined calcs (ANum 0) s Hall) as (total & ->).
  eexists. reflexivity.
Qed.

Lemma dashboard_sum_throws calcs b (s : St) :
  Exists (fun e => properties e = None) calcs ->
  exists err,
    foldM (fun sum e =>
             p <- or_type_error "Cannot read properties of undefined"
                    (property key e) ;;
             ret (add sum (or_else p (VNum 0))))%js
          calcs b s
    = (Throw err, s).
Proof.
  intros Hex. revert b. induction calcs as [|e calcs IH]; intros b.
  - inversion Hex.
  - cbn [foldM]. unfold bind at 1. unfold bind at 1. unfold property.
    destruct (properties e) as [props|] eqn:Hp.
    + cbn [or_type_error]. unfold ret at 1. unfold ret at 1. apply IH.
      inversion Hex as [? ? Hhd|]; subst; [congruence | assumption].
    + eexists. reflexivity.
Qed.

Lemma dashboard_average_throws calcs (s : St) :
  Exists (fun e => properties e = None) calcs ->
  exists err, dashboard_average key calcs s = (Throw err, s).
Proof.
  intros Hex. unfold dashboard_average.
  destruct calcs as [|e calcs]; [inversion Hex|].
  cbn [length Nat.ltb Nat.leb]. unfold bind at 1.
  destruct (dashboard_sum_throws (e :: calcs) (ANum 0) s Hex) as (err & ->).
  eexists. reflexivity.
Qed.

End DashboardRuns.

(** On a log whose lines all decode, whose calculation events all carry
    properties and whose event names are not members of
    [Object.prototype], the dashboard answers 200 and reads the clock
    once; it reports the number of lines as sessions and the number of
    their events, a per-name count that is for every name the number of
    events counted under it, a total of calculations equal to the count
    kept under [calculation_performed], and at most as many unique
    users as sessions. *)
Theorem dashboard_of_log clock ss w :
  events_file w = Some (map Row ss) ->
  calculations_carry_properties ss ->
  plain_names ss ->
  exists d,
    get_dashboard clock w = (Return (Response 200 (PDashboard d)), advance 1 w)
    /\ dash_total_sessions d = length ss
    /\ dash_total_events d = length (flat_map events ss)
    /\ (forall name,
          default 0%nat (events_by_type d !! name)
          = length (List.filter (counted_as name) (flat_map events ss)))
    /\ calculations_total d
       = default 0%nat (events_by_type d !! "calculation_performed")
    /\ (dash_unique_users d <= dash_total_sessions d)%nat
    /\ last_updated d = clock (ticks w).
Proof.
  intros Hfile Hprops _.
  set (evs := flat_map events ss).
  set (calcs := List.filter (is_event "calculation_performed") evs).
  assert (Hall : Forall (fun e => properties e <> None) calcs).
  { apply Forall_forall. intros e He. apply list_elem_of_In, filter_In in He.
    destruct He as (Hin & Hcalc). apply in_flat_map in Hin.
    destruct Hin as (s & Hs & He). eauto. }
  destruct (dashboard_average_defined "price" calcs w Hall) as (p & Hp).
  destruct (dashboard_average_defined "rate" calcs w Hall) as (r & Hr).
  eexists. split.
  - unfold get_dashboard, try_catch. unfold bind at 1. unfold read_events.
    rewrite Hfile, split_lines_rows. unfold bind at 1. rewrite mapM_parse_rows.
    unfold bind at 1. fold evs. fold calcs. rewrite Hp.
    unfold bind at 1. rewrite Hr.
    unfold bind at 1. unfold new_Date, ret, advance.
    do 3 f_equal. rewrite Nat.add_1_r. reflexivity.
  - cbn. repeat split.
    + intros name. apply count_by_lookup.
    + rewrite count_by_lookup. apply filter_ext_length, is_event_counted_as.
    + unfold set_size.
      etransitivity; [apply remove_dups_length|].
      etransitivity; [apply filter_length_le|]. now rewrite length_map.
Qed.

Lemma dashboard_of_log_witness :
  exists d,
    get_dashboard sample_clock (store_of half_priced_log)
    = (Return (Response 200 (PDashboard d)), advance 1 (store_of half_priced_log))
    /\ dash_total_sessions d = length (rows half_priced_log)
    /\ dash_total_events d = length (flat_map events (rows half_priced_log))
    /\ (forall name,
          default 0%nat (events_by_type d !! name)
          = length (List.filter (counted_as name)
                      (flat_map events (rows half_priced_log))))
    /\ calculations_total d
       = default 0%nat (events_by_type d !! "calculation_performed")
    /\ (dash_unique_users d <= dash_total_sessions d)%nat
    /\ last_updated d = sample_clock (ticks (store_of half_priced_log)).
Proof.
  apply (dashboard_of_log sample_clock (rows half_priced_log)
           (store_of half_priced_log)).
  - reflexivity.
  - intros s e [<-|[]] [<-|[<-|[]]] _; discriminate.
  - intros s e [<-|[]] [<-|[<-|[]]] Hin; cbn in Hin;
      repeat (destruct Hin as [Hin|Hin]; [discriminate|]); exact Hin.
Defined.

Lemma property_reads_throw {St} key calcs (s : St) :
  Exists (fun e => properties e = None) calcs ->
  mapM (fun c => or_type_error "Cannot read properties of undefined"
                   (property key c)) calcs s
  = (Throw (TypeError "Cannot read properties of undefined"), s).
Proof.
  intros Hex. induction calcs as [|e calcs IH]; [inversion Hex|].
  cbn [mapM]. unfold bind at 1. unfold property at 1.
  destruct (properties e) as [props|] eqn:Hp.
  - cbn [or_type_error]. unfold ret at 1. unfold bind at 1.
    rewrite IH; [reflexivity|].
    inversion Hex as [? ? Hhd|]; subst; [congruence | assumption].
  - reflexivity.
Qed.

Lemma bare_calculation_found ss :
  has_bare_calculation ss ->
  Exists (fun e => properties e = None)
         (List.filter (is_event "calculation_performed") (flat_map events ss)).
Proof.
  intros (s & e & Hs & He & Hcalc & Hp). apply Exists_exists. exists e.
  split; [|assumption]. apply list_elem_of_In, filter_In. split; [|assumption].
  apply in_flat_map. eauto.
Qed.

Lemma bare_calculation_aborts clock ss w :
  events_file w = Some (map Row ss) ->
  has_bare_calculation ss ->
  get_dashboard clock w
    = (Return (Response 500 (PError "Failed to generate dashboard")), w)
  /\ analyzeData (events_file w)
     = [TotalSessions (set_size (map session_id ss));
        UniqueUsers (set_size (List.filter truthy (map user_id ss)));
        TotalEvents (length (flat_map events ss));
        EventsPerSession (toFixed 2
          (div (of_nat (length (flat_map events ss)))
               (of_nat (set_size (map session_id ss)))));
        EventTypes (count_by (fun e => ToString (event_name e))
                             (flat_map events ss));
        AnalysisError].
Proof.
  intros Hfile Hbare. pose proof (bare_calculation_found ss Hbare) as Hex.
  split.
  - unfold get_dashboard, try_catch. unfold bind at 1. unfold read_events.
    rewrite Hfile, split_lines_rows. unfold bind at 1. rewrite mapM_parse_rows.
    unfold bind at 1.
    destruct (dashboard_average_throws "price" _ w Hex) as (err & ->).
    reflexivity.
  - rewrite Hfile. unfold analyzeData, analyze, try_catch.
    unfold bind at 1. unfold ret at 1. rewrite split_lines_rows.
    destruct ss as [|s0 ss0] eqn:Hss.
    { destruct Hbare as (s & e & [] & _). }
    rewrite <- Hss in *. rewrite length_map.
    replace (length ss =? 0)%nat with false by (rewrite Hss; reflexivity).
    unfold bind at 1. rewrite mapM_parse_rows.
    unfold console_log, modify, bind at 1. cbn [app].
    unfold bind at 1. unfold bind at 1. unfold bind at 1. unfold bind at 1.
    cbn [app].
    set (calcs := List.filter (is_event "calculation_performed") (flat_map events ss)) in *.
    destruct calcs as [|c calcs'] eqn:Hcalcs; [inversion Hex|].
    rewrite <- Hcalcs in *. unfold bind at 1.
    replace (0 <? length calcs)%nat with true by (rewrite Hcalcs; reflexivity).
    unfold when at 1. unfold analyze_calculations. unfold bind at 1.
    unfold truthy_properties at 1. unfold bind at 1.
    rewrite (property_reads_throw "price" calcs _ Hex). reflexivity.
Qed.

(** One calculation event without a [properties] object in the log
    (of events not named like members of [Object.prototype]) makes the
    dashboard answer 500, and makes the analyzer stop after
    its summary and per-name counts with its error line, before any
    figure about calculations, sliders or conversions. *)
Theorem bare_calculation_breaks_reports clock ss w :
  events_file w = Some (map Row ss) ->
  has_bare_calculation ss ->
  plain_names ss ->
  get_dashboard clock w
    = (Return (Response 500 (PError "Failed to generate dashboard")), w)
  /\ analyzeData (events_file w)
     = [TotalSessions (set_size (map session_id ss));
        UniqueUsers (set_size (List.filter truthy (map user_id ss)));
        TotalEvents (length (flat_map events ss));
        EventsPerSession (toFixed 2
          (div (of_nat (length (flat_map events ss)))
               (of_nat (set_size (map session_id ss)))));
        EventTypes (count_by (fun e => ToString (event_name e))
                             (flat_map events ss));
        AnalysisError].
Proof. intros Hfile Hbare _. now apply bare_calculation_aborts. Qed.

Lemma stamped_bare clock n items :
  Exists (fun e => is_event "calculation_performed" e = true
                   /\ properties e = None) items ->
  Exists (fun e => is_event "calculation_performed" e = true
                   /\ properties e = None) (stamped clock n items).
Proof.
  intros Hex. revert n. induction Hex as [e items He | e items _ IH]; intros n.
  - cbn [stamped]. apply Exists_cons_hd. exact He.
  - cbn [stamped]. apply Exists_cons_tl, IH.
Qed.

(** The ingestion does not look into the events: a batch holding a
    calculation event without a [properties] object is accepted, and
    from then on, whatever batches follow, the dashboard answers 500. *)
Theorem accepted_bare_calculation_breaks_dashboard
    clock disk req items later ss w :
  events_file w = Some (map Row ss) ->
  body_events req = FArray items ->
  append_fails disk = false ->
  Exists (fun e => is_event "calculation_performed" e = true
                   /\ properties e = None) items ->
  fst (post_analytics clock disk req w)
    = Return (Response 200 (PReceived true (length items)))
  /\ fst (get_dashboard clock
            (post_all clock later (snd (post_analytics clock disk req w))))
     = Return (Response 500 (PError "Failed to generate dashboard")).
Proof.
  intros Hfile Hev Hdisk Hex.
  rewrite (post_analytics_array clock disk req items w Hev), Hdisk.
  cbn [fst snd]. split; [reflexivity|].
  set (r := enriched clock (ticks w) req items).
  set (w1 := snd (updateStats disk r (with_row r (advance (S (length items)) w)))).
  assert (Hfile1 : events_file w1 = Some (map Row ss ++ [Row r])).
  { destruct (updateStats_cases disk r (with_row r (advance (S (length items)) w)))
      as (Hf & _ & _).
    subst w1. rewrite Hf. cbn. now rewrite Hfile. }
  destruct (post_all_appends clock later w1 _ Hfile1) as (added & Hfinal).
  assert (Hrows : (map Row ss ++ [Row r]) ++ map Row added
                  = map Row (ss ++ r :: added)).
  { rewrite <- app_assoc, map_app. reflexivity. }
  rewrite Hrows in Hfinal.
  assert (Hbare : has_bare_calculation (ss ++ r :: added)).
  { apply (stamped_bare clock (S (ticks w))) in Hex.
    apply Exists_exists in Hex. destruct Hex as (e & He & Hcalc & Hp).
    exists r, e. repeat split; auto.
    - apply in_or_app. right. now left.
    - now apply list_elem_of_In. }
  destruct (bare_calculation_aborts clock _ _ Hfinal Hbare) as [-> _].
  reflexivity.
Qed.

Lemma bare_calculation_breaks_reports_witness :
  let ss := [stored (VStr "u1") [bare_calculation]] in
  get_dashboard sample_clock (store_of (map Row ss))
    = (Return (Response 500 (PError "Failed to generate dashboard")),
       store_of (map Row ss))
  /\ analyzeData (events_file (store_of (map Row ss)))
     = [TotalSessions (set_size (map session_id ss));
        UniqueUsers (set_size (List.filter truthy (map user_id ss)));
        TotalEvents (length (flat_map events ss));
        EventsPerSession (toFixed 2
          (div (of_nat (length (flat_map events ss)))
               (of_nat (set_size (map session_id ss)))));
        EventTypes (count_by (fun e => ToString (event_name e))
                             (flat_map events ss));
        AnalysisError].
Proof.
  apply (bare_calculation_breaks_reports sample_clock
           [stored (VStr "u1") [bare_calculation]]).
  - reflexivity.
  - exists (stored (VStr "u1") [bare_calculation]), bare_calculation.
    repeat split; cbn; auto.
  - intros s e [<-|[]] [<-|[]] Hin; cbn in Hin;
      repeat (destruct Hin as [Hin|Hin]; [discriminate|]); exact Hin.
Defined.

Lemma accepted_bare_calculation_breaks_dashboard_witness :
  let req := Body (VStr "s9") VUndef None (FArray [bare_calculation]) in
  fst (post_analytics sample_clock healthy req (store_of (map Row mixed_ids)))
    = Return (Response 200 (PReceived true (length [bare_calculation])))
  /\ fst (get_dashboard sample_clock
            (post_all sample_clock (map (pair healthy) sample_batches)
               (snd (post_analytics sample_clock healthy req
                       (store_of (map Row mixed_ids))))))
     = Return (Response 500 (PError "Failed to generate dashboard")).
Proof.
  apply (accepted_bare_calculation_breaks_dashboard sample_clock healthy
           (Body (VStr "s9") VUndef None (FArray [bare_calculation]))
           [bare_calculation] (map (pair healthy) sample_batches) mixed_ids
           (store_of (map Row mixed_ids))).
  - reflexivity.
  - reflexivity.
  - reflexivity.
  - apply Exists_cons_hd. split; reflexivity.
Defined.

(* ===================================================================== *)
(** * The ratios of the analyzer                                          *)
(* ===================================================================== *)

Section Emits.

Variable P : report_line -> Prop.

Lemma stateless_emits {A} (c : M (list report_line) A) :
  stateless c -> emits P c.
Proof. intros Hc out Hout. now rewrite Hc. Qed.

Lemma emits_log l : P l -> emits P (console_log l).
Proof.
  intros Hl out Hout. unfold console_log, modify. cbn.
  apply Forall_app. split; [assumption|]. now constructor.
Qed.

Lemma emits_bind_val {A B} (Q : A -> Prop) (c : M (list report_line) A)
    (k : A -> M (list report_line) B) :
  (forall out a, fst (c out) = Return a -> Q a) ->
  emits P c -> (forall a, Q a -> emits P (k a)) -> emits P (bind c k).
Proof.
  intros HQ Hc Hk out Hout. unfold bind.
  specialize (Hc out Hout). specialize (HQ out).
  destruct (c out) as [[a|e] out']; cbn in *; [|assumption].
  apply (Hk a); auto.
Qed.

Lemma emits_bind {A B} (c : M (list report_line) A)
    (k : A -> M (list report_line) B) :
  emits P c -> (forall a, emits P (k a)) -> emits P (bind c k).
Proof.
  intros Hc Hk. apply (emits_bind_val (fun _ => True)); auto.
Qed.

Lemma emits_try_catch {A} (c : M (list report_line) A) h :
  emits P c -> (forall e, emits P (h e)) -> emits P (try_catch c h).
Proof.
  intros Hc Hh out Hout. unfold try_catch. specialize (Hc out Hout).
  destruct (c out) as [[a|e] out']; cbn in *; [assumption|].
  now apply Hh.
Qed.

Lemma emits_when b (c : M (list report_line) unit) :
  (b = true -> emits P c) -> emits P (when b c).
Proof.
  intros Hc. unfold when. destruct b; [now apply Hc|].
  apply stateless_emits, stateless_ret.
Qed.

Lemma emits_truthy_properties key calcs :
  emits P (truthy_properties key calcs).
Proof.
  apply stateless_emits. unfold truthy_properties.
  apply stateless_bind; [|intros; apply stateless_ret].
  apply stateless_mapM. intros c. apply stateless_or_type_error.
Qed.

End Emits.

Lemma mapM_parse_length {St} lines (s : St) ss :
  fst (mapM JSON_parse lines s) = Return ss -> length ss = length lines.
Proof.
  revert ss. induction lines as [|l lines IH]; intros ss H.
  - cbn in H. injection H as <-. reflexivity.
  - cbn [mapM] in H. unfold bind at 1 in H.
    destruct l as [x|t]; cbn [JSON_parse] in H; [|discriminate].
    unfold ret at 1 in H. unfold bind at 1 in H.
    destruct (mapM JSON_parse lines s) as [[ys|e] s'] eqn:E; [|discriminate].
    cbn in H. injection H as <-. cbn. f_equal. now apply IH.
Qed.

Lemma set_size_positive l : l <> [] -> (0 < set_size l)%nat.
Proof.
  intros Hne. unfold set_size. destruct l as [|x l]; [congruence|].
  assert (Hin : x ∈ remove_dups (x :: l)).
  { apply elem_of_remove_dups. now left. }
  destruct (remove_dups (x :: l)); [inversion Hin | cbn; lia].
Qed.

Lemma q_zero_of_nat n : q_zero (inject_Z (Z.of_nat n)) = (n =? 0)%nat.
Proof.
  unfold q_zero. change 0%Q with (inject_Z 0). rewrite inject_Z_eqb.
  destruct n; [reflexivity|]. cbn. reflexivity.
Qed.

Lemma div_of_nat_finite n m : (0 < m)%nat -> finite (div (of_nat n) (of_nat m)).
Proof.
  intros Hm. unfold div, of_nat. rewrite q_zero_of_nat.
  destruct m; [lia|]. cbn [Nat.eqb]. eexists. reflexivity.
Qed.

Lemma mul_finite x y : finite x -> finite y -> finite (mul x y).
Proof. intros [p ->] [q ->]. eexists. reflexivity. Qed.

Lemma emits_analyze_conversions counts sessions_size :
  (0 < sessions_size)%nat ->
  emits ratio_finite (analyze_conversions counts sessions_size).
Proof.
  intros Hsize. unfold analyze_conversions.
  apply emits_bind.
  - apply emits_when. intros Hopened. apply Nat.ltb_lt in Hopened.
    apply emits_bind.
    + apply emits_log. cbn. apply mul_finite.
      * now apply div_of_nat_finite.
      * eexists. reflexivity.
    + intros _. apply emits_when. intros _. apply emits_log. exact I.
  - intros _. apply emits_log. cbn. now apply div_of_nat_finite.
Qed.

Lemma emits_analyze_calculations calcs :
  emits ratio_finite (analyze_calculations calcs).
Proof.
  unfold analyze_calculations.
  repeat (apply emits_bind; [apply emits_truthy_properties | intros ?]).
  repeat (apply emits_bind;
          [first [apply emits_log; exact I
                 | apply emits_when; intros _; apply emits_log; exact I]
          | intros ?]).
  apply emits_when; intros _; apply emits_log; exact I.
Qed.

Lemma emits_analyze_sliders sliders :
  emits ratio_finite (analyze_sliders sliders).
Proof.
  unfold analyze_sliders. apply emits_bind.
  - apply stateless_emits, stateless_mapM. intros e.
    apply stateless_or_type_error.
  - intros counts. apply emits_log. exact I.
Qed.

(** Whatever the log holds, the conversion rate, the events per session
    and the calculations per session that the analyzer prints are
    finite numbers: the first is printed only when some [app_opened]
    event exists, the other two divide by a number of sessions that is
    at least one.  (The share rate is the one ratio without this
    guarantee.) *)
Theorem analyzer_guarded_ratios_finite file :
  Forall ratio_finite (analyzeData file).
Proof.
  unfold analyzeData.
  cut (emits ratio_finite (analyze file)); [intros H; apply H; constructor|].
  unfold analyze. apply emits_try_catch.
  2: { intros e. destruct e as [| |code]; try (apply emits_log; exact I).
       destruct (decide (code = "ENOENT")) as [->|Hne].
       - apply emits_log. exact I.
       - assert (H : (match code with
                      | "ENOENT" => console_log FileNotFound
                      | _ => console_log AnalysisError
                      end) = console_log AnalysisError
                     \/ (match code with
                      | "ENOENT" => console_log FileNotFound
                      | _ => console_log AnalysisError
                      end) = console_log FileNotFound).
         { repeat (destruct code as [|[[] [] [] [] [] [] [] []] code]; auto). }
         destruct H as [-> | ->]; apply emits_log; exact I. }
  apply emits_bind.
  { apply stateless_emits. destruct file; [apply stateless_ret | apply stateless_throw]. }
  intros data.
  destruct (length (split_lines data) =? 0)%nat eqn:Hlen.
  { apply emits_log. exact I. }
  apply Nat.eqb_neq in Hlen.
  apply (emits_bind_val ratio_finite
           (fun ss => length ss = length (split_lines data))).
  { intros out ss. apply mapM_parse_length. }
  { apply stateless_emits, stateless_mapM, stateless_JSON_parse. }
  intros sessions Hss.
  assert (Hsize : (0 < set_size (map session_id sessions))%nat).
  { apply set_size_positive. destruct sessions; [cbn in Hss; lia | discriminate]. }
  repeat (apply emits_bind; [apply emits_log; try exact I | intros _]).
  { cbn. now apply div_of_nat_finite. }
  apply emits_bind.
  { apply emits_when. intros _. apply emits_analyze_calculations. }
  intros _. apply emits_bind.
  { apply emits_when. intros _. apply emits_analyze_sliders. }
  intros _. now apply emits_analyze_conversions.
Qed.

(* ===================================================================== *)
(** * Thousands separators                                                *)
(* ===================================================================== *)

Example formatNumber_forms :
  formatNumber 0 = "0" /\ formatNumber 999 = "999"
  /\ formatNumber 1000 = "1 000" /\ formatNumber 1234567 = "1 234 567"
  /\ formatNumber (-123456) = "-123 456" /\ formatNumber 12345 = "12 345".
Proof. repeat split; reflexivity. Qed.

Lemma digit_char_decimal d :
  is_digit d -> is_decimal (digit_char d) = true /\ is_word (digit_char d) = true
                /\ not_space (digit_char d) = true.
Proof. intros H. each_digit H; repeat split; reflexivity. Qed.

Lemma digit_run_digits ds rest :
  Forall is_digit ds ->
  digit_run (digit_chars ds ++ rest) = (length ds + digit_run rest)%nat.
Proof.
  induction 1 as [|d ds Hd _ IH]; [reflexivity|].
  cbn [digit_chars map app digit_run].
  destruct (digit_char_decimal d Hd) as (-> & _). fold (digit_chars ds).
  rewrite IH. reflexivity.
Qed.

Lemma Forall_three {A} (P : A -> Prop) a b c :
  P a -> P b -> P c -> Forall P [a; b; c].
Proof. intros. repeat (constructor; [assumption|]). constructor. Qed.

Lemma gap_matches_digits prev ds :
  Forall is_digit ds -> ds <> [] ->
  gap_matches prev (digit_chars ds)
  = (match prev with Some p => is_word p | None => false end
     && (length ds mod 3 =? 0)%nat)%bool.
Proof.
  intros Hds Hne. unfold gap_matches.
  pose proof (digit_run_digits ds [] Hds) as Hrun.
  rewrite app_nil_r in Hrun. rewrite Hrun. cbn [digit_run]. rewrite Nat.add_0_r.
  destruct ds as [|d ds]; [congruence|].
  inversion Hds as [|? ? Hd _]; subst.
  cbn [digit_chars map]. destruct (digit_char_decimal d Hd) as (_ & -> & _).
  cbn [length Nat.ltb Nat.leb]. rewrite andb_true_r.
  destruct (match prev with Some p => is_word p | None => false end); reflexivity.
Qed.

Lemma separate_short prev ds :
  Forall is_digit ds -> (length ds <= 2)%nat ->
  separate prev (digit_chars ds) = digit_chars ds.
Proof.
  intros Hds. revert prev. induction Hds as [|d ds Hd Hds IH]; intros prev Hlen;
    [reflexivity|].
  cbn [digit_chars map separate]. fold (digit_chars ds).
  change (digit_char d :: digit_chars ds) with (digit_chars (d :: ds)).
  rewrite gap_matches_digits by (try constructor; auto; discriminate).
  cbn [length] in Hlen |- *.
  replace (S (length ds) mod 3 =? 0)%nat with false.
  - rewrite andb_false_r. cbn [app digit_chars map]. f_equal. apply IH. lia.
  - destruct ds as [|? [|? ?]]; cbn in Hlen |- *; try reflexivity; lia.
Qed.

Lemma separate_cons prev c rest :
  separate prev (c :: rest)
  = (if gap_matches prev (c :: rest) then [" "%char] else [])
    ++ c :: separate (Some c) rest.
Proof. reflexivity. Qed.

Lemma separate_after_digit d a b c :
  is_digit d -> is_digit a -> is_digit b -> is_digit c ->
  separate (Some (digit_char d)) (digit_chars [a; b; c])
  = " "%char :: digit_chars [a; b; c].
Proof.
  intros Hd Ha Hb Hc.
  change (digit_chars [a; b; c]) with (digit_char a :: digit_chars [b; c]) at 1.
  rewrite separate_cons.
  change (digit_char a :: digit_chars [b; c]) with (digit_chars [a; b; c]).
  rewrite gap_matches_digits by (try discriminate; now apply Forall_three).
  destruct (digit_char_decimal d Hd) as (_ & -> & _).
  change (true && (length [a; b; c] mod 3 =? 0)%nat)%bool with true.
  cbn [app]. f_equal.
  change (digit_chars [a; b; c]) with (digit_char a :: digit_chars [b; c]).
  f_equal. apply separate_short; [|cbn; lia].
  constructor; [assumption|constructor; [assumption|constructor]].
Qed.

Lemma separate_append3 prev ds a b c :
  Forall is_digit ds -> ds <> [] ->
  is_digit a -> is_digit b -> is_digit c ->
  separate prev (digit_chars (ds ++ [a; b; c]))
  = separate prev (digit_chars ds) ++ " "%char :: digit_chars [a; b; c].
Proof.
  intros Hds Hne Ha Hb Hc.
  assert (H3 : Forall is_digit [a; b; c]) by now apply Forall_three.
  revert Hne prev.
  induction Hds as [|d ds Hd Hds IH]; intros Hne prev; [congruence|].
  assert (Hgap : gap_matches prev (digit_chars ((d :: ds) ++ [a; b; c]))
                 = gap_matches prev (digit_chars (d :: ds))).
  { rewrite !gap_matches_digits;
      try discriminate; try (constructor; assumption);
      try (apply Forall_app; split; [constructor|]; assumption).
    rewrite length_app. cbn [length]. f_equal.
    replace (S (length ds) + 3)%nat with (S (length ds) + 1 * 3)%nat by lia.
    now rewrite Nat.Div0.mod_add. }
  change (digit_chars ((d :: ds) ++ [a; b; c]))
    with (digit_char d :: digit_chars (ds ++ [a; b; c])) at 1.
  change (digit_chars (d :: ds)) with (digit_char d :: digit_chars ds) at 1.
  rewrite !separate_cons.
  change (digit_char d :: digit_chars (ds ++ [a; b; c]))
    with (digit_chars ((d :: ds) ++ [a; b; c])).
  change (digit_char d :: digit_chars ds) with (digit_chars (d :: ds)).
  rewrite Hgap, <- app_assoc. f_equal. cbn [app]. f_equal.
  destruct ds as [|d' ds].
  - cbn [app]. change (digit_chars []) with (@nil ascii).
    rewrite (separate_after_digit d a b c) by assumption. reflexivity.
  - apply IH. discriminate.
Qed.

Lemma separate_sign ds :
  Forall is_digit ds -> ds <> [] ->
  separate None ("-"%char :: digit_chars ds)
  = "-"%char :: separate None (digit_chars ds).
Proof.
  intros Hds Hne. destruct ds as [|d ds]; [congruence|].
  inversion Hds as [|? ? Hd _]; subst.
  rewrite separate_cons.
  assert (Hg : gap_matches None ("-"%char :: digit_chars (d :: ds)) = false).
  { unfold gap_matches. cbn [digit_run]. change (is_decimal "-") with false.
    cbn [Nat.ltb Nat.leb]. now rewrite andb_false_r. }
  rewrite Hg. reflexivity.
Qed.

(** How [formatNumber] separates: a text of at most three digits gets
    no separator; three more digits after a text of digits add one
    space and the three digits, and change nothing before; a minus sign
    is never followed by a separator. *)
Theorem formatNumber_groups ds :
  Forall is_digit ds -> ds <> [] ->
  ((length ds <= 3)%nat -> separate None (digit_chars ds) = digit_chars ds)
  /\ (forall a b c, is_digit a -> is_digit b -> is_digit c ->
        separate None (digit_chars (ds ++ [a; b; c]))
        = separate None (digit_chars ds) ++ " "%char :: digit_chars [a; b; c])
  /\ separate None ("-"%char :: digit_chars ds)
     = "-"%char :: separate None (digit_chars ds).
Proof.
  intros Hds Hne. split; [|split].
  - intros Hlen. destruct ds as [|d ds]; [congruence|].
    inversion Hds as [|? ? Hd Hds']; subst.
    change (digit_chars (d :: ds)) with (digit_char d :: digit_chars ds).
    rewrite separate_cons.
    change (digit_char d :: digit_chars ds) with (digit_chars (d :: ds)) at 1.
    rewrite gap_matches_digits by (auto; discriminate).
    cbn [andb app]. f_equal. apply separate_short; [assumption | cbn in Hlen; lia].
  - intros a b c Ha Hb Hc. now apply separate_append3.
  - now apply separate_sign.
Qed.

Lemma formatNumber_groups_witness :
  ((length [1; 2] <= 3)%nat -> separate None (digit_chars [1; 2]) = digit_chars [1; 2])
  /\ (forall a b c, is_digit a -> is_digit b -> is_digit c ->
        separate None (digit_chars ([1; 2] ++ [a; b; c]))
        = separate None (digit_chars [1; 2]) ++ " "%char :: digit_chars [a; b; c])
  /\ separate None ("-"%char :: digit_chars [1; 2])
     = "-"%char :: separate None (digit_chars [1; 2]).
Proof.
  apply (formatNumber_groups [1; 2]).
  - repeat constructor; unfold is_digit; lia.
  - discriminate.
Defined.

Lemma separate_head ds :
  Forall is_digit ds -> ds <> [] -> (length ds <= 3)%nat ->
  separate None (digit_chars ds) = digit_chars ds.
Proof.
  intros Hds Hne Hlen. destruct ds as [|d ds]; [congruence|].
  inversion Hds as [|? ? Hd Hds']; subst.
  change (digit_chars (d :: ds)) with (digit_char d :: digit_chars ds).
  rewrite separate_cons.
  change (digit_char d :: digit_chars ds) with (digit_chars (d :: ds)) at 1.
  rewrite gap_matches_digits by (auto; discriminate).
  cbn [andb app]. f_equal. apply separate_short; [assumption | cbn in Hlen; lia].
Qed.

(** A list of more than three elements ends with three of them. *)
Lemma last_three {A} (l : list A) :
  (3 < length l)%nat ->
  exists front a b c, l = front ++ [a; b; c] /\ front <> []
                      /\ length front = (length l - 3)%nat.
Proof.
  intros Hlen.
  pose proof (firstn_skipn (length l - 3) l) as Hsplit.
  pose proof (length_skipn (length l - 3) l) as Hlast.
  pose proof (length_firstn (length l - 3) l) as Hfront.
  destruct (skipn (length l - 3) l) as [|a [|b [|c [|x rest]]]];
    cbn [length] in Hlast; try lia.
  exists (firstn (length l - 3) l), a, b, c.
  split; [now symmetry|]. split; [|lia].
  intros Hnil. rewrite Hnil in Hfront. cbn in Hfront. lia.
Qed.

(** The digits in groups: a first group of one to three digits, then
    groups of three, each after one space. *)
Lemma separate_groups n ds :
  (length ds <= n)%nat -> Forall is_digit ds -> ds <> [] ->
  exists head groups,
    separate None (digit_chars ds)
    = digit_chars head
      ++ concat (map (fun g => " "%char :: digit_chars g) groups)
    /\ ds = head ++ concat groups
    /\ (1 <= length head <= 3)%nat
    /\ Forall (fun g => length g = 3%nat) groups.
Proof.
  revert ds. induction n as [|n IH]; intros ds Hn Hds Hne.
  - destruct ds; [congruence | cbn in Hn; lia].
  - destruct (Nat.le_gt_cases (length ds) 3) as [Hshort | Hlong].
    + exists ds, []. cbn [map concat]. rewrite !app_nil_r.
      split; [now apply separate_head|]. split; [reflexivity|].
      split; [|constructor]. destruct ds; [congruence | cbn in *; lia].
    + destruct (last_three ds Hlong) as (front & a & b & c & -> & Hfne & Hflen).
      apply Forall_app in Hds. destruct Hds as [Hfront Habc].
      inversion Habc as [|? ? Ha Hbc]; subst.
      inversion Hbc as [|? ? Hb Hc']; subst.
      inversion Hc' as [|? ? Hc _]; subst.
      rewrite length_app in Hn, Hflen. cbn [length] in Hn, Hflen.
      destruct (IH front ltac:(lia) Hfront Hfne)
        as (head & groups & Hsep & Hfront_eq & Hhead & Hgroups).
      exists head, (groups ++ [[a; b; c]]).
      rewrite separate_append3 by assumption.
      rewrite Hsep, map_app, !concat_app. cbn [map concat].
      rewrite !app_nil_r, <- !app_assoc.
      split; [reflexivity|]. split; [now rewrite Hfront_eq, <- app_assoc|].
      split; [assumption|].
      apply Forall_app. split; [assumption | now repeat constructor].
Qed.

(** [formatNumber] on an integer below 2^53 in absolute value (where
    [toString] writes all the digits): the sign, a first group of one
    to three digits, then groups of exactly three digits, each after
    one space; the digits are those of the number, in their order. *)
Theorem formatNumber_groups_of_three (num : Z) :
  safe num ->
  exists head groups,
    chars (formatNumber num)
    = (if num <? 0 then ["-"%char] else [])
      ++ digit_chars head
      ++ concat (map (fun g => " "%char :: digit_chars g) groups)
    /\ chars (pretty num)
       = (if num <? 0 then ["-"%char] else [])
         ++ digit_chars (head ++ concat groups)
    /\ Forall is_digit (head ++ concat groups)
    /\ (1 <= length head <= 3)%nat
    /\ Forall (fun g => length g = 3%nat) groups.
Proof.
  intros _.
  destruct (pretty_Z_chars num) as (ds & Hds & Hne & _ & Hchars).
  destruct (separate_groups (length ds) ds (Nat.le_refl _) Hds Hne)
    as (head & groups & Hsep & Heq & Hhead & Hgroups).
  exists head, groups.
  split; [|split; [|split; [|split]]]; try assumption.
  - unfold formatNumber, chars. rewrite list_ascii_of_string_of_list_ascii.
    unfold chars in Hchars. rewrite Hchars. fold (digit_chars ds).
    destruct (num <? 0); cbn [app].
    + rewrite separate_sign by assumption. now rewrite Hsep.
    + exact Hsep.
  - now rewrite Hchars, Heq.
  - now rewrite <- Heq.
Qed.

Lemma formatNumber_groups_of_three_witness :
  exists head groups,
    chars (formatNumber (-1234567))
    = (if -1234567 <? 0 then ["-"%char] else [])
      ++ digit_chars head
      ++ concat (map (fun g => " "%char :: digit_chars g) groups)
    /\ chars (pretty (-1234567))
       = (if -1234567 <? 0 then ["-"%char] else [])
         ++ digit_chars (head ++ concat groups)
    /\ Forall is_digit (head ++ concat groups)
    /\ (1 <= length head <= 3)%nat
    /\ Forall (fun g => length g = 3%nat) groups.
Proof.
  apply (formatNumber_groups_of_three (-1234567)). unfold safe. lia.
Defined.

(* ===================================================================== *)
(** * The most active users                                               *)
(* ===================================================================== *)

(** The numeric and the textual 42 are one user here; the anonymous
    session is not counted; equal counts keep the order of the keys,
    array indices first. *)
Example top_users_of_busy_sessions :
  top_users busy_sessions = [("42", 4%nat); ("u1", 2%nat); ("u2", 2%nat)].
Proof. reflexivity. Qed.

Lemma count_for_bump key k entries :
  count_for k (bump_entry key entries)
  = (count_for k entries + (if String.eqb key k then 1 else 0))%nat.
Proof.
  induction entries as [|[k0 n] rest IH]; cbn [bump_entry count_for].
  - destruct (String.eqb key k); reflexivity.
  - destruct (String.eqb_spec k0 key) as [->|Hne]; cbn [count_for].
    + destruct (String.eqb key k); lia.
    + destruct (String.eqb_spec k0 k) as [->|Hne'].
      * apply String.eqb_neq in Hne. rewrite String.eqb_sym in Hne.
        rewrite Hne. lia.
      * exact IH.
Qed.

Lemma bump_entry_keys key entries x :
  In x (map fst (bump_entry key entries)) -> x = key \/ In x (map fst entries).
Proof.
  induction entries as [|[k0 n] rest IH]; cbn [bump_entry].
  - cbn. intros [<-|[]]. now left.
  - destruct (String.eqb k0 key); cbn; intros [<-|H]; auto.
    destruct (IH H); auto.
Qed.

Lemma bump_entry_NoDup key entries :
  List.NoDup (map fst entries) -> List.NoDup (map fst (bump_entry key entries)).
Proof.
  induction entries as [|[k0 n] rest IH]; cbn [bump_entry]; intros Hnd.
  - cbn. constructor; [intros [] | constructor].
  - cbn in Hnd. apply NoDup_cons_iff in Hnd. destruct Hnd as (Hnotin & Hnd).
    destruct (String.eqb_spec k0 key) as [->|Hne]; cbn.
    + now constructor.
    + constructor; [|now apply IH].
      intros Hin. apply bump_entry_keys in Hin. destruct Hin; congruence.
Qed.

Lemma bump_entry_positive key entries :
  Forall (fun e => (1 <= snd e)%nat) entries ->
  Forall (fun e => (1 <= snd e)%nat) (bump_entry key entries).
Proof.
  induction 1 as [|[k0 n] rest Hn Hrest IH]; cbn [bump_entry].
  - repeat constructor.
  - cbn [snd] in Hn. destruct (String.eqb k0 key); constructor;
      cbn [snd]; try assumption; lia.
Qed.

Lemma count_for_listed k n entries :
  List.NoDup (map fst entries) -> In (k, n) entries -> count_for k entries = n.
Proof.
  induction entries as [|[k0 n0] rest IH]; [intros _ []|].
  cbn. intros Hnd Hin. apply NoDup_cons_iff in Hnd. destruct Hnd as (Hnotin & Hnd).
  destruct Hin as [Heq|Hin].
  - injection Heq as -> ->. now rewrite String.eqb_refl.
  - destruct (String.eqb_spec k0 k) as [->|_]; [|now apply IH].
    exfalso. apply Hnotin. apply in_map_iff. exists (k, n). auto.
Qed.

Lemma count_for_present k entries :
  (1 <= count_for k entries)%nat -> In (k, count_for k entries) entries.
Proof.
  induction entries as [|[k0 n0] rest IH]; cbn; [lia|].
  destruct (String.eqb_spec k0 k) as [->|_]; auto.
Qed.

(** The counting pass: distinct keys, no zero, and under each key the
    number of events of the truthy users written that way. *)
Lemma userActivity_counts sessions :
  List.NoDup (map fst (userActivity sessions))
  /\ Forall (fun e => (1 <= snd e)%nat) (userActivity sessions)
  /\ forall k, count_for k (userActivity sessions) = events_of_user k sessions.
Proof.
  unfold userActivity, events_of_user.
  generalize (event_users sessions). intros uids.
  assert (H : forall acc,
    List.NoDup (map fst acc) -> Forall (fun e => (1 <= snd e)%nat) acc ->
    let final := fold_left (fun acc uid => if truthy uid
                                           then bump_entry (ToString uid) acc
                                           else acc) uids acc in
    List.NoDup (map fst final)
    /\ Forall (fun e => (1 <= snd e)%nat) final
    /\ forall k, count_for k final
       = (count_for k acc
          + length (List.filter
                      (fun uid => truthy uid && String.eqb (ToString uid) k)
                      uids))%nat).
  { induction uids as [|uid uids IH]; intros acc Hnd Hpos; cbn [fold_left].
    - split; [assumption|]. split; [assumption|]. intros k. cbn. lia.
    - destruct (truthy uid) eqn:Ht.
      + destruct (IH (bump_entry (ToString uid) acc)) as (H1 & H2 & H3);
          auto using bump_entry_NoDup, bump_entry_positive.
        split; [assumption|]. split; [assumption|].
        intros k. rewrite H3, count_for_bump.
        cbn [List.filter]. rewrite Ht. cbn [andb].
        destruct (String.eqb (ToString uid) k); cbn [length]; lia.
      + destruct (IH acc Hnd Hpos) as (H1 & H2 & H3).
        split; [assumption|]. split; [assumption|].
        intros k. rewrite H3. cbn [List.filter].
        rewrite Ht. reflexivity. }
  destruct (H [] (List.NoDup_nil _) (Forall_nil_2 _)) as (H1 & H2 & H3).
  split; [assumption|]. split; [assumption|]. intros k. now rewrite H3.
Qed.

Lemma insert_by_index_perm e sorted :
  Permutation (insert_by_index e sorted) (e :: sorted).
Proof.
  induction sorted as [|y rest IH]; cbn; [reflexivity|].
  destruct (index_of e <=? index_of y); [reflexivity|].
  rewrite IH. apply perm_swap.
Qed.

Lemma insert_by_count_perm e sorted :
  Permutation (insert_by_count e sorted) (e :: sorted).
Proof.
  induction sorted as [|y rest IH]; cbn [insert_by_count]; [reflexivity|].
  destruct (snd e <? snd y)%nat; [|reflexivity].
  rewrite IH. apply perm_swap.
Qed.

Lemma filter_split_perm {A} (p : A -> bool) l :
  Permutation (List.filter p l ++ List.filter (fun x => negb (p x)) l) l.
Proof.
  induction l as [|x l IH]; cbn; [reflexivity|].
  destruct (p x); cbn.
  - now constructor.
  - rewrite <- Permutation_middle. now constructor.
Qed.

Lemma Object_entries_perm entries : Permutation (Object_entries entries) entries.
Proof.
  unfold Object_entries. rewrite <- (filter_split_perm is_index entries) at 3.
  apply Permutation_app_tail.
  induction (List.filter is_index entries) as [|e l IH]; cbn; [reflexivity|].
  rewrite insert_by_index_perm. now constructor.
Qed.

Lemma sort_by_count_perm entries : Permutation (sort_by_count entries) entries.
Proof.
  unfold sort_by_count. induction entries as [|e l IH]; cbn; [reflexivity|].
  rewrite insert_by_count_perm. now constructor.
Qed.

Lemma insert_by_count_descending e sorted :
  descending sorted -> descending (insert_by_count e sorted).
Proof.
  unfold descending.
  induction 1 as [|y rest Hrest IH Hy]; cbn [insert_by_count].
  - repeat constructor.
  - destruct (Nat.ltb_spec (snd e) (snd y)) as [Hlt|Hge].
    + constructor; [assumption|].
      rewrite Forall_forall. intros x Hx.
      apply list_elem_of_In in Hx.
      apply (Permutation_in _ (insert_by_count_perm e rest)) in Hx.
      destruct Hx as [<-|Hx]; [lia|].
      rewrite Forall_forall in Hy. apply Hy. now apply list_elem_of_In.
    + constructor; [now constructor|].
      constructor; [assumption|].
      rewrite Forall_forall in Hy |- *. intros x Hx. specialize (Hy x Hx). lia.
Qed.

Lemma sort_by_count_descending entries : descending (sort_by_count entries).
Proof.
  unfold sort_by_count. induction entries as [|e l IH]; cbn.
  - constructor.
  - now apply insert_by_count_descending.
Qed.

Lemma take_descending n entries : descending entries -> descending (take n entries).
Proof.
  unfold descending. intros H. revert n.
  induction H as [|y rest Hrest IH Hy]; intros [|n]; cbn; try constructor.
  - apply IH.
  - now apply Forall_take.
Qed.

Lemma In_take {A} n (l : list A) x : In x (take n l) -> In x l.
Proof.
  revert n. induction l as [|y l IH]; intros [|n]; cbn; try tauto.
  intros [->|H]; eauto.
Qed.

Lemma NoDup_take_list {A} n (l : list A) : List.NoDup l -> List.NoDup (take n l).
Proof.
  intros H. revert n. induction H as [|y l Hy _ IH]; intros [|n]; cbn;
    try constructor; auto.
  intros Hin. apply Hy. eapply In_take, Hin.
Qed.

Lemma sorted_split {A} (R : A -> A -> Prop) l1 l2 x y :
  StronglySorted R (l1 ++ l2) -> In x l1 -> In y l2 -> R x y.
Proof.
  induction l1 as [|a l1 IH]; intros Hs Hx Hy; [destruct Hx|].
  cbn [app] in Hs. inversion Hs as [|? ? Htl Hhd]; subst.
  destruct Hx as [->|Hx]; [|now apply IH].
  rewrite Forall_forall in Hhd. apply Hhd, list_elem_of_In.
  apply in_or_app. now right.
Qed.

(** For users that are not written like members of [Object.prototype]
    (the counting object is a plain object, and the model holds only its
    own keys) and whose numeric identifiers are below 2^53 in absolute
    value, the list of the most active users has at most five entries, in
    descending order of their counts, no user twice; the count beside a
    user is the number of events of the sessions whose truthy [user_id]
    is written like that user (sessions without user are not counted),
    and is at least one; when fewer than five users are listed,
    every user with an event is listed; and a user with an event who is
    not listed has no more events than any user listed. *)
Theorem top_users_ranking sessions :
  plain_users sessions ->
  users_written_in_full sessions ->
  (length (top_users sessions) <= 5)%nat
  /\ descending (top_users sessions)
  /\ List.NoDup (map fst (top_users sessions))
  /\ (forall k n, In (k, n) (top_users sessions) ->
                  n = events_of_user k sessions /\ (1 <= n)%nat)
  /\ ((length (top_users sessions) < 5)%nat ->
      forall k, (1 <= events_of_user k sessions)%nat ->
                In (k, events_of_user k sessions) (top_users sessions))
  /\ (forall k, (1 <= events_of_user k sessions)%nat ->
                ~ In (k, events_of_user k sessions) (top_users sessions) ->
                forall k' n', In (k', n') (top_users sessions) ->
                              (events_of_user k sessions <= n')%nat).
Proof.
  intros _ _.
  destruct (userActivity_counts sessions) as (Hnd & Hpos & Hcount).
  pose proof (Object_entries_perm (userActivity sessions)) as Hp1.
  pose proof (sort_by_count_perm (Object_entries (userActivity sessions))) as Hp2.
  assert (Hperm : Permutation
            (sort_by_count (Object_entries (userActivity sessions)))
            (userActivity sessions)) by (etransitivity; eassumption).
  unfold top_users. split; [|split; [|split; [|split; [|split]]]].
  - rewrite length_take. lia.
  - apply take_descending, sort_by_count_descending.
  - rewrite <- firstn_map. apply NoDup_take_list.
    apply (Permutation_NoDup (l := map fst (userActivity sessions)));
      [|assumption].
    apply Permutation_map. now symmetry.
  - intros k n Hin. apply In_take in Hin.
    apply (Permutation_in _ Hperm) in Hin.
    rewrite <- Hcount, (count_for_listed k n _ Hnd Hin). split; [reflexivity|].
    rewrite Forall_forall in Hpos. apply (Hpos (k, n)). now apply list_elem_of_In.
  - intros Hlen k Hk. rewrite length_take in Hlen.
    rewrite firstn_all2 by lia.
    apply (Permutation_in _ (Permutation_sym Hperm)).
    rewrite <- Hcount in *. now apply count_for_present.
  - intros k Hk Hout k' n' Hin.
    set (sorted := sort_by_count (Object_entries (userActivity sessions))) in *.
    assert (Hk_in : In (k, events_of_user k sessions) sorted).
    { apply (Permutation_in _ (Permutation_sym Hperm)).
      rewrite <- Hcount in *. now apply count_for_present. }
    rewrite <- (firstn_skipn 5 sorted) in Hk_in.
    apply in_app_or in Hk_in. destruct Hk_in as [Hk_in | Hk_in]; [contradiction|].
    pose proof (sort_by_count_descending
                  (Object_entries (userActivity sessions))) as Hdesc.
    fold sorted in Hdesc. unfold descending in Hdesc.
    rewrite <- (firstn_skipn 5 sorted) in Hdesc.
    apply (sorted_split _ _ _ _ _ Hdesc Hin Hk_in).
Qed.

Lemma top_users_ranking_witness :
  (length (top_users busy_sessions) <= 5)%nat
  /\ descending (top_users busy_sessions)
  /\ List.NoDup (map fst (top_users busy_sessions))
  /\ (forall k n, In (k, n) (top_users busy_sessions) ->
                  n = events_of_user k busy_sessions /\ (1 <= n)%nat)
  /\ ((length (top_users busy_sessions) < 5)%nat ->
      forall k, (1 <= events_of_user k busy_sessions)%nat ->
                In (k, events_of_user k busy_sessions) (top_users busy_sessions))
  /\ (forall k, (1 <= events_of_user k busy_sessions)%nat ->
                ~ In (k, events_of_user k busy_sessions)
                     (top_users busy_sessions) ->
                forall k' n', In (k', n') (top_users busy_sessions) ->
                              (events_of_user k busy_sessions <= n')%nat).
Proof.
  apply (top_users_ranking busy_sessions).
  - intros s Hin Hkey.
    repeat (destruct Hin as [<-|Hin];
            [cbn in Hkey;
             repeat (destruct Hkey as [Hkey|Hkey]; [discriminate|]); exact Hkey|]).
    destruct Hin.
  - intros s z Hin Hid.
    repeat (destruct Hin as [<-|Hin];
            [cbn in Hid; try discriminate; injection Hid as <-;
             unfold safe; lia|]).
    destruct Hin.
Defined.

(* ===================================================================== *)
(** * Requests that overlap                                               *)
(* ===================================================================== *)

Section Overlapping.

Variable clock : nat -> string.








End Overlapping.


(** The two sample batches overlapping on the empty store: two records,
    three events and a calculation in the log, and stats that know of
    one session, one event and no calculation. *)
Example overlapping_sample_batches :
  let w' := snd (post_overlapping sample_clock healthy first_batch second_batch
                   empty_listed_store) in
  length (log_sessions w') = 2%nat
  /\ length (flat_map events (log_sessions w')) = 3%nat
  /\ persisted_stats w'
     = Some (Stats 1 1 0 1 (UArray [VStr "u2"])).
Proof. repeat split; reflexivity. Qed.
